(** * IIS monitor: a shallow embedding of [iis_monitor.py]

    The monitoring engine ([IISMonitor]), its remediation policy
    ([_handle_failure], [restart_website], [restart_app_pool]), the status
    snapshot ([get_status_snapshot]), the bulk configuration updates
    ([save_web_config_json], [save_pool_config_json]), the documents the
    page shows for the two maps ([web_final], [pool_final]) and the memory
    buffer of the logger ([LogManager]) are translated into executable Rocq
    functions.

    - Python integers are [Z]; strings are [string] (UTF-8 bytes).
    - The configuration dictionaries are insertion-ordered association
      lists ([Dict]), iterated in list order as Python iterates a dict.
    - The per-target status dictionaries are Python objects shared by
      reference: they live in an object store ([heap]) and the engine's
      tables map a name to a location, so that a shallow copy of a table
      still points at the same objects.
    - Everything the program asks of the outside world (the appcmd tool,
      the HTTP request, the clock, the lock) is an explicit input, and every
      command it issues is an [Event] of the returned trace.
    - A raised exception is a result of its own ([None], or a separate
      branch), handled where the source has its [except] clause.
      [run_appcmd] catches everything itself; [print], the logger and
      [ConfigManager.save] are taken to return normally.
    - Threads are not modelled: every function runs from its first line to
      its last on the engine it is given, and the monitoring loop is a list
      of check cycles ([run_cycles]). *)

From Stdlib Require Import ZArith Ascii String List Bool Lia.
From Stdlib Require Import Floats.PrimFloat Floats.SpecFloat Floats.FloatOps.
From stdpp Require Import base option list gmap strings.

Local Open Scope string_scope.
Local Open Scope list_scope.
Local Open Scope Z_scope.

(** ** Insertion-ordered dictionaries with string keys *)

Definition Dict (V : Type) : Type := list (string * V).

Definition dict_keys {V} (d : Dict V) : list string := map fst d.

Fixpoint dict_get {V} (d : Dict V) (k : string) : option V :=
  match d with
  | [] => None
  | (k', v) :: d' => if String.eqb k' k then Some v else dict_get d' k
  end.

Definition dict_mem {V} (d : Dict V) (k : string) : bool :=
  match dict_get d k with Some _ => true | None => false end.

(** [d[k] = v]: an existing key keeps its position, a new key goes last. *)
Fixpoint dict_set {V} (d : Dict V) (k : string) (v : V) : Dict V :=
  match d with
  | [] => [(k, v)]
  | (k', v') :: d' =>
      if String.eqb k' k then (k', v) :: d' else (k', v') :: dict_set d' k v
  end.

(** ** JSON values as [json.loads] returns them *)

#[warnings="-register-all"]
Inductive JSON : Type :=
| JNull
| JBool (b : bool)
| JInt (n : Z)
| JFloat (f : float)
| JStr (s : string)
| JList (l : list JSON)
| JDict (d : list (string * JSON)).

(** [bool(x)] *)
Definition py_bool (x : JSON) : bool :=
  match x with
  | JNull => false
  | JBool b => b
  | JInt n => negb (n =? 0)
  | JFloat f => negb (PrimFloat.eqb f PrimFloat.zero)
  | JStr s => negb (String.eqb s "")
  | JList l => match l with [] => false | _ => true end
  | JDict d => match d with [] => false | _ => true end
  end.

(** [int(f)] for a float: truncation toward zero; an infinity raises
    OverflowError and a NaN raises ValueError ([None]). *)
Definition py_int_of_float (f : float) : option Z :=
  match Prim2SF f with
  | S754_zero _ => Some 0
  | S754_finite s m e =>
      let mag := if 0 <=? e then Z.pos m * 2 ^ e else Z.pos m / 2 ^ (- e) in
      Some (if s then - mag else mag)
  | S754_infinity _ => None
  | S754_nan => None
  end.

(** ** The data classes *)

Module WebsiteConfig.
Record t : Type := mk {
  url : JSON;
  enabled : bool;
  check_timeout : Z;
  expected_status : Z
}.
End WebsiteConfig.

Module AppPoolConfig.
Record t : Type := mk {
  enabled : bool;
  auto_restart : bool;
  restart_delay : Z
}.
End AppPoolConfig.

Module MonitorStatus.
Record t : Type := mk {
  status : string;
  start_time : option string;
  last_check_time : option string;
  total_checks : Z;
  total_failures : Z;
  total_restarts : Z;
  uptime_seconds : Z
}.

(** [MonitorStatus()] with its field defaults. *)
Definition default : t := mk "stopped" None None 0 0 0 0.

Definition incr_total_failures (s : t) : t :=
  mk (status s) (start_time s) (last_check_time s) (total_checks s)
     (total_failures s + 1) (total_restarts s) (uptime_seconds s).

Definition incr_total_restarts (s : t) : t :=
  mk (status s) (start_time s) (last_check_time s) (total_checks s)
     (total_failures s) (total_restarts s + 1) (uptime_seconds s).
End MonitorStatus.

(** A per-target status dictionary.  The keys ["status"] and
    ["fail_count"] are always present; ["last_check"] and ["total_checks"]
    are absent ([None]) in an entry created on the fly by [_check_cycle]. *)
Module Stat.
Record t : Type := mk {
  status : string;
  fail_count : Z;
  last_check : option string;
  total_checks : option Z
}.

(** [{"status": "unknown", "fail_count": 0, "last_check": "-", "total_checks": 0}] *)
Definition seeded : t := mk "unknown" 0 (Some "-") (Some 0).

(** [{"status": "unknown", "fail_count": 0}] *)
Definition bare : t := mk "unknown" 0 None None.

Definition set_status (v : string) (s : t) : t :=
  mk v (fail_count s) (last_check s) (total_checks s).
Definition set_fail_count (v : Z) (s : t) : t :=
  mk (status s) v (last_check s) (total_checks s).
Definition set_last_check (v : string) (s : t) : t :=
  mk (status s) (fail_count s) (Some v) (total_checks s).
Definition set_total_checks (v : Z) (s : t) : t :=
  mk (status s) (fail_count s) (last_check s) (Some v).
End Stat.

#[global] Instance Stat_inhabited : Inhabited Stat.t := populate Stat.bare.

Module ConfigManager.
Record t : Type := mk {
  websites : Dict WebsiteConfig.t;
  app_pools : Dict AppPoolConfig.t;
  check_interval : Z;
  max_failures : Z;
  global_auto_restart : bool
}.

Definition set_websites (w : Dict WebsiteConfig.t) (c : t) : t :=
  mk w (app_pools c) (check_interval c) (max_failures c) (global_auto_restart c).
Definition set_app_pools (p : Dict AppPoolConfig.t) (c : t) : t :=
  mk (websites c) p (check_interval c) (max_failures c) (global_auto_restart c).
End ConfigManager.

(** ** The engine *)

(** The two kinds of target; [_handle_failure] receives them as the
    strings ["网站"] (website) and ["应用池"] (application pool). *)
Inductive TypeName : Type := Website | AppPool.

#[global] Instance TypeName_eq_dec : EqDecision TypeName.
Proof. solve_decision. Defined.

(** A reference to a status dictionary in the object store. *)
Abbreviation loc := nat (only parsing).

Record IISMonitor : Type := mkIISMonitor {
  config_manager : ConfigManager.t;
  running : bool;
  status : MonitorStatus.t;
  website_status : gmap string loc;
  apppool_status : gmap string loc;
  heap : list Stat.t
}.

Definition set_config_manager (c : ConfigManager.t) (m : IISMonitor) : IISMonitor :=
  mkIISMonitor c (running m) (status m) (website_status m) (apppool_status m) (heap m).
Definition set_running (b : bool) (m : IISMonitor) : IISMonitor :=
  mkIISMonitor (config_manager m) b (status m) (website_status m) (apppool_status m) (heap m).
Definition set_status (s : MonitorStatus.t) (m : IISMonitor) : IISMonitor :=
  mkIISMonitor (config_manager m) (running m) s (website_status m) (apppool_status m) (heap m).
Definition set_heap (h : list Stat.t) (m : IISMonitor) : IISMonitor :=
  mkIISMonitor (config_manager m) (running m) (status m) (website_status m) (apppool_status m) h.

(** The status table of one kind. *)
Definition status_map (k : TypeName) (m : IISMonitor) : gmap string loc :=
  match k with Website => website_status m | AppPool => apppool_status m end.

Definition set_status_map (k : TypeName) (t : gmap string loc) (m : IISMonitor) : IISMonitor :=
  match k with
  | Website => mkIISMonitor (config_manager m) (running m) (status m) t (apppool_status m) (heap m)
  | AppPool => mkIISMonitor (config_manager m) (running m) (status m) (website_status m) t (heap m)
  end.

(** [stat[...] = ...] through the reference [l]. *)
Definition update (l : loc) (f : Stat.t → Stat.t) (m : IISMonitor) : IISMonitor :=
  set_heap (alter f l (heap m)) m.

(** Reading through the reference [l]. *)
Definition deref (m : IISMonitor) (l : loc) : Stat.t := heap m !!! l.

(** What a reader of the table sees for a name. *)
Definition stat_of (k : TypeName) (name : string) (m : IISMonitor) : option Stat.t :=
  status_map k m !! name ≫= λ l, heap m !! l.

(** ** The outside world *)

(** One [Env] describes the world during one check cycle.
    - [appcmd args] is what [run_appcmd( *args )] returns: the success flag
      and the captured output.  [run_appcmd] catches every exception itself,
      so it always returns.
    - [http_status name] is the outcome of the probe of site [name]
      (URL resolution and [requests.get], lines 384-388): the status code of
      the response, or [None] when any of it raised. *)
Record Env : Type := mkEnv {
  appcmd : list string → bool * string;
  http_status : string → option Z
}.

(** Log messages, by the format string that builds them. *)
Inductive Message : Type :=
| MsgPreparingRestart (type_name : TypeName) (name : string) (fail_count : Z)
| MsgRestartSucceeded (type_name : TypeName) (name : string)
| MsgRestartFailed (type_name : TypeName) (name : string)
| MsgPoolCheckException (name : string)
| MsgMonitorStarted
| MsgMonitorStopping
| MsgMonitorStopped.

(** What the program does to the outside world. *)
Inductive Event : Type :=
| EvAppcmd (args : list string)
| EvSleep (seconds : Z)
| EvLog (level : string) (msg : Message)
| EvSaveConfig.

(** [sub in s] for strings. *)
Fixpoint contains (sub s : string) : bool :=
  String.prefix sub s ||
  match s with
  | EmptyString => false
  | String _ s' => contains sub s'
  end.

Definition get_app_pool_state (env : Env) (app_pool_name : string) : string * list Event :=
  let '(success, output) := appcmd env ["list"; "apppool"; app_pool_name] in
  let state :=
    if success && contains "Started" output then "Started"
    else if success && contains "Stopped" output then "Stopped"
    else "Unknown" in
  (state, [EvAppcmd ["list"; "apppool"; app_pool_name]]).

(** [time.sleep] raises ValueError on a negative length; the [except]
    clause of the restart functions turns that into [False]. *)
Definition restart_website (env : Env) (site_name : string) (delay : Z) : bool * list Event :=
  let stop := ["stop"; "site"; site_name] in
  let start := ["start"; "site"; site_name] in
  if delay <? 0 then (false, [EvAppcmd stop])
  else
    let '(success, _) := appcmd env start in
    (success, [EvAppcmd stop; EvSleep delay; EvAppcmd start]).

Definition restart_app_pool (env : Env) (app_pool_name : string) (delay : Z) : bool * list Event :=
  let stop := ["stop"; "apppool"; app_pool_name] in
  let start := ["start"; "apppool"; app_pool_name] in
  if delay <? 0 then (false, [EvAppcmd stop])
  else
    let '(success, _) := appcmd env start in
    (success, [EvAppcmd stop; EvSleep delay; EvAppcmd start]).

(** ** Remediation *)

(** [stat] is the reference to the target's status dictionary that
    [_check_cycle] passes along.  Both restart functions are called with
    their default [delay=5]. *)
Definition _handle_failure (env : Env) (name : string) (type_name : TypeName)
    (stat : loc) (m : IISMonitor) : IISMonitor * list Event :=
  let m := set_status (MonitorStatus.incr_total_failures (status m)) m in
  let cfg := config_manager m in
  if ConfigManager.max_failures cfg <=? Stat.fail_count (deref m stat) then
    if ConfigManager.global_auto_restart cfg then
      let ev0 := [EvLog "WARNING"
                    (MsgPreparingRestart type_name name (Stat.fail_count (deref m stat)))] in
      let '(m, restart_success, ev1) :=
        match type_name with
        | Website =>
            if dict_mem (ConfigManager.websites cfg) name then
              let '(ok, ev) := restart_website env name 5 in
              if ok then
                (set_status (MonitorStatus.incr_total_restarts (status m)) m, true,
                 ev ++ [EvLog "INFO" (MsgRestartSucceeded type_name name)])
              else (m, false, ev ++ [EvLog "ERROR" (MsgRestartFailed type_name name)])
            else (m, false, [])
        | AppPool =>
            if dict_mem (ConfigManager.app_pools cfg) name then
              let '(ok, ev) := restart_app_pool env name 5 in
              if ok then
                (set_status (MonitorStatus.incr_total_restarts (status m)) m, true,
                 ev ++ [EvLog "INFO" (MsgRestartSucceeded type_name name)])
              else (m, false, ev ++ [EvLog "ERROR" (MsgRestartFailed type_name name)])
            else (m, false, [])
        end in
      let m := if restart_success : bool then update stat (Stat.set_fail_count 0) m else m in
      (m, ev0 ++ ev1)
    else (m, [])
  else (m, []).

(** ** The check cycle *)

(** [if name not in table: table[name] = init] followed by
    [table[name]]: the reference found, or the reference to a new
    dictionary. *)
Definition entry_or_new (init : Stat.t) (k : TypeName) (name : string)
    (m : IISMonitor) : loc * IISMonitor :=
  match status_map k m !! name with
  | Some l => (l, m)
  | None =>
      let l := length (heap m) in
      (l, set_status_map k (<[name := l]> (status_map k m)) (set_heap (heap m ++ [init]) m))
  end.

(** [if name not in table: table[name] = {"status": "unknown", "fail_count": 0}]
    followed by [stat = table[name]]. *)
Definition lookup_or_create (k : TypeName) (name : string) (m : IISMonitor)
    : loc * IISMonitor :=
  entry_or_new Stat.bare k name m.

Definition incr_fail_count (s : Stat.t) : Stat.t :=
  Stat.set_fail_count (Stat.fail_count s + 1) s.

(** The [except Exception] clause of the website loop. *)
Definition website_except (env : Env) (current_time : string) (name : string)
    (m : IISMonitor) : IISMonitor * list Event :=
  let '(stat, m) := lookup_or_create Website name m in
  let m := update stat (Stat.set_status "error") m in
  let m := update stat incr_fail_count m in
  let m := update stat (Stat.set_last_check current_time) m in
  _handle_failure env name Website stat m.

(** The body of the website loop for one enabled site.
    [stat["total_checks"] += 1] raises KeyError when the key is absent;
    the mutations made before it stay, and the [except] clause runs. *)
Definition check_website (env : Env) (current_time : string) (name : string)
    (cfg : WebsiteConfig.t) (m : IISMonitor) : IISMonitor * list Event :=
  match http_status env name with
  | None => website_except env current_time name m
  | Some status_code =>
      let is_ok := status_code =? WebsiteConfig.expected_status cfg in
      let '(stat, m) := lookup_or_create Website name m in
      let m := update stat (Stat.set_last_check current_time) m in
      match Stat.total_checks (deref m stat) with
      | None => website_except env current_time name m
      | Some n =>
          let m := update stat (Stat.set_total_checks (n + 1)) m in
          if is_ok then
            let m := update stat (Stat.set_status "ok") m in
            let m := update stat (Stat.set_fail_count 0) m in
            (m, [])
          else
            let m := update stat (Stat.set_status "error") m in
            let m := update stat incr_fail_count m in
            _handle_failure env name Website stat m
      end
  end.

(** The body of the application-pool loop for one enabled pool.  Its
    [except] clause only logs. *)
Definition check_app_pool (env : Env) (current_time : string) (name : string)
    (cfg : AppPoolConfig.t) (m : IISMonitor) : IISMonitor * list Event :=
  let '(state, ev) := get_app_pool_state env name in
  let is_ok := String.eqb state "Started" in
  let '(stat, m) := lookup_or_create AppPool name m in
  let m := update stat (Stat.set_last_check current_time) m in
  match Stat.total_checks (deref m stat) with
  | None => (m, ev ++ [EvLog "ERROR" (MsgPoolCheckException name)])
  | Some n =>
      let m := update stat (Stat.set_total_checks (n + 1)) m in
      if is_ok then
        let m := update stat (Stat.set_status "running") m in
        let m := update stat (Stat.set_fail_count 0) m in
        (m, ev)
      else
        let m := update stat (Stat.set_status "stopped") m in
        let m := update stat incr_fail_count m in
        let '(m, ev') := _handle_failure env name AppPool stat m in
        (m, ev ++ ev')
  end.

(** [for name, cfg in d.items(): body], threading the engine and
    concatenating the traces. *)
Fixpoint for_each {V} (body : string → V → IISMonitor → IISMonitor * list Event)
    (d : Dict V) (m : IISMonitor) : IISMonitor * list Event :=
  match d with
  | [] => (m, [])
  | (name, cfg) :: d' =>
      let '(m1, e1) := body name cfg m in
      let '(m2, e2) := for_each body d' m1 in
      (m2, e1 ++ e2)
  end.

Definition website_body (env : Env) (current_time : string) (name : string)
    (cfg : WebsiteConfig.t) (m : IISMonitor) : IISMonitor * list Event :=
  if WebsiteConfig.enabled cfg then check_website env current_time name cfg m
  else (m, []).

Definition app_pool_body (env : Env) (current_time : string) (name : string)
    (cfg : AppPoolConfig.t) (m : IISMonitor) : IISMonitor * list Event :=
  if AppPoolConfig.enabled cfg then check_app_pool env current_time name cfg m
  else (m, []).

Definition _check_cycle (env : Env) (current_time : string) (m : IISMonitor)
    : IISMonitor * list Event :=
  let '(m1, e1) :=
    for_each (website_body env current_time)
             (ConfigManager.websites (config_manager m)) m in
  let '(m2, e2) :=
    for_each (app_pool_body env current_time)
             (ConfigManager.app_pools (config_manager m1)) m1 in
  (m2, e1 ++ e2).

(** Successive cycles, each with its own world and clock reading; the
    traces are kept per cycle. *)
Fixpoint run_cycles (ws : list (Env * string)) (m : IISMonitor)
    : IISMonitor * list (list Event) :=
  match ws with
  | [] => (m, [])
  | (env, current_time) :: ws' =>
      let '(m1, e) := _check_cycle env current_time m in
      let '(m2, es) := run_cycles ws' m1 in
      (m2, e :: es)
  end.

(** ** Life cycle *)

(** One step of [_init_status]: a name without an entry gets a fresh,
    fully seeded dictionary; a name with an entry is left alone. *)
Definition seed (k : TypeName) (m : IISMonitor) (name : string) : IISMonitor :=
  snd (entry_or_new Stat.seeded k name m).

Definition _init_status (m : IISMonitor) : IISMonitor :=
  let m := foldl (seed Website) m (dict_keys (ConfigManager.websites (config_manager m))) in
  foldl (seed AppPool) m (dict_keys (ConfigManager.app_pools (config_manager m))).

(** [start()]; [now] is the formatted clock reading.  Spawning the loop
    thread is left to the caller, who runs [_check_cycle]. *)
Definition start (now : string) (m : IISMonitor) : IISMonitor * (bool * string) * list Event :=
  if running m then (m, (false, "监控已在运行中"), [])
  else
    let m := set_running true m in
    let m := set_status (MonitorStatus.mk "running" (Some now) None 0 0 0 0) m in
    let m := _init_status m in
    (m, (true, "监控已启动"), [EvLog "INFO" MsgMonitorStarted]).

Definition stop (m : IISMonitor) : IISMonitor * (bool * string) * list Event :=
  if negb (running m) then (m, (false, "监控未在运行"), [])
  else
    let m := set_running false m in
    let s := status m in
    let m := set_status (MonitorStatus.mk "stopped" None (MonitorStatus.last_check_time s)
                           (MonitorStatus.total_checks s) (MonitorStatus.total_failures s)
                           (MonitorStatus.total_restarts s) 0) m in
    (m, (true, "监控已停止"),
     [EvLog "INFO" MsgMonitorStopping; EvLog "INFO" MsgMonitorStopped]).

(** ** Snapshots *)

(** The dictionary [get_status_snapshot] returns.  [asdict(self.status)]
    builds a new dictionary of the scalar fields, a value.
    [dict(self.website_status)] builds a new outer dictionary whose values
    are the same status objects: the table of references is copied, the
    objects are not. *)
Record Snapshot : Type := mkSnapshot {
  monitor : MonitorStatus.t;
  websites : gmap string loc;
  pools : gmap string loc;
  config : Z * Z
}.

(** [acquired] is the result of [self.lock.acquire(timeout=0.1)]. *)
Definition get_status_snapshot (acquired : bool) (m : IISMonitor) : option Snapshot :=
  if acquired then
    Some (mkSnapshot (status m) (website_status m) (apppool_status m)
            (ConfigManager.check_interval (config_manager m),
             ConfigManager.max_failures (config_manager m)))
  else None.

(** What the holder of a snapshot reads for a site or a pool when the
    object store is [h]. *)
Definition snapshot_website (h : list Stat.t) (s : Snapshot) (name : string) : option Stat.t :=
  websites s !! name ≫= λ l, h !! l.

Definition snapshot_pool (h : list Stat.t) (s : Snapshot) (name : string) : option Stat.t :=
  pools s !! name ≫= λ l, h !! l.

(** ** Bulk configuration updates *)

(** What the two save functions report.  The message they return is built
    from these values: the two counters and the list of error lines (one
    per rejected entry, each naming the entry; here the name stands for the
    line). *)
Inductive SaveResult : Type :=
| Saved (success_count error_count : Z) (errors : list string)
| JsonFormatError
| SaveFailed.

Section Ingest.
(** Two built-ins of the Python runtime on strings:
    [str_blank s] is [not s or s.strip() == ""], and
    [int_of_str s] is [int(s)], [None] when it raises ValueError. *)
Variable str_blank : string → bool.
Variable int_of_str : string → option Z.

(** [int(x)]; [None] when it raises (TypeError, ValueError or
    OverflowError). *)
Definition py_int (x : JSON) : option Z :=
  match x with
  | JInt n => Some n
  | JBool b => Some (if b then 1 else 0)
  | JFloat f => py_int_of_float f
  | JStr s => int_of_str s
  | JNull => None
  | JList _ => None
  | JDict _ => None
  end.

(** [d.get(k, default)] *)
Definition json_get (d : Dict JSON) (k : string) (default : JSON) : JSON :=
  match dict_get d k with Some v => v | None => default end.

(** [if not isinstance(x, dict): x = {}] *)
Definition as_dict (x : JSON) : Dict JSON :=
  match x with JDict d => d | _ => [] end.

(** The configuration object built from one entry of the website JSON,
    [None] when building it raises. *)
Definition website_config_of (site_data : JSON) : option WebsiteConfig.t :=
  let site_data := as_dict site_data in
  let url := json_get site_data "url" (JStr "") in
  let enabled := py_bool (json_get site_data "enabled" (JBool true)) in
  match py_int (json_get site_data "check_timeout" (JInt 10)) with
  | None => None
  | Some check_timeout =>
      match py_int (json_get site_data "expected_status" (JInt 200)) with
      | None => None
      | Some expected_status =>
          Some (WebsiteConfig.mk url enabled check_timeout expected_status)
      end
  end.

Definition app_pool_config_of (pool_data : JSON) : option AppPoolConfig.t :=
  let pool_data := as_dict pool_data in
  let enabled := py_bool (json_get pool_data "enabled" (JBool true)) in
  let auto_restart := py_bool (json_get pool_data "auto_restart" (JBool true)) in
  match py_int (json_get pool_data "restart_delay" (JInt 5)) with
  | None => None
  | Some restart_delay => Some (AppPoolConfig.mk enabled auto_restart restart_delay)
  end.

(** The state of the loop over the entries: the map being rebuilt and
    the three statistics. *)
Record Ingest (V : Type) : Type := mkIngest {
  accepted : Dict V;
  success_count : Z;
  error_count : Z;
  errors : list string
}.
Arguments mkIngest {V}.
Arguments accepted {V}.
Arguments success_count {V}.
Arguments error_count {V}.
Arguments errors {V}.

(** One iteration of the loop over [data.items()]. *)
Definition ingest_entry {V} (convert : JSON → option V) (acc : Ingest V)
    (entry : string * JSON) : Ingest V :=
  let '(name, value) := entry in
  if str_blank name then acc
  else
    match convert value with
    | Some cfg =>
        mkIngest (dict_set (accepted acc) name cfg) (success_count acc + 1)
                 (error_count acc) (errors acc)
    | None =>
        mkIngest (accepted acc) (success_count acc) (error_count acc + 1)
                 (errors acc ++ [name])
    end.

Definition ingest {V} (convert : JSON → option V) (items : Dict JSON) : Ingest V :=
  foldl (ingest_entry convert) (mkIngest [] 0 0 []) items.

(** [data] is the value of [json.loads(json_str)] ([None] when it raises
    JSONDecodeError), after an empty or blank [json_str] has been replaced
    by ["{}"].  The map is emptied before the type of [data] is looked at,
    so a document that is not an object leaves it empty. *)
Definition save_web_config_json (data : option JSON) (m : IISMonitor)
    : IISMonitor * SaveResult * list Event :=
  match data with
  | None => (m, JsonFormatError, [])
  | Some data =>
      let m := set_config_manager (ConfigManager.set_websites [] (config_manager m)) m in
      match data with
      | JDict items =>
          let r := ingest website_config_of items in
          let m := set_config_manager
                     (ConfigManager.set_websites (accepted r) (config_manager m)) m in
          let m := _init_status m in
          (m, Saved (success_count r) (error_count r) (errors r), [EvSaveConfig])
      | _ => (m, SaveFailed, [])
      end
  end.

Definition save_pool_config_json (data : option JSON) (m : IISMonitor)
    : IISMonitor * SaveResult * list Event :=
  match data with
  | None => (m, JsonFormatError, [])
  | Some data =>
      let m := set_config_manager (ConfigManager.set_app_pools [] (config_manager m)) m in
      match data with
      | JDict items =>
          let r := ingest app_pool_config_of items in
          let m := set_config_manager
                     (ConfigManager.set_app_pools (accepted r) (config_manager m)) m in
          let m := _init_status m in
          (m, Saved (success_count r) (error_count r) (errors r), [EvSaveConfig])
      | _ => (m, SaveFailed, [])
      end
  end.
End Ingest.

Arguments mkIngest {V}.
Arguments accepted {V}.
Arguments success_count {V}.
Arguments error_count {V}.
Arguments errors {V}.

(** Instances of the two string built-ins on ASCII text, to run the save
    functions on examples. *)
Definition ascii_space (c : ascii) : bool :=
  let n := Z.of_nat (nat_of_ascii c) in
  ((9 <=? n) && (n <=? 13)) || ((28 <=? n) && (n <=? 32)).

Fixpoint ascii_blank (s : string) : bool :=
  match s with
  | EmptyString => true
  | String c s' => ascii_space c && ascii_blank s'
  end.

Definition digit_of (c : ascii) : option Z :=
  let n := Z.of_nat (nat_of_ascii c) in
  if (48 <=? n) && (n <=? 57) then Some (n - 48) else None.

(** Decimal digits, most significant first, onto an accumulator. *)
Fixpoint ascii_digits (acc : Z) (s : string) : option Z :=
  match s with
  | EmptyString => Some acc
  | String c s' =>
      match digit_of c with
      | Some d => ascii_digits (10 * acc + d) s'
      | None => None
      end
  end.

(** Plain signed decimal literals, without surrounding blanks or
    underscores. *)
Definition ascii_int_of_str (s : string) : option Z :=
  match s with
  | EmptyString => None
  | String "-"%char (String c s') => Z.opp <$> ascii_digits 0 (String c s')
  | String "+"%char (String c s') => ascii_digits 0 (String c s')
  | _ => ascii_digits 0 s
  end.

(** ** Vocabulary for the statements *)

#[global] Instance Message_eq_dec : EqDecision Message.
Proof. solve_decision. Defined.

#[global] Instance Event_eq_dec : EqDecision Event.
Proof. solve_decision. Defined.

(** The word appcmd uses for a kind of target. *)
Definition noun (k : TypeName) : string :=
  match k with Website => "site" | AppPool => "apppool" end.

Definition stop_cmd (k : TypeName) (name : string) : Event :=
  EvAppcmd ["stop"; noun k; name].
Definition start_cmd (k : TypeName) (name : string) : Event :=
  EvAppcmd ["start"; noun k; name].

(** A restart attempt as the restart functions issue it with the delay
    [_handle_failure] leaves at its default. *)
Definition restart_events (k : TypeName) (name : string) : list Event :=
  [stop_cmd k name; EvSleep 5; start_cmd k name].

(** The trace holds a stop of the target and, later, a start of it. *)
Definition restart_attempted (k : TypeName) (name : string) (ev : list Event) : Prop :=
  [stop_cmd k name; start_cmd k name] `sublist_of` ev.

(** The trace holds neither a stop nor a start of the target. *)
Definition no_restart (k : TypeName) (name : string) (ev : list Event) : Prop :=
  (stop_cmd k name ∉ ev) ∧ (start_cmd k name ∉ ev).

(** The trace reports a successful restart of the target. *)
Definition restart_succeeded (k : TypeName) (name : string) (ev : list Event) : Prop :=
  EvLog "INFO" (MsgRestartSucceeded k name) ∈ ev.

#[global] Instance no_restart_dec k name ev : Decision (no_restart k name ev).
Proof. unfold no_restart. apply _. Defined.

#[global] Instance restart_succeeded_dec k name ev :
  Decision (restart_succeeded k name ev).
Proof. unfold restart_succeeded. apply _. Defined.

(** Whether the start command for the target succeeds in this world. *)
Definition start_succeeds (env : Env) (k : TypeName) (name : string) : bool :=
  fst (appcmd env ["start"; noun k; name]).

(** The target is configured and enabled: the cycle probes it. *)
Definition monitored (k : TypeName) (name : string) (c : ConfigManager.t) : bool :=
  match k with
  | Website =>
      match dict_get (ConfigManager.websites c) name with
      | Some cfg => WebsiteConfig.enabled cfg
      | None => false
      end
  | AppPool =>
      match dict_get (ConfigManager.app_pools c) name with
      | Some cfg => AppPoolConfig.enabled cfg
      | None => false
      end
  end.

(** The outcome of the probe of an enabled target in this world:
    a site fails when the request raises or answers another status code
    than the expected one, a pool when its state is not ["Started"]. *)
Definition probe_failed (env : Env) (k : TypeName) (name : string)
    (c : ConfigManager.t) : bool :=
  match k with
  | Website =>
      match http_status env name, dict_get (ConfigManager.websites c) name with
      | Some code, Some cfg => negb (code =? WebsiteConfig.expected_status cfg)
      | _, _ => true
      end
  | AppPool => negb (String.eqb (fst (get_app_pool_state env name)) "Started")
  end.

(** The condition under which [_handle_failure] restarts, on the failure
    count the failing check has just written. *)
Definition threshold_reached (c : ConfigManager.t) (fail_count : Z) : bool :=
  (ConfigManager.max_failures c <=? fail_count) && ConfigManager.global_auto_restart c.

(** The event is about the target. *)
Definition concerns (k : TypeName) (name : string) (e : Event) : Prop :=
  match e with
  | EvAppcmd [_; kw; n] => kw = noun k ∧ n = name
  | EvLog _ (MsgPreparingRestart k' n _) => k' = k ∧ n = name
  | EvLog _ (MsgRestartSucceeded k' n) => k' = k ∧ n = name
  | EvLog _ (MsgRestartFailed k' n) => k' = k ∧ n = name
  | _ => False
  end.

(** ** Invariants and relations used in the proofs *)

(** Every reference of the two tables points into the store, and no two
    entries share a status object. *)
Definition tables_wf (m : IISMonitor) : Prop :=
  ∀ k name l, status_map k m !! name = Some l →
    (l < length (heap m))%nat ∧
    ∀ k' name', status_map k' m !! name' = Some l → k' = k ∧ name' = name.

(** The keys of a dictionary are distinct. *)
Definition keys_unique (c : ConfigManager.t) : Prop :=
  NoDup (dict_keys (ConfigManager.websites c)) ∧
  NoDup (dict_keys (ConfigManager.app_pools c)).

(** [m'] differs from [m] at most in the status object [l] and in the
    engine-wide status block, whose [total_checks] is the same. *)
Definition modifies (l : loc) (m m' : IISMonitor) : Prop :=
  config_manager m' = config_manager m ∧
  running m' = running m ∧
  website_status m' = website_status m ∧
  apppool_status m' = apppool_status m ∧
  MonitorStatus.total_checks (status m') = MonitorStatus.total_checks (status m) ∧
  length (heap m') = length (heap m) ∧
  ∀ l0, l0 ≠ l → heap m' !! l0 = heap m !! l0.

(** The target named in a call from the check cycle is a key of the
    configuration map of its kind. *)
Definition configured (k : TypeName) (name : string) (c : ConfigManager.t) : bool :=
  match k with
  | Website => dict_mem (ConfigManager.websites c) name
  | AppPool => dict_mem (ConfigManager.app_pools c) name
  end.

(** Every event of the trace that is about a target is about this one. *)
Definition only_about (k : TypeName) (name : string) (ev : list Event) : Prop :=
  ∀ e k0 n0, e ∈ ev → concerns k0 n0 e → k0 = k ∧ n0 = name.

(** One check of one target: the entry is looked up or created, then only
    its status object and the engine-wide counters change. *)
Definition target_step (k : TypeName) (name : string) (m m' : IISMonitor)
    (ev : list Event) : Prop :=
  ∃ l m1, lookup_or_create k name m = (l, m1) ∧ modifies l m1 m' ∧ only_about k name ev.

(** No event of the trace is about the target. *)
Definition silent (k : TypeName) (name : string) (ev : list Event) : Prop :=
  ∀ e, e ∈ ev → ¬ concerns k name e.

(** What a loop body must guarantee for the targets it is not called on. *)
Definition framed_body {V} (k : TypeName)
    (body : string → V → IISMonitor → IISMonitor * list Event) : Prop :=
  ∀ n cfg m m' ev, tables_wf m → body n cfg m = (m', ev) →
    tables_wf m' ∧
    config_manager m' = config_manager m ∧
    MonitorStatus.total_checks (status m') = MonitorStatus.total_checks (status m) ∧
    (∀ k0 n0, (k0, n0) ≠ (k, n) → stat_of k0 n0 m' = stat_of k0 n0 m) ∧
    only_about k n ev.

(** The trace holds no stop, no start and no success report of the target. *)
Definition harmless (k : TypeName) (name : string) (ev : list Event) : Prop :=
  no_restart k name ev ∧ ¬ restart_succeeded k name ev.

(** What a check of the target does to its failure count [fc] and what
    the trace shows, by probe result, threshold and result of the start
    command. *)
Definition check_outcome (env : Env) (k : TypeName) (name : string)
    (c : ConfigManager.t) (fc : Z) (s' : Stat.t) (ev : list Event) : Prop :=
  if probe_failed env k name c then
    if threshold_reached c (fc + 1) then
      restart_attempted k name ev ∧
      if start_succeeds env k name
      then Stat.fail_count s' = 0 ∧ restart_succeeded k name ev
      else Stat.fail_count s' = fc + 1 ∧ ¬ restart_succeeded k name ev
    else
      harmless k name ev ∧ Stat.fail_count s' = fc + 1
  else
    harmless k name ev ∧ Stat.fail_count s' = 0.

(** Whether the probe raised: only the website probe can. *)
Definition probe_raised (env : Env) (k : TypeName) (name : string) : bool :=
  match k with
  | Website => if http_status env name is Some _ then false else true
  | AppPool => false
  end.

(** The result of one check of a seeded target, as a reader of the table
    sees it. *)
Definition checked (env : Env) (current_time : string) (k : TypeName) (name : string)
    (c : ConfigManager.t) (s s' : Stat.t) (ev : list Event) : Prop :=
  Stat.last_check s' = Some current_time ∧
  Stat.total_checks s' =
    (if probe_raised env k name then Stat.total_checks s
     else (λ n, n + 1) <$> Stat.total_checks s) ∧
  is_Some (Stat.total_checks s') ∧
  check_outcome env k name c (Stat.fail_count s) s' ev.

(** The names configured for a kind. *)
Definition config_keys (k : TypeName) (c : ConfigManager.t) : list string :=
  match k with
  | Website => dict_keys (ConfigManager.websites c)
  | AppPool => dict_keys (ConfigManager.app_pools c)
  end.

(** What [_init_status] does to the tables: an entry that exists is kept
    as it is, whether its name is still configured or not; a name without
    an entry gets a seeded one when it is configured, and none otherwise. *)
Definition reseeded (m m' : IISMonitor) : Prop :=
  (∀ k n s, stat_of k n m = Some s → stat_of k n m' = Some s) ∧
  (∀ k n, stat_of k n m = None →
     stat_of k n m' =
       if decide (n ∈ config_keys k (config_manager m')) then Some Stat.seeded else None).

Section IngestVocabulary.
Variable str_blank : string → bool.
Context {V : Type}.
Variable convert : JSON → option V.

(** The entry is skipped and reported: its name is not blank and its
    conversion raises. *)
Definition rejected (e : string * JSON) : bool :=
  negb (str_blank e.1) && (if convert e.2 is Some _ then false else true).

(** The entry is applied: its name is not blank and it converts. *)
Definition applied (e : string * JSON) : bool :=
  negb (str_blank e.1) && (if convert e.2 is Some _ then true else false).

(** What the entry leaves in the map under its name when the map had
    [old] there. *)
Definition entry_effect (e : string * JSON) (old : option V) : option V :=
  if str_blank e.1 then old
  else if convert e.2 is Some cfg then Some cfg else old.
End IngestVocabulary.

(** The engine's tables are well formed, the target is configured and
    enabled, and its entry is complete and holds [s]. *)
Definition tracked (k : TypeName) (name : string) (m : IISMonitor) (s : Stat.t) : Prop :=
  tables_wf m ∧
  keys_unique (config_manager m) ∧
  monitored k name (config_manager m) = true ∧
  stat_of k name m = Some s ∧
  is_Some (Stat.total_checks s).

(** ** A sample installation *)

(** [IISMonitor()] on the configuration [c] that [ConfigManager()] has
    loaded: stopped, default status block, empty tables, then
    [_init_status]. *)
Definition new_monitor (c : ConfigManager.t) : IISMonitor :=
  _init_status (mkIISMonitor c false MonitorStatus.default ∅ ∅ []).

(** One site and one pool; the pool is configured with
    [auto_restart = false] and [restart_delay = 10]. *)
Definition sample_config (max_failures : Z) : ConfigManager.t :=
  ConfigManager.mk
    [("shop", WebsiteConfig.mk (JStr "http://localhost:8080") true 10 200)]
    [("ShopPool", AppPoolConfig.mk true false 10)]
    60 max_failures true.

(** Site and pool are down: the request raises, the pool is reported
    stopped, and every stop and start command fails. *)
Definition world_down : Env :=
  mkEnv (λ args, match args with
                 | "list" :: _ => (true, "state:Stopped")
                 | _ => (false, "")
                 end)
        (λ _, None).

(** Site and pool are down, stop commands fail, start commands succeed. *)
Definition world_restartable : Env :=
  mkEnv (λ args, match args with
                 | "list" :: _ => (true, "state:Stopped")
                 | "start" :: _ => (true, "")
                 | _ => (false, "")
                 end)
        (λ _, Some 503).

(** Site and pool are up. *)
Definition world_up : Env :=
  mkEnv (λ args, match args with
                 | "list" :: _ => (true, "state:Started")
                 | _ => (true, "")
                 end)
        (λ _, Some 200).

(** The sample engine with threshold 1, after the failing check of
    ["shop"] has written [fail_count] 1 into its status object. *)
Definition one_failure_counted : IISMonitor :=
  update 0%nat incr_fail_count (new_monitor (sample_config 1)).

(** ** Scenarios *)

(** The sample engine after [start()]. *)
Definition started (max_failures : Z) : IISMonitor :=
  (start "2026-01-01 12:00:00" (new_monitor (sample_config max_failures))).1.1.

(** Two sites, threshold 3. *)
Definition two_sites_config : ConfigManager.t :=
  ConfigManager.mk
    [("shop", WebsiteConfig.mk (JStr "http://localhost:8080") true 10 200);
     ("old", WebsiteConfig.mk (JStr "http://localhost:8081") true 10 200)]
    [] 60 3 true.

(** Both sites have failed one check. *)
Definition after_one_failure : IISMonitor :=
  (_check_cycle world_down "12:00:00" (new_monitor two_sites_config)).1.

(** Then the website map is replaced by one that only holds ["shop"]. *)
Definition after_reload : IISMonitor :=
  (save_web_config_json ascii_blank ascii_int_of_str
     (Some (JDict [("shop", JDict [])])) after_one_failure).1.1.

(** Then the engine is started. *)
Definition after_reload_and_start : IISMonitor :=
  (start "2026-01-01 12:01:00" after_reload).1.1.

(** The map a bulk update leaves: under a name of the document that is
    not blank, what the entry converts to; nothing under any other name. *)
Definition rebuilt {V} (str_blank : string → bool) (convert : JSON → option V)
    (items : Dict JSON) (name : string) : option V :=
  match dict_get items name with
  | Some value => if str_blank name then None else convert value
  | None => None
  end.

(** A document with a good entry, an entry [int()] rejects, and an entry
    out of range. *)
Definition mixed_pool_update : Dict JSON :=
  [("Good", JDict [("restart_delay", JInt 7)]);
   ("Bad", JDict [("restart_delay", JStr "soon")]);
   ("Neg", JDict [("restart_delay", JInt (-1))])].

(** ** The states the engine can be in *)

(** [save_global]; the two numbers are the slider values after [int()]. *)
Definition save_global (interval fail : Z) (restart : bool) (m : IISMonitor)
    : IISMonitor * string * list Event :=
  let c := config_manager m in
  let c := ConfigManager.mk (ConfigManager.websites c) (ConfigManager.app_pools c)
             interval fail restart in
  (set_config_manager c m, "✅ 全局配置已保存", [EvSaveConfig]).

(** The states reached from a new engine when calls of the interface and
    check cycles follow one another, each running to its end. *)
Inductive reachable : IISMonitor → Prop :=
| reach_new c :
    keys_unique c → reachable (new_monitor c)
| reach_start now m :
    reachable m → reachable (start now m).1.1
| reach_stop m :
    reachable m → reachable (stop m).1.1
| reach_cycle env current_time m :
    reachable m → reachable (_check_cycle env current_time m).1
| reach_save_web str_blank int_of_str data m :
    reachable m → reachable (save_web_config_json str_blank int_of_str data m).1.1
| reach_save_pool str_blank int_of_str data m :
    reachable m → reachable (save_pool_config_json str_blank int_of_str data m).1.1
| reach_save_global interval fail restart m :
    reachable m → reachable (save_global interval fail restart m).1.1.

(** The tables are well formed, the configuration has distinct keys,
    every entry of the tables is complete, and every configured name has
    an entry. *)
Definition steady (m : IISMonitor) : Prop :=
  tables_wf m ∧
  keys_unique (config_manager m) ∧
  (∀ k n s, stat_of k n m = Some s → is_Some (Stat.total_checks s)) ∧
  (∀ k n, n ∈ config_keys k (config_manager m) → is_Some (stat_of k n m)).

(** ** The logger *)

(** [MAX_LOG_LINES] *)
Definition MAX_LOG_LINES : nat := 200.

(** What [LogManager.log] does outside the buffer: the line it tries
    to append to the log file (a failure to write is swallowed) and the
    line it prints. *)
Inductive LogEffect : Type :=
| FileAppend (path : string) (text : string)
| ConsolePrint (text : string).

Module LogManager.
Record t : Type := mk {
  log_file : string;
  memory_logs : list string
}.

(** [LogManager(log_file)] *)
Definition new (log_file : string) : t := mk log_file [].

(** [f"[{timestamp}] [{level}] {message}"] *)
Definition log_entry (timestamp level message : string) : string :=
  "[" ++ timestamp ++ "] [" ++ level ++ "] " ++ message.

(** [log(message, level)]; [timestamp] is the formatted clock reading.
    The entry is appended, and the oldest entry is popped when the buffer
    has grown past [MAX_LOG_LINES]. *)
Definition log (timestamp : string) (message level : string) (lm : t)
    : t * list LogEffect :=
  let entry := log_entry timestamp level message in
  let logs := memory_logs lm ++ [entry] in
  let logs := if (MAX_LOG_LINES <? length logs)%nat then tail logs else logs in
  (mk (log_file lm) logs,
   [FileAppend (log_file lm) (entry ++ String "010"%char ""); ConsolePrint entry]).

(** [l[start:]] for a Python list: a negative [start] counts from the
    end, and both ends are clipped. *)
Definition slice_from {A} (l : list A) (start : Z) : list A :=
  if start <? 0 then drop (Z.to_nat (Z.of_nat (length l) + start)) l
  else drop (Z.to_nat start) l.

(** [get_recent_logs(count)] *)
Definition get_recent_logs (count : Z) (lm : t) : list string :=
  if count <? Z.of_nat (length (memory_logs lm))
  then slice_from (memory_logs lm) (- count)
  else memory_logs lm.
End LogManager.

(** One call of [log] per item, in order. *)
Definition log_all (items : list (string * string * string)) (lm : LogManager.t)
    : LogManager.t :=
  foldl (λ lm '(timestamp, message, level), (LogManager.log timestamp message level lm).1)
        lm items.

(** The last [n] elements of a list, all of it when it is shorter. *)
Definition last_n {A} (n : nat) (l : list A) : list A := drop (length l - n) l.

(** ** What the configuration looks like as JSON *)

(** [asdict(v)] for a website configuration, which is also
    [vars(conf_obj)] after the [setdefault] calls of the page
    initialisation (every field is present, so they change nothing). *)
Definition asdict_website (cfg : WebsiteConfig.t) : JSON :=
  JDict [("url", WebsiteConfig.url cfg);
         ("enabled", JBool (WebsiteConfig.enabled cfg));
         ("check_timeout", JInt (WebsiteConfig.check_timeout cfg));
         ("expected_status", JInt (WebsiteConfig.expected_status cfg))].

Definition asdict_app_pool (cfg : AppPoolConfig.t) : JSON :=
  JDict [("enabled", JBool (AppPoolConfig.enabled cfg));
         ("auto_restart", JBool (AppPoolConfig.auto_restart cfg));
         ("restart_delay", JInt (AppPoolConfig.restart_delay cfg))].

(** [web_final] and [pool_final] of [initialize_all_on_load] (and of
    [initialize_page]): the objects whose JSON text fills the two
    configuration boxes. *)
Definition web_final (c : ConfigManager.t) : Dict JSON :=
  map (λ e, (e.1, asdict_website e.2)) (ConfigManager.websites c).

Definition pool_final (c : ConfigManager.t) : Dict JSON :=
  map (λ e, (e.1, asdict_app_pool e.2)) (ConfigManager.app_pools c).

(** ** More vocabulary *)

(** The event reports a successful restart, of any target. *)
Definition is_success_report (e : Event) : bool :=
  match e with
  | EvLog _ (MsgRestartSucceeded _ _) => true
  | _ => false
  end.

(** The number of successful restarts a trace reports. *)
Definition successes (ev : list Event) : Z :=
  Z.of_nat (length (List.filter is_success_report ev)).

(** The event is a stop or a start command, for any target. *)
Definition is_restart_cmd (e : Event) : bool :=
  match e with
  | EvAppcmd (verb :: _) => String.eqb verb "stop" || String.eqb verb "start"
  | _ => false
  end.

(** The event is no stop command, no start command and no report of
    a successful restart. *)
Definition no_remediation (e : Event) : Prop :=
  is_restart_cmd e = false ∧ is_success_report e = false.

(** The number of enabled targets of the configuration whose probe fails
    in this world. *)
Definition failed_probes (env : Env) (c : ConfigManager.t) : Z :=
  Z.of_nat (length (List.filter
              (λ e, WebsiteConfig.enabled e.2 && probe_failed env Website e.1 c)
              (ConfigManager.websites c)))
  + Z.of_nat (length (List.filter
              (λ e, AppPoolConfig.enabled e.2 && probe_failed env AppPool e.1 c)
              (ConfigManager.app_pools c))).

(** The status block [s'] is [s] with counters that have not gone down:
    nothing but [total_failures] and [total_restarts] differs, and the
    restarts added are at most the failures added. *)
Definition same_run (s s' : MonitorStatus.t) : Prop :=
  MonitorStatus.status s' = MonitorStatus.status s ∧
  MonitorStatus.start_time s' = MonitorStatus.start_time s ∧
  MonitorStatus.last_check_time s' = MonitorStatus.last_check_time s ∧
  MonitorStatus.total_checks s' = MonitorStatus.total_checks s ∧
  MonitorStatus.uptime_seconds s' = MonitorStatus.uptime_seconds s ∧
  0 ≤ MonitorStatus.total_restarts s' - MonitorStatus.total_restarts s
    ≤ MonitorStatus.total_failures s' - MonitorStatus.total_failures s.

(** The status block and the [running] flag agree; the block is never
    in the ["error"] state, and it has a start time exactly while the
    engine runs. *)
Definition lifecycle_ok (m : IISMonitor) : Prop :=
  MonitorStatus.status (status m) = (if running m then "running" else "stopped") ∧
  (is_Some (MonitorStatus.start_time (status m)) ↔ running m = true).

(** [m'] is [m] after checks: same configuration, same [running] flag,
    a status block of the same run, and as many restarts added as the
    trace reports. *)
Definition accounted (m m' : IISMonitor) (ev : list Event) : Prop :=
  config_manager m' = config_manager m ∧
  running m' = running m ∧
  same_run (status m) (status m') ∧
  MonitorStatus.total_restarts (status m')
  = MonitorStatus.total_restarts (status m) + successes ev.

(** The check of the target [name] of kind [k], as the cycle runs it on
    [m]: the body of the loop of its kind on the configuration entry of the
    name. *)
Definition check_of (env : Env) (current_time : string) (k : TypeName) (name : string)
    (m : IISMonitor) (r : IISMonitor * list Event) : Prop :=
  match k with
  | Website =>
      ∃ cfg, dict_get (ConfigManager.websites (config_manager m)) name = Some cfg ∧
             check_website env current_time name cfg m = r
  | AppPool =>
      ∃ cfg, dict_get (ConfigManager.app_pools (config_manager m)) name = Some cfg ∧
             check_app_pool env current_time name cfg m = r
  end.

(** The status word a check writes for a probe result. *)
Definition status_word (k : TypeName) (failed : bool) : string :=
  match k, failed with
  | Website, false => "ok"
  | Website, true => "error"
  | AppPool, false => "running"
  | AppPool, true => "stopped"
  end.

(** The entries of a document that a bulk update applies, each with
    what it converts to, in the order of the document. *)
Definition applied_entries {V} (str_blank : string → bool) (convert : JSON → option V)
    (items : Dict JSON) : Dict V :=
  omap (λ e, if str_blank e.1 then None else (λ cfg, (e.1, cfg)) <$> convert e.2) items.

(** [isinstance(data, dict)] *)
Definition is_object (data : JSON) : bool :=
  match data with JDict _ => true | _ => false end.

(** The buffer line of one call of [log]. *)
Definition entry_of (item : string * string * string) : string :=
  let '(timestamp, message, level) := item in LogManager.log_entry timestamp level message.

(** What an entry of the status table of kind [k] can show: the seeded
    state, a passed check with no failure counted, or a failed check. *)
Definition entry_consistent (k : TypeName) (s : Stat.t) : Prop :=
  0 ≤ Stat.fail_count s ∧
  (Stat.status s = "unknown" ∧ Stat.fail_count s = 0 ∨
   Stat.status s = status_word k false ∧ Stat.fail_count s = 0 ∨
   Stat.status s = status_word k true).

(** ** More scenarios *)

(** The sample installation with [global_auto_restart] off and
    threshold 1. *)
Definition sample_config_off : ConfigManager.t :=
  ConfigManager.mk
    [("shop", WebsiteConfig.mk (JStr "http://localhost:8080") true 10 200)]
    [("ShopPool", AppPoolConfig.mk true false 10)]
    60 1 false.

(** The running sample engine in the middle of a bulk update of the
    pools that adds ["NewPool"]: the new map is in place and
    [_init_status] has not run yet, so the new pool has no entry. *)
Definition mid_pool_update : IISMonitor :=
  set_config_manager
    (ConfigManager.set_app_pools
       [("ShopPool", AppPoolConfig.mk true false 10);
        ("NewPool", AppPoolConfig.mk true true 5)]
       (sample_config 3))
    (started 3).

(** The same for a bulk update of the sites that adds ["blog"]. *)
Definition mid_site_update : IISMonitor :=
  set_config_manager
    (ConfigManager.set_websites
       [("shop", WebsiteConfig.mk (JStr "http://localhost:8080") true 10 200);
        ("blog", WebsiteConfig.mk (JStr "http://localhost:8081") true 10 200)]
       (sample_config 3))
    (started 3).

(** The pool is stopped, and its name has the text [Started] in it. *)
Definition world_misleading : Env :=
  mkEnv (λ args, match args with
                 | "list" :: _ => (true, "APPPOOL StartedPool (state:Stopped)")
                 | _ => (false, "")
                 end)
        (λ _, None).

(** Three calls of [log]. *)
Definition three_lines : list (string * string * string) :=
  [("2026-01-01 12:00:00", "monitor started", "INFO");
   ("2026-01-01 12:00:30", "site shop failed", "WARNING");
   ("2026-01-01 12:00:35", "site shop restarted", "INFO")].

(** * Lemmas *)

(** ** Dictionaries *)

Lemma dict_get_split {V} (d : Dict V) k v :
  dict_get d k = Some v →
  ∃ pre post, d = pre ++ (k, v) :: post ∧ k ∉ dict_keys pre.
Proof.
  induction d as [|[k' v'] d IH]; simpl; [done|].
  destruct (String.eqb_spec k' k) as [->|Hne].
  - intros [= ->]. exists [], d. split; [done|]. simpl. apply not_elem_of_nil.
  - intros Hget. destruct (IH Hget) as (pre & post & -> & Hpre).
    exists ((k', v') :: pre), post. split; [done|].
    simpl. rewrite not_elem_of_cons. split; [congruence | done].
Qed.

Lemma dict_get_None {V} (d : Dict V) k :
  dict_get d k = None ↔ k ∉ dict_keys d.
Proof.
  induction d as [|[k' v'] d IH]; simpl.
  - split; [intros _; apply not_elem_of_nil | done].
  - rewrite not_elem_of_cons. destruct (String.eqb_spec k' k) as [->|Hne].
    + split; [done | intros [? _]; done].
    + rewrite IH. split; [intros ?; split; [congruence|done] | intros [_ ?]; done].
Qed.

Lemma dict_keys_app {V} (d1 d2 : Dict V) :
  dict_keys (d1 ++ d2) = dict_keys d1 ++ dict_keys d2.
Proof. unfold dict_keys. apply map_app. Qed.

(** ** Record plumbing *)

Lemma modifies_refl l m : modifies l m m.
Proof. by unfold modifies. Qed.

Lemma modifies_trans l m1 m2 m3 :
  modifies l m1 m2 → modifies l m2 m3 → modifies l m1 m3.
Proof.
  intros (?&?&?&?&?&?&H12) (?&?&?&?&?&?&H23).
  repeat split; try congruence.
  intros l0 Hl0. rewrite H23, H12; done.
Qed.

Lemma modifies_update l f m : modifies l m (update l f m).
Proof.
  unfold modifies, update; simpl. repeat split.
  - apply length_alter.
  - intros l0 Hl0. by apply list_lookup_alter_ne.
Qed.

Lemma modifies_set_status l s m :
  MonitorStatus.total_checks s = MonitorStatus.total_checks (status m) →
  modifies l m (set_status s m).
Proof. by unfold modifies. Qed.

Lemma modifies_tables_wf l m m' : tables_wf m → modifies l m m' → tables_wf m'.
Proof.
  intros Hwf (_&_&Hw&Hp&_&Hlen&_) k name l0.
  assert (Hmap : ∀ k0, status_map k0 m' = status_map k0 m) by (intros []; done).
  rewrite Hmap, Hlen. intros Hl0. destruct (Hwf _ _ _ Hl0) as [? Hinj].
  split; [done|]. intros k' name'. rewrite Hmap. apply Hinj.
Qed.

Lemma modifies_status_map l m m' k :
  modifies l m m' → status_map k m' = status_map k m.
Proof. intros (_&_&Hw&Hp&_). by destruct k. Qed.

Lemma heap_update_eq l f m s :
  heap m !! l = Some s → heap (update l f m) !! l = Some (f s).
Proof. intros H. unfold update; simpl. by rewrite list_lookup_alter_eq, H. Qed.

Lemma deref_lookup m l s : heap m !! l = Some s → deref m l = s.
Proof. intros H. unfold deref. by apply list_lookup_total_correct. Qed.

Lemma status_map_set k0 k t m :
  status_map k0 (set_status_map k t m) = if decide (k0 = k) then t else status_map k0 m.
Proof. by destruct k0, k. Qed.

Lemma heap_set_status_map k t m : heap (set_status_map k t m) = heap m.
Proof. by destruct k. Qed.

Lemma noun_inj k1 k2 : noun k1 = noun k2 → k1 = k2.
Proof. by destruct k1, k2. Qed.

(** ** Creating an entry on the fly *)

Lemma entry_or_new_spec init k name m l m1 :
  tables_wf m →
  entry_or_new init k name m = (l, m1) →
  tables_wf m1 ∧
  status_map k m1 !! name = Some l ∧
  config_manager m1 = config_manager m ∧
  status m1 = status m ∧
  (∀ k0 n0, (k0, n0) ≠ (k, name) → stat_of k0 n0 m1 = stat_of k0 n0 m) ∧
  (∀ l0, status_map k m !! name = Some l0 → l = l0 ∧ m1 = m) ∧
  (status_map k m !! name = None → heap m1 !! l = Some init).
Proof.
  intros Hwf. unfold entry_or_new.
  destruct (status_map k m !! name) as [l0|] eqn:Hlk.
  - intros [= <- <-]. split_and!; try done. by intros l1 [= ->].
  - intros [= <- <-].
    assert (Hnew : ∀ k0 n0 l0,
      status_map k0 (set_status_map k (<[name:=length (heap m)]> (status_map k m))
                       (set_heap (heap m ++ [init]) m)) !! n0 = Some l0 →
      (k0 = k ∧ n0 = name ∧ l0 = length (heap m)) ∨
      ((k0, n0) ≠ (k, name) ∧ status_map k0 m !! n0 = Some l0)).
    { intros k0 n0 l0. rewrite status_map_set. case_decide as Hk; subst.
      - destruct (decide (n0 = name)) as [->|Hn].
        + rewrite lookup_insert_eq. intros [= <-]. by left.
        + rewrite lookup_insert_ne by done. intros ?. right. split; [congruence|done].
      - intros ?. right. split; [congruence|done]. }
    split_and!.
    + intros k0 n0 l0 Hl0. rewrite heap_set_status_map; simpl. rewrite length_app; simpl.
      destruct (Hnew _ _ _ Hl0) as [(->&->&->)|[Hne Hold]].
      * split; [lia|]. intros k' n' Hl'.
        destruct (Hnew _ _ _ Hl') as [(->&->&_)|[_ Hold']]; [done|].
        apply Hwf in Hold' as [? _]. lia.
      * destruct (Hwf _ _ _ Hold) as [Hlt Hinj]. split; [lia|]. intros k' n' Hl'.
        destruct (Hnew _ _ _ Hl') as [(->&->&->)|[_ Hold']]; [lia|]. by apply Hinj.
    + rewrite status_map_set. case_decide; [|done]. by rewrite lookup_insert_eq.
    + by destruct k.
    + by destruct k.
    + intros k0 n0 Hne. unfold stat_of. rewrite status_map_set, heap_set_status_map.
      cbn [heap set_heap].
      change (status_map k0 (set_heap _ m)) with (status_map k0 m).
      assert (Hsame : (if decide (k0 = k) then <[name:=length (heap m)]> (status_map k m)
                       else status_map k0 m) !! n0 = status_map k0 m !! n0).
      { case_decide; [subst|done]. rewrite lookup_insert_ne; [done|congruence]. }
      rewrite Hsame. destruct (status_map k0 m !! n0) as [l0|] eqn:Hl0; [simpl|done].
      apply Hwf in Hl0 as [? _]. by rewrite lookup_app_l.
    + intros l0 [=].
    + intros _. rewrite heap_set_status_map. cbn [heap set_heap].
      by rewrite lookup_app_r, Nat.sub_diag.
Qed.

Lemma lookup_or_create_spec k name m l m1 :
  tables_wf m →
  lookup_or_create k name m = (l, m1) →
  tables_wf m1 ∧
  status_map k m1 !! name = Some l ∧
  config_manager m1 = config_manager m ∧
  status m1 = status m ∧
  (∀ k0 n0, (k0, n0) ≠ (k, name) → stat_of k0 n0 m1 = stat_of k0 n0 m) ∧
  (∀ l0, status_map k m !! name = Some l0 → l = l0 ∧ m1 = m).
Proof.
  intros Hwf Hlk. destruct (entry_or_new_spec _ _ _ _ _ _ Hwf Hlk) as (?&?&?&?&?&?&_).
  done.
Qed.

(** ** Remediation, case by case *)

Lemma handle_failure_quiet env name k l m :
  threshold_reached (config_manager m) (Stat.fail_count (deref m l)) = false →
  _handle_failure env name k l m
  = (set_status (MonitorStatus.incr_total_failures (status m)) m, []).
Proof.
  unfold threshold_reached, _handle_failure; cbn [config_manager].
  change (config_manager (set_status _ m)) with (config_manager m).
  change (deref (set_status _ m) l) with (deref m l).
  destruct (_ <=? _); [|done].
  by destruct (ConfigManager.global_auto_restart _).
Qed.

Lemma handle_failure_restart env name k l m :
  threshold_reached (config_manager m) (Stat.fail_count (deref m l)) = true →
  configured k name (config_manager m) = true →
  _handle_failure env name k l m
  = (if start_succeeds env k name then
       update l (Stat.set_fail_count 0)
         (set_status (MonitorStatus.incr_total_restarts
                        (MonitorStatus.incr_total_failures (status m))) m)
     else set_status (MonitorStatus.incr_total_failures (status m)) m,
     EvLog "WARNING" (MsgPreparingRestart k name (Stat.fail_count (deref m l)))
     :: restart_events k name
     ++ [if start_succeeds env k name then EvLog "INFO" (MsgRestartSucceeded k name)
         else EvLog "ERROR" (MsgRestartFailed k name)]).
Proof.
  unfold threshold_reached, _handle_failure, configured, start_succeeds;
    cbn [config_manager].
  change (config_manager (set_status _ m)) with (config_manager m).
  change (deref (set_status _ m) l) with (deref m l).
  intros [Hle Hg]%andb_prop Hmem. rewrite Hle, Hg.
  destruct k; rewrite Hmem; unfold restart_website, restart_app_pool;
    change (5 <? 0) with false; cbn [noun];
    destruct (appcmd env _) as [[] out]; reflexivity.
Qed.

Lemma handle_failure_unconfigured env name k l m :
  threshold_reached (config_manager m) (Stat.fail_count (deref m l)) = true →
  configured k name (config_manager m) = false →
  _handle_failure env name k l m
  = (set_status (MonitorStatus.incr_total_failures (status m)) m,
     [EvLog "WARNING" (MsgPreparingRestart k name (Stat.fail_count (deref m l)))]).
Proof.
  unfold threshold_reached, _handle_failure, configured; cbn [config_manager].
  change (config_manager (set_status _ m)) with (config_manager m).
  change (deref (set_status _ m) l) with (deref m l).
  intros [Hle Hg]%andb_prop Hmem. rewrite Hle, Hg.
  destruct k; rewrite Hmem; reflexivity.
Qed.

(** ** What one check may touch *)

Lemma only_about_nil k name : only_about k name [].
Proof. intros e k0 n0 Hin. by apply elem_of_nil in Hin. Qed.

Lemma only_about_app k name ev1 ev2 :
  only_about k name ev1 → only_about k name ev2 → only_about k name (ev1 ++ ev2).
Proof.
  intros H1 H2 e k0 n0 [Hin|Hin]%elem_of_app; [by apply H1 | by apply H2].
Qed.

Lemma only_about_cons k name e ev :
  (∀ k0 n0, concerns k0 n0 e → k0 = k ∧ n0 = name) →
  only_about k name ev → only_about k name (e :: ev).
Proof.
  intros He Hev e' k0 n0 [->|Hin]%elem_of_cons; [apply He | by apply Hev].
Qed.

Ltac concerns_tac :=
  let k0 := fresh "k" in
  let n0 := fresh "n" in
  let H := fresh "H" in
  intros k0 n0 H; simpl in H;
  first
    [ by destruct H
    | let Hk := fresh "Hk" in
      let Hn := fresh "Hn" in
      destruct H as [Hk Hn]; split;
      [ first [ by apply noun_inj | done ] | done ] ].

Ltac about_tac :=
  repeat first
    [ apply only_about_nil
    | apply only_about_app
    | apply only_about_cons; [ concerns_tac | ] ].

Lemma only_about_restart k name env :
  only_about k name
    (restart_events k name
     ++ [if start_succeeds env k name then EvLog "INFO" (MsgRestartSucceeded k name)
         else EvLog "ERROR" (MsgRestartFailed k name)]).
Proof. destruct (start_succeeds env k name); about_tac. Qed.

Ltac modifies_tac :=
  repeat first
    [ assumption
    | apply modifies_refl
    | apply modifies_update
    | by apply modifies_set_status
    | eapply modifies_trans;
      [ | first [ eassumption | apply modifies_update | by apply modifies_set_status ] ] ].

Lemma handle_failure_modifies env name k l m m' ev :
  _handle_failure env name k l m = (m', ev) →
  modifies l m m' ∧ only_about k name ev.
Proof.
  destruct (threshold_reached (config_manager m) (Stat.fail_count (deref m l))) eqn:Hthr.
  - destruct (configured k name (config_manager m)) eqn:Hcfg.
    + rewrite handle_failure_restart by done. intros [= <- <-]. split.
      * destruct (start_succeeds env k name).
        -- modifies_tac.
        -- modifies_tac.
      * apply only_about_cons; [|apply only_about_restart].
        intros k0 n0 [-> ->]; done.
    + rewrite handle_failure_unconfigured by done. intros [= <- <-]. split.
      * modifies_tac.
      * about_tac.
  - rewrite handle_failure_quiet by done. intros [= <- <-]. split.
    + modifies_tac.
    + apply only_about_nil.
Qed.

Lemma lookup_or_create_existing k name m l :
  status_map k m !! name = Some l → lookup_or_create k name m = (l, m).
Proof. intros H. unfold lookup_or_create, entry_or_new. by rewrite H. Qed.

Lemma website_except_step env current_time name m m' ev :
  website_except env current_time name m = (m', ev) →
  target_step Website name m m' ev.
Proof.
  unfold website_except. destruct (lookup_or_create Website name m) as [l m1] eqn:Hlk.
  intros [Hmod Hev]%handle_failure_modifies.
  exists l, m1. split_and!; [done| |done].
  modifies_tac.
Qed.

Lemma target_step_after_update k name m l m1 m2 m' ev :
  tables_wf m →
  lookup_or_create k name m = (l, m1) →
  modifies l m1 m2 →
  target_step k name m2 m' ev →
  target_step k name m m' ev.
Proof.
  intros Hwf Hlk Hmod (l' & m2' & Hlk' & Hmod' & Hev).
  destruct (lookup_or_create_spec _ _ _ _ _ Hwf Hlk) as (_ & Hl & _).
  rewrite (lookup_or_create_existing _ _ _ l) in Hlk'
    by (by rewrite (modifies_status_map _ _ _ _ Hmod)).
  injection Hlk' as <- <-. exists l, m1. split_and!; [done| |done].
  by eapply modifies_trans.
Qed.

Lemma check_website_step env current_time name cfg m m' ev :
  tables_wf m →
  check_website env current_time name cfg m = (m', ev) →
  target_step Website name m m' ev.
Proof.
  intros Hwf. unfold check_website.
  destruct (http_status env name) as [code|]; [|apply website_except_step].
  destruct (lookup_or_create Website name m) as [l m1] eqn:Hlk.
  destruct (Stat.total_checks _) as [n|].
  - destruct (code =? _).
    + intros [= <- <-]. exists l, m1. split_and!; [done| |apply only_about_nil].
      modifies_tac.
    + intros [Hmod Hev]%handle_failure_modifies.
      exists l, m1. split_and!; [done| |done].
      modifies_tac.
  - intros Hexc%website_except_step.
    eapply target_step_after_update; [done..|apply modifies_update|done].
Qed.

Lemma check_app_pool_step env current_time name cfg m m' ev :
  tables_wf m →
  check_app_pool env current_time name cfg m = (m', ev) →
  target_step AppPool name m m' ev.
Proof.
  intros Hwf. unfold check_app_pool, get_app_pool_state.
  destruct (appcmd env _) as [success output].
  set (state := if success && contains "Started" output then _ else _).
  destruct (lookup_or_create AppPool name m) as [l m1] eqn:Hlk.
  destruct (Stat.total_checks _) as [n|].
  - destruct (String.eqb state "Started").
    + intros [= <- <-]. exists l, m1. split_and!; [done| |about_tac].
      modifies_tac.
    + destruct (_handle_failure _ _ _ _ _) as [m2 ev2] eqn:Hhf.
      apply handle_failure_modifies in Hhf as [Hmod Hev].
      intros [= <- <-]. exists l, m1. split_and!; [done| |].
      * modifies_tac.
      * apply only_about_cons; [concerns_tac | done].
  - intros [= <- <-]. exists l, m1. split_and!; [done|apply modifies_update|].
    about_tac.
Qed.

Lemma target_step_frame k name m m' ev :
  tables_wf m →
  target_step k name m m' ev →
  tables_wf m' ∧
  config_manager m' = config_manager m ∧
  MonitorStatus.total_checks (status m') = MonitorStatus.total_checks (status m) ∧
  (∀ k0 n0, (k0, n0) ≠ (k, name) → stat_of k0 n0 m' = stat_of k0 n0 m) ∧
  only_about k name ev.
Proof.
  intros Hwf (l & m1 & Hlk & Hmod & Hev).
  destruct (lookup_or_create_spec _ _ _ _ _ Hwf Hlk) as (Hwf1 & Hl & Hcfg & Hst & Hframe & _).
  split_and!; [by eapply modifies_tables_wf| | | |done].
  - destruct Hmod as [-> _]. done.
  - destruct Hmod as (_&_&_&_&->&_). by rewrite Hst.
  - intros k0 n0 Hne. rewrite <- (Hframe k0 n0 Hne). unfold stat_of.
    rewrite (modifies_status_map _ _ _ _ Hmod).
    destruct (status_map k0 m1 !! n0) as [l0|] eqn:Hl0; [simpl|done].
    destruct Hmod as (_&_&_&_&_&_&Hheap). apply Hheap. intros ->.
    destruct (Hwf1 _ _ _ Hl) as [_ Hinj]. destruct (Hinj _ _ Hl0). congruence.
Qed.

(** ** Loops over a configuration map *)

Lemma website_body_framed env current_time :
  framed_body Website (website_body env current_time).
Proof.
  intros n cfg m m' ev Hwf. unfold website_body. destruct (WebsiteConfig.enabled cfg).
  - intros Hchk. eapply target_step_frame; [done|]. by eapply check_website_step.
  - intros [= <- <-]. split_and!; try done. apply only_about_nil.
Qed.

Lemma app_pool_body_framed env current_time :
  framed_body AppPool (app_pool_body env current_time).
Proof.
  intros n cfg m m' ev Hwf. unfold app_pool_body. destruct (AppPoolConfig.enabled cfg).
  - intros Hchk. eapply target_step_frame; [done|]. by eapply check_app_pool_step.
  - intros [= <- <-]. split_and!; try done. apply only_about_nil.
Qed.

Lemma for_each_app {V} (body : string → V → IISMonitor → IISMonitor * list Event)
    (d1 d2 : Dict V) m :
  for_each body (d1 ++ d2) m
  = let '(m1, e1) := for_each body d1 m in
    let '(m2, e2) := for_each body d2 m1 in
    (m2, e1 ++ e2).
Proof.
  revert m. induction d1 as [|[n cfg] d1 IH]; intros m; simpl.
  - by destruct (for_each body d2 m).
  - destruct (body n cfg m) as [ma ea]. rewrite IH.
    destruct (for_each body d1 ma) as [mb eb].
    destruct (for_each body d2 mb) as [mc ec]. by rewrite app_assoc.
Qed.

Lemma for_each_frame {V} k (body : string → V → IISMonitor → IISMonitor * list Event)
    (d : Dict V) m m' ev :
  framed_body k body →
  tables_wf m →
  for_each body d m = (m', ev) →
  tables_wf m' ∧
  config_manager m' = config_manager m ∧
  MonitorStatus.total_checks (status m') = MonitorStatus.total_checks (status m) ∧
  (∀ k0 n0, (k0 = k → n0 ∉ dict_keys d) → stat_of k0 n0 m' = stat_of k0 n0 m) ∧
  (∀ k0 n0, (k0 = k → n0 ∉ dict_keys d) → silent k0 n0 ev).
Proof.
  intros Hbody. revert m m' ev.
  induction d as [|[n cfg] d IH]; intros m m' ev Hwf; simpl.
  - intros [= <- <-]. split_and!; try done.
    intros k0 n0 _ e Hin. by apply elem_of_nil in Hin.
  - destruct (body n cfg m) as [ma ea] eqn:Hb.
    destruct (for_each body d ma) as [mb eb] eqn:Hrest.
    intros [= <- <-].
    destruct (Hbody _ _ _ _ _ Hwf Hb) as (Hwfa & Hca & Hta & Hfa & Hea).
    destruct (IH _ _ _ Hwfa Hrest) as (Hwfb & Hcb & Htb & Hfb & Heb).
    split_and!; [done|congruence|congruence| | ].
    + intros k0 n0 Hout. rewrite Hfb, Hfa; [done| |].
      * intros [= -> ->]. apply (Hout eq_refl). left.
      * intros ->. specialize (Hout eq_refl). by apply not_elem_of_cons in Hout as [_ ?].
    + intros k0 n0 Hout e [Hin|Hin]%elem_of_app Hc.
      * destruct (Hea _ _ _ Hin Hc) as [-> ->]. apply (Hout eq_refl). left.
      * apply (Heb k0 n0) in Hin; [done|].
        intros ->. specialize (Hout eq_refl). by apply not_elem_of_cons in Hout as [_ ?].
Qed.

(** ** Reading traces *)

Lemma silent_harmless k name ev : silent k name ev → harmless k name ev.
Proof.
  intros Hs. unfold harmless, no_restart, restart_succeeded.
  split_and!; intros Hin; apply (Hs _ Hin); by simpl.
Qed.

Lemma silent_app k name ev1 ev2 :
  silent k name ev1 → silent k name ev2 → silent k name (ev1 ++ ev2).
Proof. intros H1 H2 e [?|?]%elem_of_app; [by apply H1 | by apply H2]. Qed.

Lemma harmless_nil k name : harmless k name [].
Proof.
  unfold harmless, no_restart, restart_succeeded. split_and!; apply not_elem_of_nil.
Qed.

Lemma harmless_list_cmd k name n :
  harmless k name [EvAppcmd ["list"; "apppool"; n]].
Proof.
  unfold harmless, no_restart, restart_succeeded, stop_cmd, start_cmd.
  split_and!; intros [?|?%elem_of_nil]%elem_of_cons; done.
Qed.

Lemma restart_attempted_pad k name ev1 ev ev2 :
  restart_attempted k name ev → restart_attempted k name (ev1 ++ ev ++ ev2).
Proof.
  unfold restart_attempted. intros H.
  apply sublist_inserts_l, sublist_inserts_r. done.
Qed.

Lemma harmless_pad k name ev1 ev ev2 :
  harmless k name ev1 → harmless k name ev2 → harmless k name ev →
  harmless k name (ev1 ++ ev ++ ev2).
Proof.
  unfold harmless, no_restart, restart_succeeded.
  intros ((?&?)&?) ((?&?)&?) ((?&?)&?).
  rewrite !elem_of_app. tauto.
Qed.

Lemma restart_succeeded_pad k name ev1 ev ev2 :
  restart_succeeded k name ev → restart_succeeded k name (ev1 ++ ev ++ ev2).
Proof. unfold restart_succeeded. rewrite !elem_of_app. tauto. Qed.

Lemma not_restart_succeeded_pad k name ev1 ev ev2 :
  harmless k name ev1 → harmless k name ev2 →
  ¬ restart_succeeded k name ev → ¬ restart_succeeded k name (ev1 ++ ev ++ ev2).
Proof.
  unfold harmless, restart_succeeded. intros (_&?) (_&?) ?.
  rewrite !elem_of_app. tauto.
Qed.

Lemma restart_attempted_not_harmless k name ev :
  restart_attempted k name ev → ¬ no_restart k name ev.
Proof.
  unfold restart_attempted, no_restart. intros Hsub [Hstop _]. apply Hstop.
  eapply elem_of_sublist; [|exact Hsub]. left.
Qed.

(** ** The outcome of one check of a complete entry *)

Lemma check_outcome_pad env k name c fc s' ev1 ev ev2 :
  harmless k name ev1 → harmless k name ev2 →
  check_outcome env k name c fc s' ev →
  check_outcome env k name c fc s' (ev1 ++ ev ++ ev2).
Proof.
  intros H1 H2. unfold check_outcome.
  destruct (probe_failed env k name c).
  - destruct (threshold_reached c (fc + 1)).
    + intros [Hatt Hres]. split; [by apply restart_attempted_pad|].
      destruct (start_succeeds env k name).
      * destruct Hres. split; [done | by apply restart_succeeded_pad].
      * destruct Hres. split; [done | by apply not_restart_succeeded_pad].
    + intros [? ?]. split; [by apply harmless_pad | done].
  - intros [? ?]. split; [by apply harmless_pad | done].
Qed.

(** [_handle_failure] on a target of the configuration, whose status
    object holds [s]. *)
Lemma handle_failure_outcome env name k l m m' ev s :
  heap m !! l = Some s →
  configured k name (config_manager m) = true →
  _handle_failure env name k l m = (m', ev) →
  ∃ s', heap m' !! l = Some s' ∧
    Stat.total_checks s' = Stat.total_checks s ∧
    Stat.last_check s' = Stat.last_check s ∧
    if threshold_reached (config_manager m) (Stat.fail_count s) then
      restart_attempted k name ev ∧
      if start_succeeds env k name
      then Stat.fail_count s' = 0 ∧ restart_succeeded k name ev
      else Stat.fail_count s' = Stat.fail_count s ∧ ¬ restart_succeeded k name ev
    else harmless k name ev ∧ s' = s.
Proof.
  intros Hs Hcfg. pose proof (deref_lookup _ _ _ Hs) as Hd.
  destruct (threshold_reached _ _) eqn:Hthr.
  - rewrite handle_failure_restart by (by rewrite ?Hd). intros [= <- <-].
    unfold restart_attempted, restart_succeeded, restart_events.
    destruct (start_succeeds env k name).
    + exists (Stat.set_fail_count 0 s). split_and!; try done.
      * by apply heap_update_eq.
      * apply sublist_cons, sublist_skip, sublist_cons, sublist_skip, sublist_nil_l.
      * rewrite !elem_of_cons. tauto.
    + exists s. split_and!; try done.
      * apply sublist_cons, sublist_skip, sublist_cons, sublist_skip, sublist_nil_l.
      * unfold stop_cmd, start_cmd. rewrite !elem_of_cons, elem_of_nil.
        intros [?|[?|[?|[?|[?|[]]]]]]; done.
  - rewrite handle_failure_quiet by (by rewrite ?Hd). intros [= <- <-].
    exists s. split_and!; try done. apply harmless_nil.
Qed.

Ltac heap_tac :=
  repeat first [ eassumption | apply heap_update_eq ].

Lemma check_website_outcome env current_time name cfg m m' ev l s n :
  status_map Website m !! name = Some l →
  heap m !! l = Some s →
  Stat.total_checks s = Some n →
  dict_get (ConfigManager.websites (config_manager m)) name = Some cfg →
  check_website env current_time name cfg m = (m', ev) →
  ∃ s', heap m' !! l = Some s' ∧
    Stat.last_check s' = Some current_time ∧
    Stat.total_checks s' = (if http_status env name is Some _ then Some (n + 1) else Some n) ∧
    check_outcome env Website name (config_manager m) (Stat.fail_count s) s' ev.
Proof.
  intros Hl Hs Hn Hcfg.
  assert (Hconf : configured Website name (config_manager m) = true).
  { unfold configured, dict_mem. by rewrite Hcfg. }
  unfold check_website, website_except, check_outcome, probe_failed.
  rewrite Hcfg.
  destruct (http_status env name) as [code|].
  - rewrite (lookup_or_create_existing _ _ _ _ Hl).
    erewrite (deref_lookup _ l) by heap_tac. cbn [Stat.total_checks Stat.set_last_check].
    rewrite Hn. destruct (code =? WebsiteConfig.expected_status cfg); cbn [negb].
    + intros [= <- <-]. eexists. split; [heap_tac|].
      split_and!; try done. apply harmless_nil.
    + intros Hhf. eapply handle_failure_outcome in Hhf; [|heap_tac|done].
      destruct Hhf as (s' & Hs' & Htc & Hlc & Hout). exists s'.
      split_and!; [done|by rewrite Hlc|by rewrite Htc|].
      cbn in Hout.
      change (config_manager (update _ _ _)) with (config_manager m) in Hout.
      destruct (threshold_reached _ _); [done|]. destruct Hout as [? ->]. done.
  - rewrite (lookup_or_create_existing _ _ _ _ Hl).
    intros Hhf. eapply handle_failure_outcome in Hhf; [|heap_tac|done].
    destruct Hhf as (s' & Hs' & Htc & Hlc & Hout). exists s'.
    split_and!; [done|by rewrite Hlc|by rewrite Htc|].
    cbn in Hout.
    change (config_manager (update _ _ _)) with (config_manager m) in Hout.
    destruct (threshold_reached _ _); [done|]. destruct Hout as [? ->]. done.
Qed.

Lemma check_app_pool_outcome env current_time name cfg m m' ev l s n :
  status_map AppPool m !! name = Some l →
  heap m !! l = Some s →
  Stat.total_checks s = Some n →
  dict_get (ConfigManager.app_pools (config_manager m)) name = Some cfg →
  check_app_pool env current_time name cfg m = (m', ev) →
  ∃ s', heap m' !! l = Some s' ∧
    Stat.last_check s' = Some current_time ∧
    Stat.total_checks s' = Some (n + 1) ∧
    check_outcome env AppPool name (config_manager m) (Stat.fail_count s) s' ev.
Proof.
  intros Hl Hs Hn Hcfg.
  assert (Hconf : configured AppPool name (config_manager m) = true).
  { unfold configured, dict_mem. by rewrite Hcfg. }
  unfold check_app_pool, check_outcome, probe_failed.
  destruct (get_app_pool_state env name) as [state ev0] eqn:Hstate.
  assert (Hev0 : ev0 = [EvAppcmd ["list"; "apppool"; name]]).
  { unfold get_app_pool_state in Hstate. destruct (appcmd env _). by injection Hstate. }
  subst ev0. cbn [fst].
  rewrite (lookup_or_create_existing _ _ _ _ Hl).
  erewrite (deref_lookup _ l) by heap_tac. cbn [Stat.total_checks Stat.set_last_check].
  rewrite Hn. destruct (String.eqb state "Started"); cbn [negb].
  - intros [= <- <-]. eexists. split; [heap_tac|].
    split_and!; try done. apply harmless_list_cmd.
  - destruct (_handle_failure _ _ _ _ _) as [m2 ev2] eqn:Hhf. intros [= <- <-].
    eapply handle_failure_outcome in Hhf; [|heap_tac|done].
    destruct Hhf as (s' & Hs' & Htc & Hlc & Hout). exists s'.
    split_and!; [done|by rewrite Hlc|by rewrite Htc|].
    cbn in Hout.
    change (config_manager (update _ _ _)) with (config_manager m) in Hout.
    pose proof (harmless_list_cmd AppPool name name) as Hlist.
    pose proof (harmless_nil AppPool name) as Hnil.
    rewrite <- (app_nil_r ev2).
    change (?e :: ev2 ++ []) with ([e] ++ ev2 ++ []).
    destruct (threshold_reached _ _).
    + destruct Hout as [Hatt Hres]. split; [by apply restart_attempted_pad|].
      destruct (start_succeeds env AppPool name); destruct Hres; split; try done.
      * by apply restart_succeeded_pad.
      * by apply not_restart_succeeded_pad.
    + destruct Hout as [? ->]. split; [by apply harmless_pad | done].
Qed.

(** ** One target inside a cycle *)

Lemma stat_of_Some k name m s :
  stat_of k name m = Some s ↔ ∃ l, status_map k m !! name = Some l ∧ heap m !! l = Some s.
Proof.
  unfold stat_of. destruct (status_map k m !! name) as [l|]; simpl.
  - split; [by exists l | by intros (? & [= <-] & ?)].
  - split; [done | by intros (? & ? & ?)].
Qed.

Lemma target_step_stat k name m m' ev l :
  status_map k m !! name = Some l →
  target_step k name m m' ev →
  stat_of k name m' = heap m' !! l.
Proof.
  intros Hl (l' & m1 & Hlk & Hmod & _).
  rewrite (lookup_or_create_existing _ _ _ _ Hl) in Hlk. injection Hlk as <- <-.
  unfold stat_of. by rewrite (modifies_status_map _ _ _ _ Hmod), Hl.
Qed.

Lemma check_website_at env current_time name cfg m m' ev s :
  tables_wf m →
  stat_of Website name m = Some s →
  is_Some (Stat.total_checks s) →
  dict_get (ConfigManager.websites (config_manager m)) name = Some cfg →
  check_website env current_time name cfg m = (m', ev) →
  ∃ s', stat_of Website name m' = Some s' ∧
    checked env current_time Website name (config_manager m) s s' ev.
Proof.
  intros Hwf (l & Hl & Hs)%stat_of_Some [n Hn] Hcfg Hchk.
  destruct (check_website_outcome _ _ _ _ _ _ _ _ _ _ Hl Hs Hn Hcfg Hchk)
    as (s' & Hs' & Hlc & Htc & Hout).
  exists s'. split.
  - erewrite target_step_stat; [done..|]. by eapply check_website_step.
  - unfold checked, probe_raised. rewrite Hn, Htc.
    split_and!; [done| |  |done]; by destruct (http_status env name).
Qed.

Lemma check_app_pool_at env current_time name cfg m m' ev s :
  tables_wf m →
  stat_of AppPool name m = Some s →
  is_Some (Stat.total_checks s) →
  dict_get (ConfigManager.app_pools (config_manager m)) name = Some cfg →
  check_app_pool env current_time name cfg m = (m', ev) →
  ∃ s', stat_of AppPool name m' = Some s' ∧
    checked env current_time AppPool name (config_manager m) s s' ev.
Proof.
  intros Hwf (l & Hl & Hs)%stat_of_Some [n Hn] Hcfg Hchk.
  destruct (check_app_pool_outcome _ _ _ _ _ _ _ _ _ _ Hl Hs Hn Hcfg Hchk)
    as (s' & Hs' & Hlc & Htc & Hout).
  exists s'. split.
  - erewrite target_step_stat; [done..|]. by eapply check_app_pool_step.
  - unfold checked, probe_raised. rewrite Hn, Htc. by split_and!.
Qed.

Lemma checked_pad env current_time k name c s s' ev1 ev ev2 :
  harmless k name ev1 → harmless k name ev2 →
  checked env current_time k name c s s' ev →
  checked env current_time k name c s s' (ev1 ++ ev ++ ev2).
Proof.
  intros H1 H2 (?&?&?&?). split_and!; try done. by apply check_outcome_pad.
Qed.

Lemma for_each_focus {V} k (body : string → V → IISMonitor → IISMonitor * list Event)
    (d : Dict V) m m' ev name cfg :
  framed_body k body →
  tables_wf m →
  NoDup (dict_keys d) →
  dict_get d name = Some cfg →
  for_each body d m = (m', ev) →
  ∃ ma mb ea eb ec,
    body name cfg ma = (mb, eb) ∧
    tables_wf ma ∧ config_manager ma = config_manager m ∧
    stat_of k name ma = stat_of k name m ∧
    tables_wf m' ∧ config_manager m' = config_manager m ∧
    stat_of k name m' = stat_of k name mb ∧
    ev = ea ++ eb ++ ec ∧ silent k name ea ∧ silent k name ec.
Proof.
  intros Hbody Hwf Hnodup Hget.
  destruct (dict_get_split _ _ _ Hget) as (pre & post & -> & Hpre).
  rewrite dict_keys_app in Hnodup. apply NoDup_app in Hnodup as (_ & Hdisj & Hpost).
  simpl in Hpost. apply NoDup_cons in Hpost as [Hpost _].
  rewrite for_each_app.
  destruct (for_each body pre m) as [ma ea] eqn:Hfa. simpl.
  destruct (body name cfg ma) as [mb eb] eqn:Hfb.
  destruct (for_each body post mb) as [mc ec] eqn:Hfc.
  intros [= <- <-].
  destruct (for_each_frame _ _ _ _ _ _ Hbody Hwf Hfa) as (Hwfa & Hca & _ & Hsa & Hea).
  destruct (Hbody _ _ _ _ _ Hwfa Hfb) as (Hwfb & Hcb & _ & _ & _).
  destruct (for_each_frame _ _ _ _ _ _ Hbody Hwfb Hfc) as (Hwfc & Hcc & _ & Hsc & Hec).
  exists ma, mb, ea, eb, ec.
  split_and!; try done; try congruence.
  - by apply Hsa.
  - by apply Hsc.
  - by apply Hea.
  - by apply Hec.
Qed.

(** The cycle keeps the tables well formed and the configuration as it
    is, and never writes the engine-wide [total_checks]. *)
Lemma check_cycle_frame env current_time m m' ev :
  tables_wf m →
  _check_cycle env current_time m = (m', ev) →
  tables_wf m' ∧
  config_manager m' = config_manager m ∧
  MonitorStatus.total_checks (status m') = MonitorStatus.total_checks (status m).
Proof.
  intros Hwf. unfold _check_cycle.
  destruct (for_each _ _ m) as [m1 e1] eqn:H1.
  destruct (for_each _ _ m1) as [m2 e2] eqn:H2.
  intros [= <- <-].
  destruct (for_each_frame _ _ _ _ _ _ (website_body_framed env current_time) Hwf H1)
    as (Hwf1 & Hc1 & Ht1 & _).
  destruct (for_each_frame _ _ _ _ _ _ (app_pool_body_framed env current_time) Hwf1 H2)
    as (Hwf2 & Hc2 & Ht2 & _).
  split_and!; [done|congruence|congruence].
Qed.

(** One cycle, seen from one monitored and seeded target. *)
Lemma check_cycle_target env current_time m m' ev k name s :
  tables_wf m →
  keys_unique (config_manager m) →
  monitored k name (config_manager m) = true →
  stat_of k name m = Some s →
  is_Some (Stat.total_checks s) →
  _check_cycle env current_time m = (m', ev) →
  ∃ s', stat_of k name m' = Some s' ∧
    checked env current_time k name (config_manager m) s s' ev.
Proof.
  intros Hwf [Hkw Hkp] Hmon Hs Hn. unfold _check_cycle.
  destruct (for_each _ _ m) as [m1 e1] eqn:H1.
  destruct (for_each _ _ m1) as [m2 e2] eqn:H2.
  intros [= <- <-].
  pose proof (website_body_framed env current_time) as Hbw.
  pose proof (app_pool_body_framed env current_time) as Hbp.
  destruct k; unfold monitored in Hmon.
  - destruct (dict_get _ name) as [cfg|] eqn:Hget; [|done].
    destruct (for_each_focus _ _ _ _ _ _ _ _ Hbw Hwf Hkw Hget H1)
      as (ma & mb & ea & eb & ec & Hb & Hwfa & Hca & Hsa & Hwf1 & Hc1 & Hs1 & -> & Hea & Hec).
    unfold website_body in Hb. rewrite Hmon in Hb.
    rewrite <- Hca in Hget. rewrite <- Hsa in Hs.
    destruct (check_website_at _ _ _ _ _ _ _ _ Hwfa Hs Hn Hget Hb) as (s' & Hs' & Hchk).
    destruct (for_each_frame _ _ _ _ _ _ Hbp Hwf1 H2) as (_ & _ & _ & Hs2 & He2).
    exists s'. split.
    + rewrite Hs2 by done. congruence.
    + rewrite <- !app_assoc. rewrite Hca in Hchk. apply checked_pad; [| |done].
      * by apply silent_harmless.
      * apply silent_harmless, silent_app; [done|]. by apply He2.
  - destruct (dict_get _ name) as [cfg|] eqn:Hget; [|done].
    destruct (for_each_frame _ _ _ _ _ _ Hbw Hwf H1) as (Hwf1 & Hc1 & _ & Hs1 & He1).
    rewrite <- Hc1 in Hget, Hkp.
    destruct (for_each_focus _ _ _ _ _ _ _ _ Hbp Hwf1 Hkp Hget H2)
      as (ma & mb & ea & eb & ec & Hb & Hwfa & Hca & Hsa & Hwf2 & Hc2 & Hs2 & -> & Hea & Hec).
    unfold app_pool_body in Hb. rewrite Hmon in Hb.
    rewrite <- Hca in Hget. rewrite <- (Hs1 AppPool name), <- Hsa in Hs by done.
    destruct (check_app_pool_at _ _ _ _ _ _ _ _ Hwfa Hs Hn Hget Hb) as (s' & Hs' & Hchk).
    exists s'. split; [congruence|].
    rewrite app_assoc. rewrite Hca, Hc1 in Hchk. apply checked_pad; [| |done].
    + apply silent_harmless, silent_app; [|done]. by apply He1.
    + by apply silent_harmless.
Qed.

(** ** Seeding the tables *)

Lemma stat_of_None k name m :
  tables_wf m → stat_of k name m = None → status_map k m !! name = None.
Proof.
  intros Hwf. unfold stat_of. destruct (status_map k m !! name) as [l|] eqn:Hl; [simpl|done].
  destruct (Hwf _ _ _ Hl) as [Hlt _]. apply lookup_lt_is_Some in Hlt as [s Hs].
  by rewrite Hs.
Qed.

Lemma seed_spec k name m :
  tables_wf m →
  tables_wf (seed k m name) ∧
  config_manager (seed k m name) = config_manager m ∧
  status (seed k m name) = status m ∧
  (∀ k0 n0 s, stat_of k0 n0 m = Some s → stat_of k0 n0 (seed k m name) = Some s) ∧
  (∀ k0 n0, stat_of k0 n0 m = None →
     stat_of k0 n0 (seed k m name) =
       if decide (k0 = k ∧ n0 = name) then Some Stat.seeded else None).
Proof.
  intros Hwf. unfold seed.
  destruct (entry_or_new Stat.seeded k name m) as [l m1] eqn:Hnew. cbn [snd].
  destruct (entry_or_new_spec _ _ _ _ _ _ Hwf Hnew)
    as (Hwf1 & Hl & Hcfg & Hst & Hframe & Hold & Hfresh).
  split_and!; try done.
  - intros k0 n0 s Hs. destruct (decide ((k0, n0) = (k, name))) as [[= -> ->]|Hne].
    + apply stat_of_Some in Hs as (l0 & Hl0 & Hs).
      destruct (Hold _ Hl0) as [_ ->]. apply stat_of_Some. eauto.
    + by rewrite Hframe.
  - intros k0 n0 Hnone. case_decide as Hd.
    + destruct Hd as [-> ->]. apply stat_of_Some. exists l. split; [done|].
      apply Hfresh. by apply stat_of_None.
    + rewrite Hframe; [done|]. intros [= -> ->]. by apply Hd.
Qed.

Lemma foldl_seed_spec k names m :
  tables_wf m →
  tables_wf (foldl (seed k) m names) ∧
  config_manager (foldl (seed k) m names) = config_manager m ∧
  status (foldl (seed k) m names) = status m ∧
  (∀ k0 n0 s, stat_of k0 n0 m = Some s → stat_of k0 n0 (foldl (seed k) m names) = Some s) ∧
  (∀ k0 n0, stat_of k0 n0 m = None →
     stat_of k0 n0 (foldl (seed k) m names) =
       if decide (k0 = k ∧ n0 ∈ names) then Some Stat.seeded else None).
Proof.
  revert m. induction names as [|n names IH]; intros m Hwf; simpl.
  - split_and!; try done. intros k0 n0 Hnone. rewrite Hnone.
    case_decide as Hd; [|done]. destruct Hd as [_ Hin]. by apply elem_of_nil in Hin.
  - destruct (seed_spec k n m Hwf) as (Hwf1 & Hc1 & Hs1 & Hkeep1 & Hnew1).
    destruct (IH _ Hwf1) as (Hwf2 & Hc2 & Hs2 & Hkeep2 & Hnew2).
    split_and!; [done|congruence|congruence| | ].
    + intros k0 n0 s Hs. by apply Hkeep2, Hkeep1.
    + intros k0 n0 Hnone. specialize (Hnew1 _ _ Hnone).
      destruct (decide (k0 = k ∧ n0 = n)) as [[-> ->]|Hd].
      * rewrite (Hkeep2 _ _ _ Hnew1). rewrite decide_True; [done|]. split; [done|left].
      * rewrite (Hnew2 _ _ Hnew1). apply decide_ext. rewrite elem_of_cons. tauto.
Qed.

Lemma init_status_spec m :
  tables_wf m →
  tables_wf (_init_status m) ∧
  config_manager (_init_status m) = config_manager m ∧
  status (_init_status m) = status m ∧
  reseeded m (_init_status m).
Proof.
  intros Hwf. unfold _init_status.
  set (ws := dict_keys (ConfigManager.websites (config_manager m))).
  destruct (foldl_seed_spec Website ws m Hwf) as (Hwf1 & Hc1 & Hs1 & Hkeep1 & Hnew1).
  set (m1 := foldl (seed Website) m ws) in *.
  set (ps := dict_keys (ConfigManager.app_pools (config_manager m1))).
  destruct (foldl_seed_spec AppPool ps m1 Hwf1) as (Hwf2 & Hc2 & Hs2 & Hkeep2 & Hnew2).
  set (m2 := foldl (seed AppPool) m1 ps) in *.
  split_and!; [done|congruence|congruence|]. split.
  - intros k n s Hs. by apply Hkeep2, Hkeep1.
  - intros k n Hnone. specialize (Hnew1 _ _ Hnone). rewrite Hc2.
    destruct k; unfold config_keys; fold ps; rewrite ?Hc1 in *; fold ws.
    + destruct (decide (n ∈ ws)) as [Hin|Hout].
      * rewrite decide_True in Hnew1 by done. by apply Hkeep2.
      * rewrite decide_False in Hnew1 by tauto. rewrite (Hnew2 _ _ Hnew1).
        by rewrite decide_False by (intros [? _]; done).
    + rewrite decide_False in Hnew1 by (intros [? _]; done).
      rewrite (Hnew2 _ _ Hnew1). apply decide_ext. tauto.
Qed.

Lemma tables_wf_empty c r s h : tables_wf (mkIISMonitor c r s ∅ ∅ h).
Proof. intros [] name l; simpl; by rewrite lookup_empty. Qed.

(** ** Rebuilding a configuration map *)

Lemma dict_get_set {V} (d : Dict V) k v k' :
  dict_get (dict_set d k v) k' = if decide (k = k') then Some v else dict_get d k'.
Proof.
  induction d as [|[k0 v0] d IH]; simpl.
  - destruct (String.eqb_spec k k'); case_decide; congruence.
  - destruct (String.eqb_spec k0 k) as [->|Hne]; simpl.
    + destruct (String.eqb_spec k k'); case_decide; congruence.
    + destruct (String.eqb_spec k0 k'); [|done]. case_decide; congruence.
Qed.

Lemma dict_keys_set {V} (d : Dict V) k v :
  dict_keys (dict_set d k v) = if dict_mem d k then dict_keys d else dict_keys d ++ [k].
Proof.
  unfold dict_mem. induction d as [|[k0 v0] d IH]; simpl; [done|].
  destruct (String.eqb_spec k0 k) as [->|Hne]; simpl; [done|].
  rewrite IH. by destruct (dict_get d k).
Qed.

Lemma dict_set_NoDup {V} (d : Dict V) k v :
  NoDup (dict_keys d) → NoDup (dict_keys (dict_set d k v)).
Proof.
  intros Hd. rewrite dict_keys_set. unfold dict_mem.
  destruct (dict_get d k) eqn:Hget; [done|].
  apply NoDup_app. split_and!; [done| |apply NoDup_singleton].
  intros x Hx ->%list_elem_of_singleton. by apply dict_get_None in Hget.
Qed.

Section IngestFacts.
Variable str_blank : string → bool.
Context {V : Type}.
Variable convert : JSON → option V.

Lemma ingest_fold (items : Dict JSON) (acc : Ingest V) :
  let r := foldl (ingest_entry str_blank convert) acc items in
  errors r = errors acc ++ map fst (List.filter (rejected str_blank convert) items) ∧
  error_count r = error_count acc + Z.of_nat (length (List.filter (rejected str_blank convert) items)) ∧
  success_count r = success_count acc + Z.of_nat (length (List.filter (applied str_blank convert) items)) ∧
  (∀ name, name ∉ dict_keys items →
     dict_get (accepted r) name = dict_get (accepted acc) name) ∧
  (NoDup (dict_keys items) → ∀ name value, (name, value) ∈ items →
     dict_get (accepted r) name
     = entry_effect str_blank convert (name, value) (dict_get (accepted acc) name)) ∧
  (NoDup (dict_keys (accepted acc)) → NoDup (dict_keys (accepted r))).
Proof.
  revert acc. induction items as [|[n v] items IH]; intros acc; cbn zeta.
  - simpl. rewrite app_nil_r. split_and!; try done; try lia.
    intros _ name value Hin. by apply elem_of_nil in Hin.
  - cbn [foldl]. destruct (IH (ingest_entry str_blank convert acc (n, v)))
      as (Herr & Hec & Hsc & Hout & Hin & Hnd).
    set (acc1 := ingest_entry str_blank convert acc (n, v)) in *.
    assert (Hacc1 :
      errors acc1 = errors acc ++ (if rejected str_blank convert (n, v) then [n] else []) ∧
      error_count acc1 = error_count acc + (if rejected str_blank convert (n, v) then 1 else 0) ∧
      success_count acc1 = success_count acc + (if applied str_blank convert (n, v) then 1 else 0) ∧
      (∀ name, dict_get (accepted acc1) name
               = if decide (n = name) then entry_effect str_blank convert (n, v) (dict_get (accepted acc) name)
                 else dict_get (accepted acc) name) ∧
      (NoDup (dict_keys (accepted acc)) → NoDup (dict_keys (accepted acc1)))).
    { unfold acc1, ingest_entry, rejected, applied, entry_effect; cbn [fst snd].
      destruct (str_blank n); cbn [negb andb].
      - rewrite app_nil_r. split_and!; try done; try lia.
        intros name. by case_decide.
      - destruct (convert v) as [cfg|]; cbn [accepted errors error_count success_count].
        + rewrite app_nil_r. split_and!; try done; try lia.
          * intros name. by rewrite dict_get_set.
          * apply dict_set_NoDup.
        + split_and!; try done; try lia. intros name. by case_decide. }
    destruct Hacc1 as (Herr1 & Hec1 & Hsc1 & Hget1 & Hnd1).
    split_and!.
    + rewrite Herr, Herr1. simpl. rewrite <- app_assoc.
      by destruct (rejected str_blank convert (n, v)).
    + rewrite Hec, Hec1. simpl. destruct (rejected str_blank convert (n, v)); simpl; lia.
    + rewrite Hsc, Hsc1. simpl. destruct (applied str_blank convert (n, v)); simpl; lia.
    + intros name Hname. simpl in Hname. apply not_elem_of_cons in Hname as [Hne Hname].
      rewrite Hout, Hget1 by done. by rewrite decide_False.
    + intros Hnodup name value Hmem. simpl in Hnodup.
      apply NoDup_cons in Hnodup as [Hn Hnodup].
      apply elem_of_cons in Hmem as [[= -> ->]|Hmem].
      * rewrite Hout, Hget1 by done. by rewrite decide_True.
      * rewrite (Hin Hnodup _ _ Hmem), Hget1. rewrite decide_False; [done|].
        intros ->. apply Hn. apply list_elem_of_fmap. by exists (name, value).
    + intros Hacc. by apply Hnd, Hnd1.
Qed.

(** The loop started on the emptied map. *)
Lemma ingest_spec (items : Dict JSON) :
  let r := ingest str_blank convert items in
  errors r = map fst (List.filter (rejected str_blank convert) items) ∧
  error_count r = Z.of_nat (length (List.filter (rejected str_blank convert) items)) ∧
  success_count r = Z.of_nat (length (List.filter (applied str_blank convert) items)) ∧
  (∀ name, name ∉ dict_keys items → dict_get (accepted r) name = None) ∧
  (NoDup (dict_keys items) → ∀ name value, (name, value) ∈ items →
     dict_get (accepted r) name = entry_effect str_blank convert (name, value) None) ∧
  NoDup (dict_keys (accepted r)).
Proof.
  destruct (ingest_fold items (mkIngest [] 0 0 [])) as (?&?&?&?&?&Hnd).
  cbn zeta. split_and!; try done. apply Hnd. apply NoDup_nil_2.
Qed.
End IngestFacts.

(** ** Following one target over cycles *)

Lemma tracked_cycle env current_time k name m s m' ev :
  tracked k name m s →
  _check_cycle env current_time m = (m', ev) →
  config_manager m' = config_manager m ∧
  ∃ s', tracked k name m' s' ∧
    checked env current_time k name (config_manager m) s s' ev.
Proof.
  intros (Hwf & Hkeys & Hmon & Hs & Hn) Hcyc.
  destruct (check_cycle_frame _ _ _ _ _ Hwf Hcyc) as (Hwf' & Hcfg & _).
  destruct (check_cycle_target _ _ _ _ _ _ _ _ Hwf Hkeys Hmon Hs Hn Hcyc)
    as (s' & Hs' & Hchk).
  split; [done|]. exists s'. split; [|done].
  destruct Hchk as (_ & _ & Hn' & _).
  unfold tracked. rewrite Hcfg. by split_and!.
Qed.

Lemma threshold_reached_spec c fc :
  threshold_reached c fc = true ↔
  ConfigManager.max_failures c ≤ fc ∧ ConfigManager.global_auto_restart c = true.
Proof. unfold threshold_reached. rewrite andb_true_iff, Z.leb_le. done. Qed.

(** A run of cycles in which the probe of the target fails every time and
    the start command never succeeds, begun at the threshold. *)
Lemma run_past_threshold k name ws :
  ∀ m s m1 evs,
    tracked k name m s →
    threshold_reached (config_manager m) (Stat.fail_count s + 1) = true →
    Forall (λ w : Env * string,
              probe_failed w.1 k name (config_manager m) = true ∧
              start_succeeds w.1 k name = false) ws →
    run_cycles ws m = (m1, evs) →
    Forall (restart_attempted k name) evs ∧
    config_manager m1 = config_manager m ∧
    ∃ s1, tracked k name m1 s1 ∧ Stat.fail_count s ≤ Stat.fail_count s1.
Proof.
  induction ws as [|[env t] ws IH]; intros m s m1 evs Htr Hthr Hws; simpl.
  - intros [= <- <-]. split_and!; [constructor|done|]. exists s. split; [done|lia].
  - apply Forall_cons in Hws as [[Hfail Hstart] Hws]. simpl in Hfail, Hstart.
    destruct (_check_cycle env t m) as [ma ea] eqn:Hcyc.
    destruct (run_cycles ws ma) as [mb eb] eqn:Hrun.
    intros [= <- <-].
    destruct (tracked_cycle _ _ _ _ _ _ _ _ Htr Hcyc) as (Hcfg & sa & Htra & Hchk).
    destruct Hchk as (_ & _ & _ & Hout). unfold check_outcome in Hout.
    rewrite Hfail, Hthr, Hstart in Hout. destruct Hout as (Hatt & Hfc & _).
    rewrite <- Hcfg in Hws, Hthr.
    assert (Hthr' : threshold_reached (config_manager ma) (Stat.fail_count sa + 1) = true).
    { apply threshold_reached_spec. apply threshold_reached_spec in Hthr as [? ?].
      split; [lia|done]. }
    destruct (IH _ _ _ _ Htra Hthr' Hws Hrun) as (Hall & Hcfg' & s1 & Htr1 & Hle).
    split_and!; [by constructor|congruence|]. exists s1. split; [done|lia].
Qed.

(** A run of cycles in which the probe of the target fails every time and
    no trace reports a successful restart of it. *)
Lemma run_failing_count k name ws :
  ∀ m s m1 evs,
    tracked k name m s →
    Forall (λ w : Env * string, probe_failed w.1 k name (config_manager m) = true) ws →
    run_cycles ws m = (m1, evs) →
    Forall (λ ev, ¬ restart_succeeded k name ev) evs →
    ∃ s1, tracked k name m1 s1 ∧
      Stat.fail_count s1 = Stat.fail_count s + Z.of_nat (length ws).
Proof.
  induction ws as [|[env t] ws IH]; intros m s m1 evs Htr Hws; simpl.
  - intros [= <- <-] _. exists s. split; [done|lia].
  - apply Forall_cons in Hws as [Hfail Hws]. simpl in Hfail.
    destruct (_check_cycle env t m) as [ma ea] eqn:Hcyc.
    destruct (run_cycles ws ma) as [mb eb] eqn:Hrun.
    intros [= <- <-] [Hquiet Hrest]%Forall_cons.
    destruct (tracked_cycle _ _ _ _ _ _ _ _ Htr Hcyc) as (Hcfg & sa & Htra & Hchk).
    destruct Hchk as (_ & _ & _ & Hout). unfold check_outcome in Hout.
    rewrite Hfail in Hout.
    assert (Hfc : Stat.fail_count sa = Stat.fail_count s + 1).
    { destruct (threshold_reached _ _); [|by destruct Hout].
      destruct Hout as [_ Hres]. destruct (start_succeeds env k name); by destruct Hres. }
    rewrite <- Hcfg in Hws.
    destruct (IH _ _ _ _ Htra Hws Hrun Hrest) as (s1 & Htr1 & Hfc1).
    exists s1. split; [done|]. lia.
Qed.

(** ** New engines *)

Lemma elem_of_config_keys k name c :
  monitored k name c = true → name ∈ config_keys k c.
Proof.
  unfold monitored, config_keys. destruct k.
  - destruct (dict_get _ name) eqn:Hget; [|done]. intros _.
    destruct (decide (name ∈ dict_keys (ConfigManager.websites c))) as [|Hn]; [done|].
    apply dict_get_None in Hn. congruence.
  - destruct (dict_get _ name) eqn:Hget; [|done]. intros _.
    destruct (decide (name ∈ dict_keys (ConfigManager.app_pools c))) as [|Hn]; [done|].
    apply dict_get_None in Hn. congruence.
Qed.

(** In a new engine every monitored target is tracked, with a seeded
    entry. *)
Lemma new_monitor_tracked k name c :
  keys_unique c → monitored k name c = true →
  tracked k name (new_monitor c) Stat.seeded.
Proof.
  intros Hkeys Hmon. unfold new_monitor.
  set (m := mkIISMonitor c false MonitorStatus.default ∅ ∅ []).
  destruct (init_status_spec m (tables_wf_empty _ _ _ _)) as (Hwf & Hcfg & _ & _ & Hnew).
  unfold tracked. rewrite Hcfg. split_and!; try done.
  rewrite (Hnew k name).
  - rewrite Hcfg. rewrite decide_True; [done|]. by apply elem_of_config_keys.
  - unfold stat_of. destruct k; simpl; by rewrite lookup_empty.
Qed.

Lemma sample_keys_unique n : keys_unique (sample_config n).
Proof. split; apply NoDup_singleton. Qed.

Lemma tables_wf_new_monitor c : tables_wf (new_monitor c).
Proof. unfold new_monitor. apply init_status_spec, tables_wf_empty. Qed.

Lemma seed_config k m name : config_manager (seed k m name) = config_manager m.
Proof.
  unfold seed, entry_or_new. destruct (status_map k m !! name); [done|]. by destruct k.
Qed.

Lemma foldl_seed_config k names m :
  config_manager (foldl (seed k) m names) = config_manager m.
Proof.
  revert m. induction names as [|n names IH]; intros m; simpl; [done|].
  by rewrite IH, seed_config.
Qed.

Lemma init_status_config m : config_manager (_init_status m) = config_manager m.
Proof. unfold _init_status. by rewrite !foldl_seed_config. Qed.

Lemma dict_get_elem_of {V} (d : Dict V) k v :
  NoDup (dict_keys d) → (k, v) ∈ d → dict_get d k = Some v.
Proof.
  induction d as [|[k0 v0] d IH]; simpl.
  - intros _ Hin. by apply elem_of_nil in Hin.
  - intros [Hk0 Hd]%NoDup_cons [[= -> ->]|Hin]%elem_of_cons.
    + by rewrite String.eqb_refl.
    + destruct (String.eqb_spec k0 k) as [->|Hne]; [|by apply IH].
      exfalso. apply Hk0. apply list_elem_of_fmap. by exists (k, v).
Qed.

Lemma dict_get_Some_elem_of {V} (d : Dict V) k v :
  dict_get d k = Some v → (k, v) ∈ d.
Proof.
  intros (pre & post & -> & _)%dict_get_split. apply elem_of_app. right. left.
Qed.

Lemma ingest_rebuilt {V} str_blank (convert : JSON → option V) items name :
  NoDup (dict_keys items) →
  dict_get (accepted (ingest str_blank convert items)) name
  = rebuilt str_blank convert items name.
Proof.
  intros Hnodup.
  destruct (ingest_spec str_blank convert items) as (_ & _ & _ & Hout & Hin & _).
  unfold rebuilt. destruct (dict_get items name) as [value|] eqn:Hget.
  - apply dict_get_Some_elem_of in Hget. rewrite (Hin Hnodup _ _ Hget).
    unfold entry_effect; cbn [fst snd]. destruct (str_blank name); [done|].
    by destruct (convert value).
  - apply Hout. by apply dict_get_None.
Qed.

(** ** The states the engine can be in *)

Lemma reseeded_steady m m' :
  tables_wf m' →
  keys_unique (config_manager m') →
  (∀ k n s, stat_of k n m = Some s → is_Some (Stat.total_checks s)) →
  reseeded m m' →
  steady m'.
Proof.
  intros Hwf Hkeys Hcomplete [Hkeep Hnew]. split_and!; [done..| |].
  - intros k n s' Hs'. destruct (stat_of k n m) as [s|] eqn:Hs.
    + rewrite (Hkeep _ _ _ Hs) in Hs'. injection Hs' as <-. by eapply Hcomplete.
    + rewrite (Hnew _ _ Hs) in Hs'. case_decide; [|done]. by injection Hs' as <-.
  - intros k n Hin. destruct (stat_of k n m) as [s|] eqn:Hs.
    + by rewrite (Hkeep _ _ _ Hs).
    + rewrite (Hnew _ _ Hs). by rewrite decide_True.
Qed.

(** A loop leaves the entry of a name alone when the body does nothing on
    the configurations the map holds under that name. *)
Lemma for_each_untouched {V} k (body : string → V → IISMonitor → IISMonitor * list Event)
    (d : Dict V) m m' ev n0 :
  framed_body k body →
  (∀ cfg m, (n0, cfg) ∈ d → body n0 cfg m = (m, [])) →
  tables_wf m →
  for_each body d m = (m', ev) →
  stat_of k n0 m' = stat_of k n0 m.
Proof.
  intros Hbody. revert m m' ev.
  induction d as [|[n cfg] d IH]; intros m m' ev Hidle Hwf; simpl.
  - by intros [= <- <-].
  - destruct (body n cfg m) as [ma ea] eqn:Hb.
    destruct (for_each body d ma) as [mb eb] eqn:Hrest.
    intros [= <- <-].
    destruct (Hbody _ _ _ _ _ Hwf Hb) as (Hwfa & _ & _ & Hfa & _).
    rewrite (IH ma mb eb); [|intros; apply Hidle; by right|done..].
    destruct (decide (n = n0)) as [->|Hne].
    + rewrite Hidle in Hb by left. by injection Hb as <- <-.
    + apply Hfa. congruence.
Qed.

(** A cycle leaves the entry of a target it does not probe alone. *)
Lemma check_cycle_untouched env current_time m m' ev k name :
  tables_wf m →
  keys_unique (config_manager m) →
  monitored k name (config_manager m) = false →
  _check_cycle env current_time m = (m', ev) →
  stat_of k name m' = stat_of k name m.
Proof.
  intros Hwf [Hkw Hkp] Hmon. unfold _check_cycle.
  destruct (for_each _ _ m) as [m1 e1] eqn:H1.
  destruct (for_each _ _ m1) as [m2 e2] eqn:H2.
  intros [= <- <-].
  pose proof (website_body_framed env current_time) as Hbw.
  pose proof (app_pool_body_framed env current_time) as Hbp.
  destruct (for_each_frame _ _ _ _ _ _ Hbw Hwf H1) as (Hwf1 & Hc1 & _ & Hs1 & _).
  destruct (for_each_frame _ _ _ _ _ _ Hbp Hwf1 H2) as (_ & _ & _ & Hs2 & _).
  destruct k; unfold monitored in Hmon.
  - rewrite Hs2 by done.
    eapply for_each_untouched; [exact Hbw| |done|exact H1].
    intros cfg m0 Hin. rewrite (dict_get_elem_of _ _ _ Hkw Hin) in Hmon.
    unfold website_body. by rewrite Hmon.
  - rewrite <- (Hs1 AppPool name) by done.
    eapply for_each_untouched; [exact Hbp| |done|exact H2].
    intros cfg m0 Hin. rewrite Hc1 in Hin.
    rewrite (dict_get_elem_of _ _ _ Hkp Hin) in Hmon.
    unfold app_pool_body. by rewrite Hmon.
Qed.

Lemma steady_cycle env current_time m :
  steady m → steady (_check_cycle env current_time m).1.
Proof.
  intros (Hwf & Hkeys & Hcomplete & Hcovered).
  destruct (_check_cycle env current_time m) as [m' ev] eqn:Hcyc. cbn [fst].
  destruct (check_cycle_frame _ _ _ _ _ Hwf Hcyc) as (Hwf' & Hcfg & _).
  assert (Hcase : ∀ k n,
    stat_of k n m' = stat_of k n m ∨
    ∃ s s', stat_of k n m = Some s ∧ stat_of k n m' = Some s' ∧
            is_Some (Stat.total_checks s')).
  { intros k n. destruct (monitored k n (config_manager m)) eqn:Hmon.
    - right. destruct (Hcovered k n (elem_of_config_keys _ _ _ Hmon)) as [s Hs].
      destruct (check_cycle_target _ _ _ _ _ _ _ _ Hwf Hkeys Hmon Hs
                  (Hcomplete _ _ _ Hs) Hcyc) as (s' & Hs' & _ & _ & Hn' & _).
      by exists s, s'.
    - left. by eapply check_cycle_untouched. }
  split_and!; [done|by rewrite Hcfg| |].
  - intros k n s' Hs'. destruct (Hcase k n) as [Heq|(s & s1 & _ & Hs1 & Hn)].
    + rewrite Heq in Hs'. by eapply Hcomplete.
    + congruence.
  - intros k n Hin. rewrite Hcfg in Hin.
    destruct (Hcase k n) as [->|(s & s1 & _ & -> & _)]; [by apply Hcovered|done].
Qed.

Lemma steady_init_status m :
  tables_wf m →
  keys_unique (config_manager m) →
  (∀ k n s, stat_of k n m = Some s → is_Some (Stat.total_checks s)) →
  steady (_init_status m).
Proof.
  intros Hwf Hkeys Hcomplete.
  destruct (init_status_spec m Hwf) as (Hwf' & Hcfg & _ & Hre).
  apply (reseeded_steady m); [done|by rewrite Hcfg|done..].
Qed.

Lemma steady_clear_websites m :
  steady m →
  steady (set_config_manager (ConfigManager.set_websites [] (config_manager m)) m).
Proof.
  intros (Hwf & [Hkw Hkp] & Hcomplete & Hcovered). unfold steady. split_and!; try done.
  - split; [apply NoDup_nil_2 | done].
  - intros [] n Hin; [by apply elem_of_nil in Hin | by apply (Hcovered AppPool)].
Qed.

Lemma steady_clear_app_pools m :
  steady m →
  steady (set_config_manager (ConfigManager.set_app_pools [] (config_manager m)) m).
Proof.
  intros (Hwf & [Hkw Hkp] & Hcomplete & Hcovered). unfold steady. split_and!; try done.
  - split; [done | apply NoDup_nil_2].
  - intros [] n Hin; [by apply (Hcovered Website) | by apply elem_of_nil in Hin].
Qed.

(** Every reachable state is steady, and its engine-wide [total_checks]
    is 0. *)
Lemma reachable_steady m :
  reachable m → steady m ∧ MonitorStatus.total_checks (status m) = 0.
Proof.
  induction 1 as [c Hkeys|now m _ [IH Hz]|m _ [IH Hz]|env t m _ [IH Hz]
                 |sb ios data m _ [IH Hz]|sb ios data m _ [IH Hz]
                 |interval fail restart m _ [IH Hz]].
  - unfold new_monitor. set (m := mkIISMonitor _ _ _ _ _ _). split.
    + apply steady_init_status; [apply tables_wf_empty|done|].
      intros k n s. unfold stat_of. destruct k; simpl; by rewrite lookup_empty.
    + by rewrite (proj1 (proj2 (proj2 (init_status_spec m (tables_wf_empty _ _ _ _))))).
  - unfold start. destruct (running m); [done|]. cbn [fst].
    destruct IH as (Hwf & Hkeys & Hcomplete & _).
    set (m1 := set_status _ _). split.
    + by apply (steady_init_status m1).
    + by rewrite (proj1 (proj2 (proj2 (init_status_spec m1 Hwf)))).
  - unfold stop. by destruct (running m).
  - split; [by apply steady_cycle|].
    destruct IH as (Hwf & _).
    destruct (_check_cycle env t m) as [m' ev] eqn:Hcyc.
    destruct (check_cycle_frame _ _ _ _ _ Hwf Hcyc) as (_ & _ & Ht). cbn [fst]. congruence.
  - unfold save_web_config_json. destruct data as [data|]; [|done].
    destruct data as [| | | | | |items]; cbn [fst];
      [by (split; [apply steady_clear_websites|])..|].
    destruct IH as (Hwf & [Hkw Hkp] & Hcomplete & Hcovered).
    set (m1 := set_config_manager _ _). split.
    + apply (steady_init_status m1); [done| |done].
      split; [|done]. apply ingest_spec.
    + by rewrite (proj1 (proj2 (proj2 (init_status_spec m1 Hwf)))).
  - unfold save_pool_config_json. destruct data as [data|]; [|done].
    destruct data as [| | | | | |items]; cbn [fst];
      [by (split; [apply steady_clear_app_pools|])..|].
    destruct IH as (Hwf & [Hkw Hkp] & Hcomplete & Hcovered).
    set (m1 := set_config_manager _ _). split.
    + apply (steady_init_status m1); [done| |done].
      split; [done|]. apply ingest_spec.
    + by rewrite (proj1 (proj2 (proj2 (init_status_spec m1 Hwf)))).
  - destruct IH as (Hwf & Hkeys & Hcomplete & Hcovered). split; [|done].
    by split_and!.
Qed.

(** In a reachable state every configured and enabled target is tracked. *)
Lemma reachable_tracked k name m :
  reachable m → monitored k name (config_manager m) = true →
  ∃ s, tracked k name m s.
Proof.
  intros [(Hwf & Hkeys & Hcomplete & Hcovered) _]%reachable_steady Hmon.
  destruct (Hcovered k name (elem_of_config_keys _ _ _ Hmon)) as [s Hs].
  exists s. unfold tracked. split_and!; try done. by eapply Hcomplete.
Qed.

(** * The claims *)

(** C1.  For a monitored target with a complete entry: in any check
    cycle a restart (a stop of the target and then a start of it) is
    attempted exactly when its probe fails, the failure count the check
    writes reaches [max_failures], and [global_auto_restart] is on; in
    every other cycle the trace holds neither a stop nor a start of it.
    And once the threshold is reached with [global_auto_restart] on, every
    further cycle whose probe fails attempts a restart, as long as no start
    command has succeeded before it. *)
Theorem restart_attempts_follow_threshold k name m s :
  tracked k name m s →
  (∀ env current_time m' ev,
     _check_cycle env current_time m = (m', ev) →
     (restart_attempted k name ev ↔
        probe_failed env k name (config_manager m) = true ∧
        ConfigManager.max_failures (config_manager m) ≤ Stat.fail_count s + 1 ∧
        ConfigManager.global_auto_restart (config_manager m) = true) ∧
     (restart_attempted k name ev ∨ no_restart k name ev)) ∧
  (∀ ws env current_time m1 evs m2 ev,
     ConfigManager.max_failures (config_manager m) ≤ Stat.fail_count s + 1 →
     ConfigManager.global_auto_restart (config_manager m) = true →
     Forall (λ w : Env * string,
               probe_failed w.1 k name (config_manager m) = true ∧
               start_succeeds w.1 k name = false) ws →
     run_cycles ws m = (m1, evs) →
     probe_failed env k name (config_manager m) = true →
     _check_cycle env current_time m1 = (m2, ev) →
     Forall (restart_attempted k name) evs ∧ restart_attempted k name ev).
Proof.
  intros Htr.
  assert (Hone : ∀ m s env current_time m' ev,
    tracked k name m s →
    _check_cycle env current_time m = (m', ev) →
    (restart_attempted k name ev ↔
       probe_failed env k name (config_manager m) = true ∧
       threshold_reached (config_manager m) (Stat.fail_count s + 1) = true) ∧
    (restart_attempted k name ev ∨ no_restart k name ev)).
  { clear. intros m s env t m' ev Htr Hcyc.
    destruct (tracked_cycle _ _ _ _ _ _ _ _ Htr Hcyc) as (_ & s' & _ & Hchk).
    destruct Hchk as (_ & _ & _ & Hout). unfold check_outcome in Hout.
    destruct (probe_failed env k name (config_manager m)).
    - destruct (threshold_reached _ _).
      + destruct Hout as [Hatt _]. split; [done|by left].
      + destruct Hout as [[Hno _] _]. split; [|by right].
        split; [|by intros [_ ?]].
        intros Hatt. by apply restart_attempted_not_harmless in Hatt.
    - destruct Hout as [[Hno _] _]. split; [|by right].
      split; [|by intros [? _]].
      intros Hatt. by apply restart_attempted_not_harmless in Hatt. }
  split.
  - intros env t m' ev Hcyc. destruct (Hone _ _ _ _ _ _ Htr Hcyc) as [Hiff Hor].
    split; [|done]. rewrite Hiff, threshold_reached_spec. tauto.
  - intros ws env t m1 evs m2 ev Hmax Hglob Hws Hrun Hfail Hcyc.
    assert (Hthr : threshold_reached (config_manager m) (Stat.fail_count s + 1) = true)
      by (by apply threshold_reached_spec).
    destruct (run_past_threshold _ _ _ _ _ _ _ Htr Hthr Hws Hrun)
      as (Hall & Hcfg & s1 & Htr1 & Hle).
    split; [done|]. destruct (Hone _ _ _ _ _ _ Htr1 Hcyc) as [Hiff _].
    apply Hiff. rewrite Hcfg. split; [done|].
    apply threshold_reached_spec. split; [lia|done].
Qed.

(** On the new sample engine with threshold 1, the first cycle in which
    the site is down restarts it. *)
Lemma restart_attempts_follow_threshold_witness :
  tracked Website "shop" (new_monitor (sample_config 1)) Stat.seeded ∧
  (restart_attempted Website "shop"
     (_check_cycle world_down "12:00:30" (new_monitor (sample_config 1))).2 ↔
   probe_failed world_down Website "shop" (sample_config 1) = true ∧
   1 ≤ 0 + 1 ∧ true = true).
Proof.
  assert (Htr : tracked Website "shop" (new_monitor (sample_config 1)) Stat.seeded).
  { apply new_monitor_tracked; [apply sample_keys_unique | reflexivity]. }
  split; [exact Htr|].
  exact (proj1 (proj1 (restart_attempts_follow_threshold Website "shop"
                         (new_monitor (sample_config 1)) Stat.seeded Htr)
                  world_down "12:00:30" _ _ (surjective_pairing _))).
Defined.

(** C2.  For a monitored target with a complete entry: after a cycle in
    which its probe succeeds its [fail_count] is 0; and after [k] cycles in
    a row in which its probe fails and no restart of it succeeds, its
    [fail_count] is the count it started from plus [k] (so exactly [k]
    when it started from 0). *)
Theorem fail_count_counts_consecutive_failures k name m s :
  tracked k name m s →
  (∀ env current_time m' ev,
     probe_failed env k name (config_manager m) = false →
     _check_cycle env current_time m = (m', ev) →
     ∃ s', stat_of k name m' = Some s' ∧ Stat.fail_count s' = 0) ∧
  (∀ ws m' evs,
     Forall (λ w : Env * string, probe_failed w.1 k name (config_manager m) = true) ws →
     run_cycles ws m = (m', evs) →
     Forall (λ ev, ¬ restart_succeeded k name ev) evs →
     ∃ s', stat_of k name m' = Some s' ∧
       Stat.fail_count s' = Stat.fail_count s + Z.of_nat (length ws)).
Proof.
  intros Htr. split.
  - intros env t m' ev Hok Hcyc.
    destruct (tracked_cycle _ _ _ _ _ _ _ _ Htr Hcyc) as (_ & s' & Htr' & Hchk).
    destruct Hchk as (_ & _ & _ & Hout). unfold check_outcome in Hout.
    rewrite Hok in Hout. exists s'. split; [|by destruct Hout].
    by destruct Htr' as (_ & _ & _ & ? & _).
  - intros ws m' evs Hws Hrun Hquiet.
    destruct (run_failing_count _ _ _ _ _ _ _ Htr Hws Hrun Hquiet) as (s1 & Htr1 & Hfc).
    exists s1. split; [|done]. by destruct Htr1 as (_ & _ & _ & ? & _).
Qed.

(** On the new sample engine with threshold 3, two cycles in which the
    pool is down and nothing is restarted leave its [fail_count] at 2. *)
Lemma fail_count_counts_consecutive_failures_witness :
  tracked AppPool "ShopPool" (new_monitor (sample_config 3)) Stat.seeded ∧
  ∃ s', stat_of AppPool "ShopPool"
          (run_cycles [(world_down, "12:00:30"); (world_down, "12:01:30")]
             (new_monitor (sample_config 3))).1 = Some s' ∧
        Stat.fail_count s' = 0 + 2.
Proof.
  assert (Htr : tracked AppPool "ShopPool" (new_monitor (sample_config 3)) Stat.seeded).
  { apply new_monitor_tracked; [apply sample_keys_unique | reflexivity]. }
  split; [exact Htr|].
  refine (proj2 (fail_count_counts_consecutive_failures AppPool "ShopPool"
                   (new_monitor (sample_config 3)) Stat.seeded Htr)
            [(world_down, "12:00:30"); (world_down, "12:01:30")] _ _ _
            (surjective_pairing _) _).
  - repeat constructor.
  - apply (bool_decide_unpack _). vm_compute. exact I.
Defined.

(** The sample run of the specification: threshold 3, the site answers,
    answers, then fails three times; the third failure restarts it, and the
    counter is back at 0. *)
Example sample_run_restart_succeeds :
  let ws := [(world_up, "12:00:00"); (world_up, "12:01:00");
             (world_restartable, "12:02:00"); (world_restartable, "12:03:00");
             (world_restartable, "12:04:00"); (world_up, "12:05:00")] in
  let '(m, evs) := run_cycles ws (new_monitor (sample_config 3)) in
  Stat.fail_count <$> stat_of Website "shop" m = Some 0 ∧
  MonitorStatus.total_restarts (status m) = 2 ∧
  MonitorStatus.total_failures (status m) = 6.
Proof. vm_compute. done. Qed.

(** C3.  One cycle over the started sample engine with site and pool up:
    both per-target [total_checks] counters go from 0 to 1, and the
    engine-wide [total_checks] of the status block stays 0.  (By
    [check_cycle_frame] no cycle ever changes it.) *)
Theorem engine_total_checks_not_incremented :
  let m := (_check_cycle world_up "12:00:30" (started 3)).1 in
  stat_of Website "shop" m = Some (Stat.mk "ok" 0 (Some "12:00:30") (Some 1)) ∧
  stat_of AppPool "ShopPool" m = Some (Stat.mk "running" 0 (Some "12:00:30") (Some 1)) ∧
  MonitorStatus.total_checks (status (started 3)) = 0 ∧
  MonitorStatus.total_checks (status m) = 0.
Proof. vm_compute. done. Qed.

(** C4, as stated, fails: after a bulk replacement of the website map and
    after [start()], the entry of ["shop"] still holds status ["error"] and
    [fail_count] 1, and the entry of ["old"], which is no longer configured,
    is still in the table. *)
Lemma reseed_keeps_entries_counterexample :
  running after_reload = false ∧
  dict_get (ConfigManager.websites (config_manager after_reload)) "old" = None ∧
  stat_of Website "shop" after_reload
    = Some (Stat.mk "error" 1 (Some "12:00:00") (Some 0)) ∧
  stat_of Website "old" after_reload
    = Some (Stat.mk "error" 1 (Some "12:00:00") (Some 0)) ∧
  stat_of Website "shop" after_reload_and_start
    = Some (Stat.mk "error" 1 (Some "12:00:00") (Some 0)) ∧
  stat_of Website "old" after_reload_and_start
    = Some (Stat.mk "error" 1 (Some "12:00:00") (Some 0)).
Proof. vm_compute. done. Qed.

(** C4, amended.  When the engine starts through [start()], or a bulk
    update replaces the website or the pool map, [_init_status] keeps every
    existing entry as it is, also one whose name is no longer configured;
    a name that had no entry gets a fresh one (status ["unknown"],
    [fail_count] 0, [last_check] ["-"], [total_checks] 0) when the new
    configuration holds it, and none otherwise. *)
Theorem init_status_seeds_only_missing str_blank int_of_str m :
  tables_wf m →
  (∀ now, running m = false → reseeded m (start now m).1.1) ∧
  (∀ items,
     reseeded m (save_web_config_json str_blank int_of_str (Some (JDict items)) m).1.1) ∧
  (∀ items,
     reseeded m (save_pool_config_json str_blank int_of_str (Some (JDict items)) m).1.1).
Proof.
  intros Hwf. split_and!.
  - intros now Hrun. unfold start. rewrite Hrun. cbn [fst].
    set (m1 := set_status _ _).
    exact (proj2 (proj2 (proj2 (init_status_spec m1 Hwf)))).
  - intros items. unfold save_web_config_json. cbn [fst].
    set (m1 := set_config_manager _ _).
    exact (proj2 (proj2 (proj2 (init_status_spec m1 Hwf)))).
  - intros items. unfold save_pool_config_json. cbn [fst].
    set (m1 := set_config_manager _ _).
    exact (proj2 (proj2 (proj2 (init_status_spec m1 Hwf)))).
Qed.

Lemma init_status_seeds_only_missing_witness :
  tables_wf (new_monitor (sample_config 3)) ∧
  reseeded (new_monitor (sample_config 3))
    (save_web_config_json ascii_blank ascii_int_of_str
       (Some (JDict [("blog", JDict [])])) (new_monitor (sample_config 3))).1.1.
Proof.
  split.
  - apply tables_wf_new_monitor.
  - apply (init_status_seeds_only_missing ascii_blank ascii_int_of_str
             (new_monitor (sample_config 3)) (tables_wf_new_monitor _)).
Defined.

(** C5.  The sample pool is configured with [restart_delay = 10]; with
    threshold 1 its first failing check restarts it, and the wait between
    the stop and the start is the default of [restart_app_pool], 5. *)
Theorem pool_restart_waits_default_delay :
  AppPoolConfig.restart_delay
    <$> dict_get (ConfigManager.app_pools (config_manager (started 1))) "ShopPool"
  = Some 10 ∧
  (check_app_pool world_down "12:00:30" "ShopPool" (AppPoolConfig.mk true false 10)
     (started 1)).2
  = [EvAppcmd ["list"; "apppool"; "ShopPool"];
     EvLog "WARNING" (MsgPreparingRestart AppPool "ShopPool" 1);
     EvAppcmd ["stop"; "apppool"; "ShopPool"];
     EvSleep 5;
     EvAppcmd ["start"; "apppool"; "ShopPool"];
     EvLog "ERROR" (MsgRestartFailed AppPool "ShopPool")].
Proof. vm_compute. done. Qed.

(** C6.  The sample pool is configured with [auto_restart = false]; with
    [global_auto_restart] on and threshold 1, the cycle in which its probe
    fails stops and starts it all the same. *)
Theorem pool_restarted_despite_auto_restart_off :
  AppPoolConfig.auto_restart
    <$> dict_get (ConfigManager.app_pools (config_manager (started 1))) "ShopPool"
  = Some false ∧
  restart_attempted AppPool "ShopPool"
    (_check_cycle world_restartable "12:00:30" (started 1)).2 ∧
  restart_succeeded AppPool "ShopPool"
    (_check_cycle world_restartable "12:00:30" (started 1)).2.
Proof.
  split; [by vm_compute|]. split.
  - unfold restart_attempted. vm_compute.
    repeat first [ apply sublist_nil_l | apply sublist_skip | apply sublist_cons ].
  - apply (bool_decide_unpack _). vm_compute. exact I.
Qed.

(** C7.  A cycle in which the request to the site raises: the [except]
    clause writes [last_check] and leaves [total_checks] at 0, while the
    pool, which failed in the same cycle, has both written. *)
Theorem probe_error_updates_last_check_only :
  let m := (_check_cycle world_down "12:00:30" (started 3)).1 in
  stat_of Website "shop" (started 3) = Some (Stat.mk "unknown" 0 (Some "-") (Some 0)) ∧
  stat_of Website "shop" m = Some (Stat.mk "error" 1 (Some "12:00:30") (Some 0)) ∧
  stat_of AppPool "ShopPool" m = Some (Stat.mk "stopped" 1 (Some "12:00:30") (Some 1)).
Proof. vm_compute. done. Qed.

(** C8.  A snapshot taken before a cycle shows, after the cycle, what the
    cycle wrote: its tables point at the engine's own status objects. *)
Theorem snapshot_shares_status_objects :
  ∃ snap,
    get_status_snapshot true (started 3) = Some snap ∧
    let m := (_check_cycle world_down "12:00:30" (started 3)).1 in
    snapshot_website (heap (started 3)) snap "shop"
      = Some (Stat.mk "unknown" 0 (Some "-") (Some 0)) ∧
    snapshot_website (heap m) snap "shop"
      = Some (Stat.mk "error" 1 (Some "12:00:30") (Some 0)) ∧
    snapshot_pool (heap m) snap "ShopPool"
      = Some (Stat.mk "stopped" 1 (Some "12:00:30") (Some 1)).
Proof. eexists. split; [reflexivity|]. vm_compute. done. Qed.

(** C9, as stated, fails: a pool entry with a negative [restart_delay]
    and an entry that is a string instead of an object are both applied,
    and no error is recorded. *)
Lemma bulk_update_accepts_invalid_counterexample :
  let r := save_pool_config_json ascii_blank ascii_int_of_str
             (Some (JDict [("Neg", JDict [("restart_delay", JInt (-1))]);
                           ("Str", JStr "oops")]))
             (new_monitor (sample_config 3)) in
  r.1.2 = Saved 2 0 [] ∧
  ConfigManager.app_pools (config_manager r.1.1)
  = [("Neg", AppPoolConfig.mk true true (-1)); ("Str", AppPoolConfig.mk true true 5)].
Proof. vm_compute. done. Qed.

(** C9, amended.  A bulk update whose document is an object handles each
    entry on its own.  An entry with a non-blank name whose integer field
    ([check_timeout], [expected_status], [restart_delay]) [int()] cannot
    convert is skipped, counted, and reported under its name; every other
    entry with a non-blank name is applied, also one that is not an object
    (it takes the defaults) or whose numbers are out of range (there is no
    range check).  The update always reports [Saved]: one bad entry never
    fails it. *)
Theorem bulk_update_entries_are_independent str_blank int_of_str items m :
  NoDup (dict_keys items) →
  (let r := save_web_config_json str_blank int_of_str (Some (JDict items)) m in
   let convert := website_config_of int_of_str in
   r.1.2 = Saved (Z.of_nat (length (List.filter (applied str_blank convert) items)))
                 (Z.of_nat (length (List.filter (rejected str_blank convert) items)))
                 (map fst (List.filter (rejected str_blank convert) items)) ∧
   ∀ name, dict_get (ConfigManager.websites (config_manager r.1.1)) name
           = rebuilt str_blank convert items name) ∧
  (let r := save_pool_config_json str_blank int_of_str (Some (JDict items)) m in
   let convert := app_pool_config_of int_of_str in
   r.1.2 = Saved (Z.of_nat (length (List.filter (applied str_blank convert) items)))
                 (Z.of_nat (length (List.filter (rejected str_blank convert) items)))
                 (map fst (List.filter (rejected str_blank convert) items)) ∧
   ∀ name, dict_get (ConfigManager.app_pools (config_manager r.1.1)) name
           = rebuilt str_blank convert items name).
Proof.
  intros Hnodup. split; cbn zeta.
  - unfold save_web_config_json; cbn [fst snd].
    destruct (ingest_spec str_blank (website_config_of int_of_str) items)
      as (Herr & Hec & Hsc & _).
    cbn zeta in *. rewrite Herr, Hec, Hsc. split; [done|].
    intros name. rewrite init_status_config. cbn. by apply ingest_rebuilt.
  - unfold save_pool_config_json; cbn [fst snd].
    destruct (ingest_spec str_blank (app_pool_config_of int_of_str) items)
      as (Herr & Hec & Hsc & _).
    cbn zeta in *. rewrite Herr, Hec, Hsc. split; [done|].
    intros name. rewrite init_status_config. cbn. by apply ingest_rebuilt.
Qed.

Lemma bulk_update_entries_are_independent_witness :
  NoDup (dict_keys mixed_pool_update) ∧
  let r := save_pool_config_json ascii_blank ascii_int_of_str
             (Some (JDict mixed_pool_update)) (new_monitor (sample_config 3)) in
  r.1.2 = Saved 2 1 ["Bad"] ∧
  ∀ name, dict_get (ConfigManager.app_pools (config_manager r.1.1)) name
          = rebuilt ascii_blank (app_pool_config_of ascii_int_of_str)
              mixed_pool_update name.
Proof.
  assert (Hnodup : NoDup (dict_keys mixed_pool_update)).
  { apply (bool_decide_unpack _). vm_compute. exact I. }
  split; [exact Hnodup|].
  exact (proj2 (bulk_update_entries_are_independent ascii_blank ascii_int_of_str
                  mixed_pool_update (new_monitor (sample_config 3)) Hnodup)).
Defined.

(** C10.  A restart function returns the success flag of its start
    command, whatever the stop command returned.  So when
    [_handle_failure] restarts a target (threshold reached, target
    configured), the restart counts as successful exactly when the start
    command succeeds, also after a failed stop: [total_restarts] grows by
    one and the target's [fail_count] becomes 0; when the start command
    fails, both stay as they are. *)
Theorem restart_success_is_start_success env name k l m s m' ev :
  heap m !! l = Some s →
  threshold_reached (config_manager m) (Stat.fail_count s) = true →
  configured k name (config_manager m) = true →
  _handle_failure env name k l m = (m', ev) →
  (∀ n delay, 0 ≤ delay →
     (restart_website env n delay).1 = (appcmd env ["start"; "site"; n]).1 ∧
     (restart_app_pool env n delay).1 = (appcmd env ["start"; "apppool"; n]).1) ∧
  restart_attempted k name ev ∧
  (restart_succeeded k name ev ↔ start_succeeds env k name = true) ∧
  (start_succeeds env k name = true →
     MonitorStatus.total_restarts (status m') = MonitorStatus.total_restarts (status m) + 1 ∧
     Stat.fail_count <$> heap m' !! l = Some 0) ∧
  (start_succeeds env k name = false →
     MonitorStatus.total_restarts (status m') = MonitorStatus.total_restarts (status m) ∧
     heap m' !! l = Some s).
Proof.
  intros Hs Hthr Hcfg Hhf. split.
  { intros n delay Hdelay. unfold restart_website, restart_app_pool.
    apply Z.ltb_ge in Hdelay. rewrite Hdelay.
    split; by destruct (appcmd env _). }
  pose proof (deref_lookup _ _ _ Hs) as Hd.
  rewrite handle_failure_restart in Hhf by (by rewrite ?Hd). injection Hhf as <- <-.
  destruct (handle_failure_outcome env name k l m _ _ s Hs Hcfg
              (handle_failure_restart env name k l m
                 ltac:(by rewrite Hd) Hcfg)) as (s' & Hs' & _ & _ & Hout).
  rewrite Hthr in Hout. destruct Hout as [Hatt Hres]. split; [done|].
  destruct (start_succeeds env k name) eqn:Hstart.
  - destruct Hres as [Hfc Hsucc]. split_and!; try done.
    intros _. split; [done|]. cbv iota. by erewrite heap_update_eq by exact Hs.
  - destruct Hres as [_ Hnot]. by split_and!.
Qed.

(** The stop command fails, the start command succeeds: the restart
    counts. *)
Lemma restart_success_is_start_success_witness :
  (appcmd world_restartable ["stop"; "site"; "shop"]).1 = false ∧
  restart_succeeded Website "shop"
    (_handle_failure world_restartable "shop" Website 0%nat one_failure_counted).2 ∧
  MonitorStatus.total_restarts
    (status (_handle_failure world_restartable "shop" Website 0%nat
               one_failure_counted).1)
  = MonitorStatus.total_restarts (status one_failure_counted) + 1 ∧
  Stat.fail_count
    <$> heap (_handle_failure world_restartable "shop" Website 0%nat
                one_failure_counted).1 !! 0%nat
  = Some 0.
Proof.
  destruct (restart_success_is_start_success world_restartable "shop" Website 0%nat
              one_failure_counted (incr_fail_count Stat.seeded) _ _
              eq_refl eq_refl eq_refl (surjective_pairing _))
    as (_ & _ & Hiff & Hok & _).
  split; [reflexivity|]. split; [by apply Hiff|]. by apply Hok.
Defined.

(** * Further properties *)

(** ** Counters and flags over a cycle *)

Lemma same_run_refl s : same_run s s.
Proof. unfold same_run. split_and!; try done; lia. Qed.

Lemma successes_app ev1 ev2 : successes (ev1 ++ ev2) = successes ev1 + successes ev2.
Proof. unfold successes. by rewrite List.filter_app, length_app, Nat2Z.inj_add. Qed.

Lemma accounted_refl m : accounted m m [].
Proof.
  unfold accounted. split_and!; try done; [apply same_run_refl|].
  unfold successes; simpl. lia.
Qed.

Lemma accounted_trans m1 m2 m3 ev1 ev2 :
  accounted m1 m2 ev1 → accounted m2 m3 ev2 → accounted m1 m3 (ev1 ++ ev2).
Proof.
  intros (Hc1 & Hr1 & Hs1 & Hn1) (Hc2 & Hr2 & Hs2 & Hn2).
  unfold accounted. rewrite successes_app. split_and!; try congruence; [|lia].
  unfold same_run in *. destruct Hs1 as (?&?&?&?&?&?&?), Hs2 as (?&?&?&?&?&?&?).
  split_and!; try congruence; lia.
Qed.

(** A step that leaves the status block, the flag and the configuration
    alone, and emits nothing that reports a restart. *)
Lemma accounted_quiet m m' ev :
  config_manager m' = config_manager m →
  running m' = running m →
  status m' = status m →
  successes ev = 0 →
  accounted m m' ev.
Proof.
  intros Hc Hr Hs Hev. unfold accounted. rewrite Hs, Hev.
  split_and!; try done; [apply same_run_refl | lia].
Qed.

Lemma handle_failure_accounted env name k l m m' ev :
  _handle_failure env name k l m = (m', ev) →
  accounted m m' ev ∧
  MonitorStatus.total_failures (status m')
  = MonitorStatus.total_failures (status m) + 1.
Proof.
  destruct (threshold_reached (config_manager m) (Stat.fail_count (deref m l))) eqn:Hthr.
  - destruct (configured k name (config_manager m)) eqn:Hcfg.
    + rewrite handle_failure_restart by done. intros [= <- <-].
      destruct (start_succeeds env k name); unfold accounted, same_run, successes;
        simpl; split_and!; try done; lia.
    + rewrite handle_failure_unconfigured by done. intros [= <- <-].
      unfold accounted, same_run, successes; simpl; split_and!; try done; lia.
  - rewrite handle_failure_quiet by done. intros [= <- <-].
    unfold accounted, same_run, successes; simpl; split_and!; try done; lia.
Qed.

Lemma lookup_or_create_quiet k name m l m1 :
  lookup_or_create k name m = (l, m1) →
  config_manager m1 = config_manager m ∧ running m1 = running m ∧ status m1 = status m.
Proof.
  unfold lookup_or_create, entry_or_new. destruct (status_map k m !! name).
  - by intros [= <- <-].
  - intros [= <- <-]. by destruct k.
Qed.

Lemma website_except_accounted env current_time name m m' ev :
  website_except env current_time name m = (m', ev) →
  accounted m m' ev.
Proof.
  unfold website_except. destruct (lookup_or_create Website name m) as [l m1] eqn:Hlk.
  destruct (lookup_or_create_quiet _ _ _ _ _ Hlk) as (Hc & Hr & Hs).
  intros [Hacc _]%handle_failure_accounted.
  change ev with ([] ++ ev). eapply accounted_trans; [|exact Hacc].
  by apply accounted_quiet.
Qed.

Lemma check_website_accounted env current_time name cfg m m' ev :
  check_website env current_time name cfg m = (m', ev) →
  accounted m m' ev.
Proof.
  unfold check_website.
  destruct (http_status env name) as [code|]; [|apply website_except_accounted].
  destruct (lookup_or_create Website name m) as [l m1] eqn:Hlk.
  destruct (lookup_or_create_quiet _ _ _ _ _ Hlk) as (Hc & Hr & Hs).
  destruct (Stat.total_checks _) as [n|].
  - destruct (code =? _).
    + intros [= <- <-]. by apply accounted_quiet.
    + intros [Hacc _]%handle_failure_accounted.
      change ev with ([] ++ ev). eapply accounted_trans; [|exact Hacc].
      by apply accounted_quiet.
  - intros Hacc%website_except_accounted.
    change ev with ([] ++ ev). eapply accounted_trans; [|exact Hacc].
    by apply accounted_quiet.
Qed.

Lemma check_app_pool_accounted env current_time name cfg m m' ev :
  check_app_pool env current_time name cfg m = (m', ev) →
  accounted m m' ev.
Proof.
  unfold check_app_pool, get_app_pool_state.
  destruct (appcmd env _) as [success output].
  set (state := if success && contains "Started" output then _ else _).
  destruct (lookup_or_create AppPool name m) as [l m1] eqn:Hlk.
  destruct (lookup_or_create_quiet _ _ _ _ _ Hlk) as (Hc & Hr & Hs).
  destruct (Stat.total_checks _) as [n|].
  - destruct (String.eqb state "Started").
    + intros [= <- <-]. by apply accounted_quiet.
    + destruct (_handle_failure _ _ _ _ _) as [m2 ev2] eqn:Hhf.
      apply handle_failure_accounted in Hhf as [Hacc _]. intros [= <- <-].
      change (?e :: ev2) with ([e] ++ ev2).
      eapply accounted_trans; [|exact Hacc]. by apply accounted_quiet.
  - intros [= <- <-]. by apply accounted_quiet.
Qed.

Lemma for_each_accounted {V} (body : string → V → IISMonitor → IISMonitor * list Event)
    (d : Dict V) m m' ev :
  (∀ n cfg m m' ev, body n cfg m = (m', ev) → accounted m m' ev) →
  for_each body d m = (m', ev) →
  accounted m m' ev.
Proof.
  intros Hbody. revert m m' ev. induction d as [|[n cfg] d IH]; intros m m' ev; simpl.
  - intros [= <- <-]. apply accounted_refl.
  - destruct (body n cfg m) as [ma ea] eqn:Hb.
    destruct (for_each body d ma) as [mb eb] eqn:Hrest.
    intros [= <- <-]. eapply accounted_trans; [by eapply Hbody | by eapply IH].
Qed.

Lemma check_cycle_accounted env current_time m m' ev :
  _check_cycle env current_time m = (m', ev) →
  accounted m m' ev.
Proof.
  unfold _check_cycle.
  destruct (for_each _ _ m) as [m1 e1] eqn:H1.
  destruct (for_each _ _ m1) as [m2 e2] eqn:H2.
  intros [= <- <-]. eapply accounted_trans.
  - eapply for_each_accounted; [|exact H1].
    intros n cfg ma mb e. unfold website_body. destruct (WebsiteConfig.enabled cfg).
    + apply check_website_accounted.
    + intros [= <- <-]. apply accounted_refl.
  - eapply for_each_accounted; [|exact H2].
    intros n cfg ma mb e. unfold app_pool_body. destruct (AppPoolConfig.enabled cfg).
    + apply check_app_pool_accounted.
    + intros [= <- <-]. apply accounted_refl.
Qed.

Lemma run_cycles_accounted_aux ws :
  ∀ m m' evs, run_cycles ws m = (m', evs) → accounted m m' (concat evs).
Proof.
  induction ws as [|[env t] ws IH]; intros m m' evs; simpl.
  - intros [= <- <-]. apply accounted_refl.
  - destruct (_check_cycle env t m) as [ma ea] eqn:Hcyc.
    destruct (run_cycles ws ma) as [mb eb] eqn:Hrun.
    intros [= <- <-]. simpl.
    eapply accounted_trans; [by eapply check_cycle_accounted | by eapply IH].
Qed.

(** X1.  Over any number of check cycles, from any state of the engine:
    the configuration and the [running] flag stay as they are; of the
    status block only [total_failures] and [total_restarts] change, and
    neither goes down; [total_restarts] grows by exactly the number of
    successful restarts the traces report, which is at most the growth of
    [total_failures]. *)
Theorem cycles_only_grow_counters ws m :
  accounted m (run_cycles ws m).1 (concat (run_cycles ws m).2).
Proof. apply (run_cycles_accounted_aux ws), surjective_pairing. Qed.

(** ** The life cycle *)

Lemma seed_flags k m name :
  running (seed k m name) = running m ∧ status (seed k m name) = status m.
Proof.
  unfold seed, entry_or_new. destruct (status_map k m !! name); [done|]. by destruct k.
Qed.

Lemma foldl_seed_flags k names m :
  running (foldl (seed k) m names) = running m ∧
  status (foldl (seed k) m names) = status m.
Proof.
  revert m. induction names as [|n names IH]; intros m; simpl; [done|].
  destruct (IH (seed k m n)) as [-> ->]. apply seed_flags.
Qed.

Lemma init_status_flags m :
  running (_init_status m) = running m ∧ status (_init_status m) = status m.
Proof.
  unfold _init_status.
  destruct (foldl_seed_flags AppPool
              (dict_keys (ConfigManager.app_pools
                 (config_manager (foldl (seed Website) m
                    (dict_keys (ConfigManager.websites (config_manager m)))))))
              (foldl (seed Website) m
                 (dict_keys (ConfigManager.websites (config_manager m))))) as [-> ->].
  apply foldl_seed_flags.
Qed.

(** X2.  After [start()] the engine is running, whatever it was before,
    and a second [start()] changes nothing at all, counters included, and
    reports [False]. *)
Theorem start_twice_is_noop now1 now2 m :
  running (start now1 m).1.1 = true ∧
  start now2 (start now1 m).1.1 = ((start now1 m).1.1, (false, "监控已在运行中"), []).
Proof.
  assert (Hrun : running (start now1 m).1.1 = true).
  { unfold start. destruct (running m) eqn:Hr; [done|]. cbn [fst].
    by rewrite (proj1 (init_status_flags _)). }
  split; [done|]. unfold start at 1. by rewrite Hrun.
Qed.

(** X3.  In every state the engine can reach, the status block says
    ["running"] exactly when the [running] flag is set and ["stopped"]
    otherwise (never ["error"]), and it holds a start time exactly while
    the engine runs. *)
Theorem reachable_lifecycle m : reachable m → lifecycle_ok m.
Proof.
  induction 1 as [c Hkeys|now m _ IH|m _ IH|env t m _ IH
                 |sb ios data m _ IH|sb ios data m _ IH
                 |interval fail restart m _ IH]; unfold lifecycle_ok in *.
  - unfold new_monitor. destruct (init_status_flags
      (mkIISMonitor c false MonitorStatus.default ∅ ∅ [])) as [-> ->]. simpl.
    split; [done|]. split; [by intros [? ?]|done].
  - unfold start. destruct (running m) eqn:Hr; cbn [fst]; [by rewrite Hr|].
    destruct (init_status_flags
      (set_status (MonitorStatus.mk "running" (Some now) None 0 0 0 0)
         (set_running true m))) as [-> ->]. simpl.
    split; [done|]. split; [done|by eexists].
  - unfold stop. destruct (running m) eqn:Hr; cbn [negb fst]; [|by rewrite Hr]. simpl.
    split; [done|]. split; [by intros [? ?]|done].
  - pose proof (check_cycle_accounted env t m _ _ (surjective_pairing _))
      as (_ & -> & (-> & -> & _) & _). done.
  - unfold save_web_config_json. destruct data as [data|]; [|done].
    destruct data; cbn [fst]; try done.
    by destruct (init_status_flags
      (set_config_manager
         (ConfigManager.set_websites
            (accepted (ingest sb (website_config_of ios) d))
            (config_manager
               (set_config_manager (ConfigManager.set_websites [] (config_manager m)) m)))
         (set_config_manager (ConfigManager.set_websites [] (config_manager m)) m)))
      as [-> ->].
  - unfold save_pool_config_json. destruct data as [data|]; [|done].
    destruct data; cbn [fst]; try done.
    by destruct (init_status_flags
      (set_config_manager
         (ConfigManager.set_app_pools
            (accepted (ingest sb (app_pool_config_of ios) d))
            (config_manager
               (set_config_manager (ConfigManager.set_app_pools [] (config_manager m)) m)))
         (set_config_manager (ConfigManager.set_app_pools [] (config_manager m)) m)))
      as [-> ->].
  - done.
Qed.

Lemma reachable_lifecycle_witness :
  reachable (started 3) ∧ lifecycle_ok (started 3).
Proof.
  assert (Hr : reachable (started 3)).
  { apply reach_start, reach_new, sample_keys_unique. }
  split; [exact Hr|]. exact (reachable_lifecycle (started 3) Hr).
Defined.

(** ** What one check writes *)

Lemma handle_failure_keeps_status env name k l m m' ev s :
  heap m !! l = Some s →
  _handle_failure env name k l m = (m', ev) →
  ∃ s', heap m' !! l = Some s' ∧ Stat.status s' = Stat.status s.
Proof.
  intros Hs.
  destruct (threshold_reached (config_manager m) (Stat.fail_count (deref m l))) eqn:Hthr.
  - destruct (configured k name (config_manager m)) eqn:Hcfg.
    + rewrite handle_failure_restart by done. intros [= <- <-].
      destruct (start_succeeds env k name).
      * exists (Stat.set_fail_count 0 s). split; [|done]. by apply heap_update_eq.
      * by exists s.
    + rewrite handle_failure_unconfigured by done. intros [= <- <-]. by exists s.
  - rewrite handle_failure_quiet by done. intros [= <- <-]. by exists s.
Qed.

Lemma check_website_writes env current_time name cfg m m' ev l s n :
  status_map Website m !! name = Some l →
  heap m !! l = Some s →
  Stat.total_checks s = Some n →
  dict_get (ConfigManager.websites (config_manager m)) name = Some cfg →
  check_website env current_time name cfg m = (m', ev) →
  (∃ s', heap m' !! l = Some s' ∧
     Stat.status s'
     = status_word Website (probe_failed env Website name (config_manager m))) ∧
  MonitorStatus.total_failures (status m')
  = MonitorStatus.total_failures (status m)
    + (if probe_failed env Website name (config_manager m) then 1 else 0).
Proof.
  intros Hl Hs Hn Hcfg.
  unfold check_website, website_except, probe_failed. rewrite Hcfg.
  destruct (http_status env name) as [code|].
  - rewrite (lookup_or_create_existing _ _ _ _ Hl).
    erewrite (deref_lookup _ l) by heap_tac. cbn [Stat.total_checks Stat.set_last_check].
    rewrite Hn. destruct (code =? WebsiteConfig.expected_status cfg); cbn [negb].
    + intros [= <- <-]. split; [|simpl; lia]. eexists. split; [heap_tac|done].
    + intros Hhf. destruct (handle_failure_accounted _ _ _ _ _ _ _ Hhf) as [_ ->].
      split; [|done]. eapply handle_failure_keeps_status in Hhf; [|heap_tac]. done.
  - rewrite (lookup_or_create_existing _ _ _ _ Hl).
    intros Hhf. destruct (handle_failure_accounted _ _ _ _ _ _ _ Hhf) as [_ ->].
    split; [|done]. eapply handle_failure_keeps_status in Hhf; [|heap_tac]. done.
Qed.

Lemma check_app_pool_writes env current_time name cfg m m' ev l s n :
  status_map AppPool m !! name = Some l →
  heap m !! l = Some s →
  Stat.total_checks s = Some n →
  check_app_pool env current_time name cfg m = (m', ev) →
  (∃ s', heap m' !! l = Some s' ∧
     Stat.status s'
     = status_word AppPool (probe_failed env AppPool name (config_manager m))) ∧
  MonitorStatus.total_failures (status m')
  = MonitorStatus.total_failures (status m)
    + (if probe_failed env AppPool name (config_manager m) then 1 else 0).
Proof.
  intros Hl Hs Hn.
  unfold check_app_pool, probe_failed.
  destruct (get_app_pool_state env name) as [state ev0] eqn:Hstate. cbn [fst].
  rewrite (lookup_or_create_existing _ _ _ _ Hl).
  erewrite (deref_lookup _ l) by heap_tac. cbn [Stat.total_checks Stat.set_last_check].
  rewrite Hn. destruct (String.eqb state "Started"); cbn [negb].
  - intros [= <- <-]. split; [|simpl; lia]. eexists. split; [heap_tac|done].
  - destruct (_handle_failure _ _ _ _ _) as [m2 ev2] eqn:Hhf. intros [= <- <-].
    destruct (handle_failure_accounted _ _ _ _ _ _ _ Hhf) as [_ ->].
    split; [|done]. eapply handle_failure_keeps_status in Hhf; [|heap_tac]. done.
Qed.

(** ** Counting the failures of a cycle *)

Lemma for_each_failures {V} k (body : string → V → IISMonitor → IISMonitor * list Event)
    (counts : string → V → bool) (c : ConfigManager.t) (d : Dict V) :
  framed_body k body →
  (∀ n cfg m m' ev,
     (n, cfg) ∈ d →
     config_manager m = c → tables_wf m →
     (∃ s, stat_of k n m = Some s ∧ is_Some (Stat.total_checks s)) →
     body n cfg m = (m', ev) →
     MonitorStatus.total_failures (status m')
     = MonitorStatus.total_failures (status m) + (if counts n cfg then 1 else 0)) →
  ∀ d0 m m' ev,
    (∀ e, e ∈ d0 → e ∈ d) →
    NoDup (dict_keys d0) →
    config_manager m = c →
    tables_wf m →
    (∀ n, n ∈ dict_keys d0 → ∃ s, stat_of k n m = Some s ∧ is_Some (Stat.total_checks s)) →
    for_each body d0 m = (m', ev) →
    MonitorStatus.total_failures (status m')
    = MonitorStatus.total_failures (status m)
      + Z.of_nat (length (List.filter (λ e, counts e.1 e.2) d0)).
Proof.
  intros Hbody Hstep d0.
  induction d0 as [|[n cfg] d0 IH]; intros m m' ev Hsub Hnodup Hc Hwf Hentries; simpl.
  - intros [= <- <-]. lia.
  - simpl in Hnodup. apply NoDup_cons in Hnodup as [Hn Hnodup].
    destruct (body n cfg m) as [ma ea] eqn:Hb.
    destruct (for_each body d0 ma) as [mb eb] eqn:Hrest.
    intros [= <- <-].
    destruct (Hbody _ _ _ _ _ Hwf Hb) as (Hwfa & Hca & _ & Hfa & _).
    rewrite (IH ma mb eb); [| |done|congruence|done| |done].
    + rewrite (Hstep _ _ _ _ _ (Hsub _ ltac:(left)) Hc Hwf (Hentries n ltac:(left)) Hb).
      destruct (counts n cfg); simpl; lia.
    + intros e He. apply Hsub. by right.
    + intros n' Hn'. rewrite Hfa; [apply Hentries; by right|].
      intros [= ->]. done.
Qed.

(** X4.  In a steady state, one check cycle adds to [total_failures]
    exactly the number of enabled targets whose probe fails in it. *)
Theorem cycle_counts_failed_probes env current_time m :
  steady m →
  MonitorStatus.total_failures (status (_check_cycle env current_time m).1)
  = MonitorStatus.total_failures (status m) + failed_probes env (config_manager m).
Proof.
  intros (Hwf & [Hkw Hkp] & Hcomplete & Hcovered).
  assert (Hentries : ∀ k n, n ∈ config_keys k (config_manager m) →
            ∃ s, stat_of k n m = Some s ∧ is_Some (Stat.total_checks s)).
  { intros k n Hin. destruct (Hcovered k n Hin) as [s Hs]. exists s.
    split; [done|]. by eapply Hcomplete. }
  unfold _check_cycle, failed_probes.
  destruct (for_each _ _ m) as [m1 e1] eqn:H1.
  destruct (for_each _ _ m1) as [m2 e2] eqn:H2. cbn [fst].
  pose proof (website_body_framed env current_time) as Hbw.
  pose proof (app_pool_body_framed env current_time) as Hbp.
  destruct (for_each_frame _ _ _ _ _ _ Hbw Hwf H1) as (Hwf1 & Hc1 & _ & Hs1 & _).
  rewrite Hc1 in H2.
  assert (HW :
    MonitorStatus.total_failures (status m1)
    = MonitorStatus.total_failures (status m)
      + Z.of_nat (length (List.filter
          (λ e, WebsiteConfig.enabled e.2
                && probe_failed env Website e.1 (config_manager m))
          (ConfigManager.websites (config_manager m))))).
  { eapply (for_each_failures Website (website_body env current_time)
              (λ n cfg, WebsiteConfig.enabled cfg
                        && probe_failed env Website n (config_manager m))
              (config_manager m) (ConfigManager.websites (config_manager m)) Hbw);
      [|done|done|done|done|by apply (Hentries Website)|exact H1].
    intros n cfg ma mb ev Hin Hca Hwfa (s & Hs & [k Hk]) Hb.
    unfold website_body in Hb. destruct (WebsiteConfig.enabled cfg); cbn [andb].
    - apply stat_of_Some in Hs as (l & Hl & Hs).
      pose proof (dict_get_elem_of _ _ _ Hkw Hin) as Hget. rewrite <- Hca in Hget.
      destruct (check_website_writes _ _ _ _ _ _ _ _ _ _ Hl Hs Hk Hget Hb) as [_ ->].
      by rewrite Hca.
    - injection Hb as <- <-. lia. }
  assert (HP :
    MonitorStatus.total_failures (status m2)
    = MonitorStatus.total_failures (status m1)
      + Z.of_nat (length (List.filter
          (λ e, AppPoolConfig.enabled e.2
                && probe_failed env AppPool e.1 (config_manager m))
          (ConfigManager.app_pools (config_manager m))))).
  { eapply (for_each_failures AppPool (app_pool_body env current_time)
              (λ n cfg, AppPoolConfig.enabled cfg
                        && probe_failed env AppPool n (config_manager m))
              (config_manager m) (ConfigManager.app_pools (config_manager m)) Hbp);
      [|done|done|done|done| |exact H2].
    - intros n cfg ma mb ev Hin Hca Hwfa (s & Hs & [k Hk]) Hb.
      unfold app_pool_body in Hb. destruct (AppPoolConfig.enabled cfg); cbn [andb].
      + apply stat_of_Some in Hs as (l & Hl & Hs).
        destruct (check_app_pool_writes _ _ _ _ _ _ _ _ _ _ Hl Hs Hk Hb) as [_ ->].
        by rewrite Hca.
      + injection Hb as <- <-. lia.
    - intros n Hin. rewrite Hs1 by done. by apply (Hentries AppPool). }
  lia.
Qed.

(** Site and pool of the started sample engine are both down: two
    failures are counted. *)
Lemma cycle_counts_failed_probes_witness :
  steady (started 3) ∧
  MonitorStatus.total_failures (status (_check_cycle world_down "12:00:30" (started 3)).1)
  = MonitorStatus.total_failures (status (started 3))
    + failed_probes world_down (config_manager (started 3)).
Proof.
  assert (Hs : steady (started 3)).
  { apply reachable_steady, reach_start, reach_new, sample_keys_unique. }
  split; [exact Hs|].
  exact (cycle_counts_failed_probes world_down "12:00:30" (started 3) Hs).
Defined.

(** ** Targets a cycle does not probe *)

Lemma for_each_events {V} k (body : string → V → IISMonitor → IISMonitor * list Event)
    (live : V → bool) (d : Dict V) m m' ev :
  framed_body k body →
  (∀ n cfg m, live cfg = false → body n cfg m = (m, [])) →
  tables_wf m →
  for_each body d m = (m', ev) →
  ∀ e k0 n0, e ∈ ev → concerns k0 n0 e →
    k0 = k ∧ ∃ cfg, (n0, cfg) ∈ d ∧ live cfg = true.
Proof.
  intros Hbody Hidle. revert m m' ev.
  induction d as [|[n cfg] d IH]; intros m m' ev Hwf; simpl.
  - intros [= <- <-] e k0 n0 Hin. by apply elem_of_nil in Hin.
  - destruct (body n cfg m) as [ma ea] eqn:Hb.
    destruct (for_each body d ma) as [mb eb] eqn:Hrest.
    intros [= <- <-] e k0 n0 [Hin|Hin]%elem_of_app Hc.
    + destruct (Hbody _ _ _ _ _ Hwf Hb) as (_ & _ & _ & _ & Hea).
      destruct (Hea _ _ _ Hin Hc) as [-> ->]. split; [done|]. exists cfg.
      split; [left|]. destruct (live cfg) eqn:Hl; [done|].
      rewrite (Hidle _ _ _ Hl) in Hb. injection Hb as <- <-. by apply elem_of_nil in Hin.
    + destruct (Hbody _ _ _ _ _ Hwf Hb) as (Hwfa & _).
      destruct (IH _ _ _ Hwfa Hrest _ _ _ Hin Hc) as (-> & cfg' & Hin' & Hl).
      split; [done|]. exists cfg'. split; [by right|done].
Qed.

(** X5.  A target that is not configured, or is configured with
    [enabled] off, is left alone by a check cycle: its entry in the status
    table is what it was, and no command or log line of the trace is about
    it. *)
Theorem unmonitored_target_left_alone env current_time m k name :
  tables_wf m →
  keys_unique (config_manager m) →
  monitored k name (config_manager m) = false →
  stat_of k name (_check_cycle env current_time m).1 = stat_of k name m ∧
  silent k name (_check_cycle env current_time m).2.
Proof.
  intros Hwf Hkeys Hmon.
  destruct (_check_cycle env current_time m) as [m' ev] eqn:Hcyc. cbn [fst snd].
  split; [by eapply check_cycle_untouched|].
  destruct Hkeys as [Hkw Hkp]. unfold _check_cycle in Hcyc.
  destruct (for_each _ _ m) as [m1 e1] eqn:H1.
  destruct (for_each _ _ m1) as [m2 e2] eqn:H2.
  injection Hcyc as <- <-.
  pose proof (website_body_framed env current_time) as Hbw.
  pose proof (app_pool_body_framed env current_time) as Hbp.
  destruct (for_each_frame _ _ _ _ _ _ Hbw Hwf H1) as (Hwf1 & Hc1 & _).
  rewrite Hc1 in H2.
  intros e [Hin|Hin]%elem_of_app Hc.
  - destruct (for_each_events Website _ WebsiteConfig.enabled _ _ _ _ Hbw
                ltac:(by intros n cfg m0 Hl; unfold website_body; rewrite Hl)
                Hwf H1 _ _ _ Hin Hc) as (-> & cfg & Hmem & Hl).
    unfold monitored in Hmon. rewrite (dict_get_elem_of _ _ _ Hkw Hmem) in Hmon.
    congruence.
  - destruct (for_each_events AppPool _ AppPoolConfig.enabled _ _ _ _ Hbp
                ltac:(by intros n cfg m0 Hl; unfold app_pool_body; rewrite Hl)
                Hwf1 H2 _ _ _ Hin Hc) as (-> & cfg & Hmem & Hl).
    unfold monitored in Hmon. rewrite (dict_get_elem_of _ _ _ Hkp Hmem) in Hmon.
    congruence.
Qed.

(** The sample engine has no site ["ghost"]. *)
Lemma unmonitored_target_left_alone_witness :
  tables_wf (new_monitor (sample_config 3)) ∧
  keys_unique (config_manager (new_monitor (sample_config 3))) ∧
  monitored Website "ghost" (config_manager (new_monitor (sample_config 3))) = false ∧
  stat_of Website "ghost"
    (_check_cycle world_down "12:00:30" (new_monitor (sample_config 3))).1
  = stat_of Website "ghost" (new_monitor (sample_config 3)) ∧
  silent Website "ghost"
    (_check_cycle world_down "12:00:30" (new_monitor (sample_config 3))).2.
Proof.
  assert (Hk : keys_unique (config_manager (new_monitor (sample_config 3)))).
  { unfold new_monitor. rewrite init_status_config. apply sample_keys_unique. }
  assert (Hm : monitored Website "ghost"
                 (config_manager (new_monitor (sample_config 3))) = false).
  { unfold new_monitor. rewrite init_status_config. reflexivity. }
  split; [apply tables_wf_new_monitor|]. split; [exact Hk|]. split; [exact Hm|].
  exact (unmonitored_target_left_alone world_down "12:00:30"
           (new_monitor (sample_config 3)) Website "ghost"
           (tables_wf_new_monitor _) Hk Hm).
Defined.

(** ** The global switch *)

(** With [global_auto_restart] off, [_handle_failure] only counts. *)
Lemma handle_failure_switch_off env name k l m :
  ConfigManager.global_auto_restart (config_manager m) = false →
  _handle_failure env name k l m
  = (set_status (MonitorStatus.incr_total_failures (status m)) m, []).
Proof.
  intros Hg. apply handle_failure_quiet. unfold threshold_reached.
  rewrite Hg. apply andb_false_r.
Qed.

Lemma for_each_switch_off {V} (body : string → V → IISMonitor → IISMonitor * list Event)
    (d : Dict V) m m' ev :
  (∀ n cfg m m' ev,
     ConfigManager.global_auto_restart (config_manager m) = false →
     body n cfg m = (m', ev) →
     config_manager m' = config_manager m ∧
     Forall no_remediation ev) →
  ConfigManager.global_auto_restart (config_manager m) = false →
  for_each body d m = (m', ev) →
  config_manager m' = config_manager m ∧ Forall no_remediation ev.
Proof.
  intros Hbody. revert m m' ev.
  induction d as [|[n cfg] d IH]; intros m m' ev Hg; simpl.
  - by intros [= <- <-].
  - destruct (body n cfg m) as [ma ea] eqn:Hb.
    destruct (for_each body d ma) as [mb eb] eqn:Hrest.
    intros [= <- <-].
    destruct (Hbody _ _ _ _ _ Hg Hb) as [Hca Hea].
    destruct (IH ma mb eb) as [Hcb Heb]; [by rewrite Hca|done|].
    split; [congruence|]. by apply Forall_app.
Qed.

Lemma website_except_switch_off env current_time name m m' ev :
  ConfigManager.global_auto_restart (config_manager m) = false →
  website_except env current_time name m = (m', ev) →
  config_manager m' = config_manager m ∧ ev = [].
Proof.
  intros Hg. unfold website_except.
  destruct (lookup_or_create Website name m) as [l m1] eqn:Hlk.
  destruct (lookup_or_create_quiet _ _ _ _ _ Hlk) as (Hc & _).
  rewrite handle_failure_switch_off by (by rewrite <- Hc in Hg).
  intros [= <- <-]. done.
Qed.

(** X6.  While [global_auto_restart] is off, a check cycle issues no
    stop and no start command and reports no restart, for any target and
    from any state of the engine, and [total_restarts] stays as it is. *)
Theorem switch_off_never_restarts env current_time m :
  ConfigManager.global_auto_restart (config_manager m) = false →
  Forall no_remediation (_check_cycle env current_time m).2 ∧
  MonitorStatus.total_restarts (status (_check_cycle env current_time m).1)
  = MonitorStatus.total_restarts (status m).
Proof.
  intros Hg.
  assert (Hweb : ∀ n cfg m m' ev,
    ConfigManager.global_auto_restart (config_manager m) = false →
    website_body env current_time n cfg m = (m', ev) →
    config_manager m' = config_manager m ∧ Forall no_remediation ev).
  { clear. intros n cfg m m' ev Hg. unfold website_body.
    destruct (WebsiteConfig.enabled cfg); [|by intros [= <- <-]].
    assert (Hexc : ∀ m m' ev,
      ConfigManager.global_auto_restart (config_manager m) = false →
      website_except env current_time n m = (m', ev) →
      config_manager m' = config_manager m ∧ Forall no_remediation ev).
    { intros ma mb e Hga Hex.
      destruct (website_except_switch_off _ _ _ _ _ _ Hga Hex) as [-> ->]. done. }
    unfold check_website.
    destruct (http_status env n) as [code|]; [|by apply Hexc].
    destruct (lookup_or_create Website n m) as [l m1] eqn:Hlk.
    destruct (lookup_or_create_quiet _ _ _ _ _ Hlk) as (Hc & _).
    destruct (Stat.total_checks _) as [k|].
    - destruct (code =? _); [by intros [= <- <-]|].
      rewrite handle_failure_switch_off by (by rewrite <- Hc in Hg).
      by intros [= <- <-].
    - intros Hex. apply Hexc in Hex as [-> ?]; [done|]. by rewrite <- Hc in Hg. }
  assert (Hpool : ∀ n cfg m m' ev,
    ConfigManager.global_auto_restart (config_manager m) = false →
    app_pool_body env current_time n cfg m = (m', ev) →
    config_manager m' = config_manager m ∧ Forall no_remediation ev).
  { clear. intros n cfg m m' ev Hg. unfold app_pool_body.
    destruct (AppPoolConfig.enabled cfg); [|by intros [= <- <-]].
    unfold check_app_pool, get_app_pool_state.
    destruct (appcmd env _) as [success output].
    set (state := if success && contains "Started" output then _ else _).
    destruct (lookup_or_create AppPool n m) as [l m1] eqn:Hlk.
    destruct (lookup_or_create_quiet _ _ _ _ _ Hlk) as (Hc & _).
    destruct (Stat.total_checks _) as [k|].
    - destruct (String.eqb state "Started").
      + intros [= <- <-]. split; [done|]. by repeat constructor.
      + rewrite handle_failure_switch_off by (by rewrite <- Hc in Hg).
        intros [= <- <-]. split; [done|]. by repeat constructor.
    - intros [= <- <-]. split; [done|]. by repeat constructor. }
  assert (Hall : Forall no_remediation (_check_cycle env current_time m).2).
  { unfold _check_cycle.
    destruct (for_each _ _ m) as [m1 e1] eqn:H1.
    destruct (for_each _ _ m1) as [m2 e2] eqn:H2. cbn [snd].
    destruct (for_each_switch_off _ _ _ _ _ Hweb Hg H1) as [Hc1 He1].
    destruct (for_each_switch_off _ _ _ _ _ Hpool ltac:(by rewrite Hc1) H2) as [Hc2 He2].
    by apply Forall_app. }
  split; [done|].
  pose proof (check_cycle_accounted env current_time m _ _ (surjective_pairing _))
    as (_ & _ & _ & ->).
  assert (Hzero : ∀ ev, Forall no_remediation ev → successes ev = 0).
  { clear. intros ev Hno. unfold successes.
    induction Hno as [|e ev [_ He] _ IH]; [done|]. simpl. by rewrite He. }
  rewrite Hzero by done. lia.
Qed.

(** Threshold 1, site and pool down, the switch off. *)
Lemma switch_off_never_restarts_witness :
  ConfigManager.global_auto_restart (config_manager (new_monitor sample_config_off))
  = false ∧
  Forall no_remediation
    (_check_cycle world_down "12:00:30" (new_monitor sample_config_off)).2 ∧
  MonitorStatus.total_restarts
    (status (_check_cycle world_down "12:00:30" (new_monitor sample_config_off)).1)
  = MonitorStatus.total_restarts (status (new_monitor sample_config_off)).
Proof.
  assert (Hoff : ConfigManager.global_auto_restart
                   (config_manager (new_monitor sample_config_off)) = false).
  { unfold new_monitor. rewrite init_status_config. reflexivity. }
  split; [exact Hoff|].
  exact (switch_off_never_restarts world_down "12:00:30"
           (new_monitor sample_config_off) Hoff).
Defined.

(** ** The check of one target inside a cycle *)

(** A cycle, seen from one monitored target: what happens to its entry
    is what its own check does, on a state in which the entry is still the
    one the cycle started with. *)
Lemma check_cycle_focus env current_time m m' ev k name :
  tables_wf m →
  keys_unique (config_manager m) →
  monitored k name (config_manager m) = true →
  _check_cycle env current_time m = (m', ev) →
  ∃ ma mb ev1 evt ev2,
    tables_wf ma ∧ config_manager ma = config_manager m ∧
    stat_of k name ma = stat_of k name m ∧
    check_of env current_time k name ma (mb, evt) ∧
    stat_of k name m' = stat_of k name mb ∧
    ev = ev1 ++ evt ++ ev2 ∧ silent k name ev1 ∧ silent k name ev2.
Proof.
  intros Hwf [Hkw Hkp] Hmon. unfold _check_cycle.
  destruct (for_each _ _ m) as [m1 e1] eqn:H1.
  destruct (for_each _ _ m1) as [m2 e2] eqn:H2.
  intros [= <- <-].
  pose proof (website_body_framed env current_time) as Hbw.
  pose proof (app_pool_body_framed env current_time) as Hbp.
  destruct k; unfold monitored in Hmon.
  - destruct (dict_get _ name) as [cfg|] eqn:Hget; [|done].
    destruct (for_each_focus _ _ _ _ _ _ _ _ Hbw Hwf Hkw Hget H1)
      as (ma & mb & ea & eb & ec & Hb & Hwfa & Hca & Hsa & Hwf1 & Hc1 & Hs1 & -> & Hea & Hec).
    unfold website_body in Hb. rewrite Hmon in Hb.
    destruct (for_each_frame _ _ _ _ _ _ Hbp Hwf1 H2) as (_ & _ & _ & Hs2 & He2).
    exists ma, mb, ea, eb, (ec ++ e2). split_and!; try done.
    + exists cfg. by rewrite Hca.
    + rewrite Hs2 by done. done.
    + by rewrite <- !app_assoc.
    + apply silent_app; [done|]. by apply He2.
  - destruct (dict_get _ name) as [cfg|] eqn:Hget; [|done].
    destruct (for_each_frame _ _ _ _ _ _ Hbw Hwf H1) as (Hwf1 & Hc1 & _ & Hs1 & He1).
    rewrite <- Hc1 in Hget, Hkp.
    destruct (for_each_focus _ _ _ _ _ _ _ _ Hbp Hwf1 Hkp Hget H2)
      as (ma & mb & ea & eb & ec & Hb & Hwfa & Hca & Hsa & Hwf2 & Hc2 & Hs2 & -> & Hea & Hec).
    unfold app_pool_body in Hb. rewrite Hmon in Hb.
    exists ma, mb, (e1 ++ ea), eb, ec. split_and!; try done.
    + congruence.
    + rewrite Hsa. by apply Hs1.
    + exists cfg. by rewrite Hca.
    + by rewrite <- !app_assoc.
    + apply silent_app; [|done]. by apply He1.
Qed.

Lemma tracked_cycle_writes env current_time m m' ev k name s :
  tracked k name m s →
  _check_cycle env current_time m = (m', ev) →
  ∃ s', stat_of k name m' = Some s' ∧
    Stat.status s' = status_word k (probe_failed env k name (config_manager m)) ∧
    checked env current_time k name (config_manager m) s s' ev.
Proof.
  intros Htr Hcyc.
  destruct (tracked_cycle _ _ _ _ _ _ _ _ Htr Hcyc) as (_ & s' & Htr' & Hchecked).
  destruct Htr' as (_ & _ & _ & Hs' & _).
  destruct Htr as (Hwf & Hkeys & Hmon & Hs & [n Hn]).
  exists s'. split; [done|]. split; [|done].
  destruct (check_cycle_focus _ _ _ _ _ _ _ Hwf Hkeys Hmon Hcyc)
    as (ma & mb & ev1 & evt & ev2 & Hwfa & Hca & Hsa & Hchk & Hsb & _).
  rewrite <- Hsa in Hs. apply stat_of_Some in Hs as (l & Hl & Hs).
  rewrite Hsb in Hs'. rewrite <- Hca.
  destruct k; destruct Hchk as (cfg & Hget & Hchk).
  - destruct (check_website_writes _ _ _ _ _ _ _ _ _ _ Hl Hs Hn Hget Hchk)
      as [(s1 & Hs1 & Hw) _].
    erewrite target_step_stat in Hs'; [|done|by eapply check_website_step].
    congruence.
  - destruct (check_app_pool_writes _ _ _ _ _ _ _ _ _ _ Hl Hs Hn Hchk)
      as [(s1 & Hs1 & Hw) _].
    erewrite target_step_stat in Hs'; [|done|by eapply check_app_pool_step].
    congruence.
Qed.

(** X7.  After a cycle, the entry of a monitored target with a complete
    entry shows the result of its probe: status ["ok"] or ["error"] for a
    site, ["running"] or ["stopped"] for a pool, and the time of the cycle
    as [last_check]; its [total_checks] has grown by one, except when the
    request to a site raised, which leaves it as it was. *)
Theorem cycle_writes_probe_result env current_time m k name s :
  tracked k name m s →
  ∃ s', stat_of k name (_check_cycle env current_time m).1 = Some s' ∧
    Stat.status s' = status_word k (probe_failed env k name (config_manager m)) ∧
    Stat.last_check s' = Some current_time ∧
    Stat.total_checks s'
    = (if probe_raised env k name then Stat.total_checks s
       else (λ n, n + 1) <$> Stat.total_checks s).
Proof.
  intros Htr.
  destruct (tracked_cycle_writes env current_time m _ _ k name s Htr (surjective_pairing _))
    as (s' & Hs' & Hst & Hlc & Htc & _).
  by exists s'.
Qed.

Lemma cycle_writes_probe_result_witness :
  tracked Website "shop" (new_monitor (sample_config 3)) Stat.seeded ∧
  ∃ s', stat_of Website "shop"
          (_check_cycle world_up "12:00:30" (new_monitor (sample_config 3))).1 = Some s' ∧
    Stat.status s'
    = status_word Website
        (probe_failed world_up Website "shop"
           (config_manager (new_monitor (sample_config 3)))) ∧
    Stat.last_check s' = Some "12:00:30" ∧
    Stat.total_checks s'
    = (if probe_raised world_up Website "shop" then Stat.total_checks Stat.seeded
       else (λ n, n + 1) <$> Stat.total_checks Stat.seeded).
Proof.
  assert (Htr : tracked Website "shop" (new_monitor (sample_config 3)) Stat.seeded).
  { apply new_monitor_tracked; [apply sample_keys_unique | reflexivity]. }
  split; [exact Htr|].
  exact (cycle_writes_probe_result world_up "12:00:30" (new_monitor (sample_config 3))
           Website "shop" Stat.seeded Htr).
Defined.

(** ** Entries without [total_checks] *)

(** What the table shows for a name, a missing entry read as the
    dictionary [_check_cycle] would create for it. *)
Lemma lookup_or_create_stat k name m l m1 :
  tables_wf m →
  lookup_or_create k name m = (l, m1) →
  status_map k m1 !! name = Some l ∧
  heap m1 !! l = Some (default Stat.bare (stat_of k name m)).
Proof.
  intros Hwf Hlk. unfold lookup_or_create in Hlk.
  destruct (entry_or_new_spec _ _ _ _ _ _ Hwf Hlk) as (_ & Hl & _ & _ & _ & Hold & Hnew).
  split; [done|]. unfold stat_of.
  destruct (status_map k m !! name) as [l0|] eqn:Hl0; simpl.
  - destruct (Hold _ eq_refl) as [-> ->].
    destruct (Hwf _ _ _ Hl0) as [Hlt _]. apply lookup_lt_is_Some in Hlt as [s Hs].
    by rewrite Hs.
  - by apply Hnew.
Qed.

Lemma check_app_pool_incomplete env current_time name cfg m m' ev :
  tables_wf m →
  Stat.total_checks (default Stat.bare (stat_of AppPool name m)) = None →
  check_app_pool env current_time name cfg m = (m', ev) →
  stat_of AppPool name m'
  = Some (Stat.set_last_check current_time (default Stat.bare (stat_of AppPool name m))) ∧
  status m' = status m ∧
  ev = [EvAppcmd ["list"; "apppool"; name]; EvLog "ERROR" (MsgPoolCheckException name)].
Proof.
  intros Hwf Hnone Hchk.
  pose proof (check_app_pool_step _ _ _ _ _ _ _ Hwf Hchk) as Hstep.
  revert Hchk. unfold check_app_pool, get_app_pool_state.
  destruct (appcmd env _) as [success output].
  set (state := if success && contains "Started" output then _ else _).
  destruct (lookup_or_create AppPool name m) as [l m1] eqn:Hlk.
  destruct (lookup_or_create_stat _ _ _ _ _ Hwf Hlk) as [Hl Hs].
  destruct (lookup_or_create_quiet _ _ _ _ _ Hlk) as (_ & _ & Hst).
  erewrite (deref_lookup _ l) by heap_tac. cbn [Stat.total_checks Stat.set_last_check].
  rewrite Hnone. intros [= <- <-]. split_and!; [|done|done].
  unfold stat_of.
  change (status_map AppPool (update l (Stat.set_last_check current_time) m1))
    with (status_map AppPool m1).
  rewrite Hl. simpl. by rewrite list_lookup_alter_eq, Hs.
Qed.

(** X8.  A monitored pool whose entry has no [total_checks] key (the
    entry [_check_cycle] itself creates for a name it does not find) is
    never accounted: a cycle only writes [last_check], logs an error and
    issues no restart, whatever the probe says; status and [fail_count] stay
    as they are and the key is still missing afterwards. *)
Theorem pool_entry_without_total_checks_is_stuck env current_time m name :
  tables_wf m →
  keys_unique (config_manager m) →
  monitored AppPool name (config_manager m) = true →
  Stat.total_checks (default Stat.bare (stat_of AppPool name m)) = None →
  stat_of AppPool name (_check_cycle env current_time m).1
  = Some (Stat.set_last_check current_time (default Stat.bare (stat_of AppPool name m))) ∧
  EvLog "ERROR" (MsgPoolCheckException name) ∈ (_check_cycle env current_time m).2 ∧
  no_restart AppPool name (_check_cycle env current_time m).2.
Proof.
  intros Hwf Hkeys Hmon Hnone.
  destruct (_check_cycle env current_time m) as [m' ev] eqn:Hcyc. cbn [fst snd].
  destruct (check_cycle_focus _ _ _ _ _ _ _ Hwf Hkeys Hmon Hcyc)
    as (ma & mb & ev1 & evt & ev2 & Hwfa & Hca & Hsa & (cfg & _ & Hchk) & Hsb & -> & H1 & H2).
  rewrite <- Hsa in Hnone.
  destruct (check_app_pool_incomplete _ _ _ _ _ _ _ Hwfa Hnone Hchk) as (Hs' & _ & ->).
  split_and!.
  - by rewrite Hsb, Hs', Hsa.
  - rewrite !elem_of_app. right. left. right. left.
  - apply silent_harmless in H1 as [[? ?] _]. apply silent_harmless in H2 as [[? ?] _].
    unfold no_restart. rewrite !elem_of_app, !elem_of_cons, !elem_of_nil.
    unfold stop_cmd, start_cmd in *. split; intros [?|[[?|[?|[]]]|?]]; done.
Qed.

Lemma started_tables_wf n : tables_wf (started n).
Proof. apply reachable_steady, reach_start, reach_new, sample_keys_unique. Qed.

(** The pool is up, and yet its entry only gets a time. *)
Lemma pool_entry_without_total_checks_is_stuck_witness :
  tables_wf mid_pool_update ∧
  keys_unique (config_manager mid_pool_update) ∧
  monitored AppPool "NewPool" (config_manager mid_pool_update) = true ∧
  Stat.total_checks (default Stat.bare (stat_of AppPool "NewPool" mid_pool_update)) = None ∧
  stat_of AppPool "NewPool" (_check_cycle world_up "12:00:30" mid_pool_update).1
  = Some (Stat.set_last_check "12:00:30"
            (default Stat.bare (stat_of AppPool "NewPool" mid_pool_update))) ∧
  EvLog "ERROR" (MsgPoolCheckException "NewPool")
    ∈ (_check_cycle world_up "12:00:30" mid_pool_update).2 ∧
  no_restart AppPool "NewPool" (_check_cycle world_up "12:00:30" mid_pool_update).2.
Proof.
  assert (Hwf : tables_wf mid_pool_update) by exact (started_tables_wf 3).
  assert (Hk : keys_unique (config_manager mid_pool_update)).
  { split; apply (bool_decide_unpack _); vm_compute; exact I. }
  split; [exact Hwf|]. split; [exact Hk|]. split; [reflexivity|]. split; [reflexivity|].
  exact (pool_entry_without_total_checks_is_stuck world_up "12:00:30" mid_pool_update
           "NewPool" Hwf Hk eq_refl eq_refl).
Defined.

Lemma handle_failure_entry env name k l m m' ev s :
  heap m !! l = Some s →
  _handle_failure env name k l m = (m', ev) →
  heap m' !! l = Some s ∨
  (heap m' !! l = Some (Stat.set_fail_count 0 s) ∧ restart_succeeded k name ev).
Proof.
  intros Hs.
  destruct (threshold_reached (config_manager m) (Stat.fail_count (deref m l))) eqn:Hthr.
  - destruct (configured k name (config_manager m)) eqn:Hcfg.
    + rewrite handle_failure_restart by done. intros [= <- <-].
      destruct (start_succeeds env k name).
      * right. split; [by apply heap_update_eq|].
        unfold restart_succeeded, restart_events. simpl.
        rewrite !elem_of_cons. tauto.
      * by left.
    + rewrite handle_failure_unconfigured by done. intros [= <- <-]. by left.
  - rewrite handle_failure_quiet by done. intros [= <- <-]. by left.
Qed.

Lemma website_except_entry env current_time name m m' ev l s :
  status_map Website m !! name = Some l →
  heap m !! l = Some s →
  website_except env current_time name m = (m', ev) →
  ∃ s', stat_of Website name m' = Some s' ∧
    Stat.status s' = "error" ∧
    Stat.last_check s' = Some current_time ∧
    Stat.total_checks s' = Stat.total_checks s ∧
    (Stat.fail_count s' = Stat.fail_count s + 1 ∨
     Stat.fail_count s' = 0 ∧ restart_succeeded Website name ev).
Proof.
  intros Hl Hs. unfold website_except.
  rewrite (lookup_or_create_existing _ _ _ _ Hl). intros Hhf.
  destruct (handle_failure_modifies _ _ _ _ _ _ _ Hhf) as [(_ & _ & Hw & _) _].
  eapply handle_failure_entry in Hhf; [|heap_tac].
  unfold stat_of. cbn [status_map]. rewrite Hw.
  change (website_status (update l _ (update l _ (update l _ m)))) with (status_map Website m).
  rewrite Hl. simpl.
  destruct Hhf as [->|[-> Hok]]; eexists; (split; [done|]); split_and!; try done.
  - by left.
  - by right.
Qed.

Lemma check_website_incomplete env current_time name cfg m m' ev :
  tables_wf m →
  Stat.total_checks (default Stat.bare (stat_of Website name m)) = None →
  check_website env current_time name cfg m = (m', ev) →
  ∃ s', stat_of Website name m' = Some s' ∧
    Stat.status s' = "error" ∧
    Stat.last_check s' = Some current_time ∧
    Stat.total_checks s' = None ∧
    (Stat.fail_count s'
     = Stat.fail_count (default Stat.bare (stat_of Website name m)) + 1 ∨
     Stat.fail_count s' = 0 ∧ restart_succeeded Website name ev).
Proof.
  intros Hwf Hnone. unfold check_website.
  destruct (lookup_or_create Website name m) as [l m1] eqn:Hlk.
  destruct (lookup_or_create_stat _ _ _ _ _ Hwf Hlk) as [Hl Hs].
  assert (Hexc : ∀ m0, website_except env current_time name m0 = (m', ev) →
            status_map Website m0 = status_map Website m1 →
            (∃ s0, heap m0 !! l = Some s0 ∧
               Stat.total_checks s0 = None ∧
               Stat.fail_count s0
               = Stat.fail_count (default Stat.bare (stat_of Website name m))) →
            ∃ s', stat_of Website name m' = Some s' ∧
              Stat.status s' = "error" ∧
              Stat.last_check s' = Some current_time ∧
              Stat.total_checks s' = None ∧
              (Stat.fail_count s'
               = Stat.fail_count (default Stat.bare (stat_of Website name m)) + 1 ∨
               Stat.fail_count s' = 0 ∧ restart_succeeded Website name ev)).
  { intros m0 H0 Hmap (s0 & Hs0 & Htc & Hfc). rewrite <- Hmap in Hl.
    destruct (website_except_entry _ _ _ _ _ _ _ _ Hl Hs0 H0) as (s' & ? & ? & ? & Htc' & Hfc').
    exists s'. split_and!; try done.
    - by rewrite Htc'.
    - by rewrite <- Hfc. }
  destruct (http_status env name) as [code|].
  - erewrite (deref_lookup _ l) by heap_tac. cbn [Stat.total_checks Stat.set_last_check].
    rewrite Hnone. intros H0. apply (Hexc _ H0); [done|].
    eexists. split; [heap_tac|]. done.
  - intros H0. unfold website_except in H0.
    assert (H1 := H0). revert H1. fold (website_except env current_time name m). intros H1.
    unfold website_except in H0. rewrite Hlk in H0.
    assert (website_except env current_time name m1 = (m', ev)) as H2.
    { unfold website_except. by rewrite (lookup_or_create_existing _ _ _ _ Hl). }
    apply (Hexc _ H2); [done|]. by exists (default Stat.bare (stat_of Website name m)).
Qed.

(** X9.  A monitored site whose entry has no [total_checks] key fails
    every check, even one whose request is answered with the expected
    status: the cycle writes status ["error"] and the time, counts one more
    consecutive failure (or resets the count after a restart that
    succeeded), and leaves the key missing. *)
Theorem site_entry_without_total_checks_always_fails env current_time m name :
  tables_wf m →
  keys_unique (config_manager m) →
  monitored Website name (config_manager m) = true →
  Stat.total_checks (default Stat.bare (stat_of Website name m)) = None →
  ∃ s', stat_of Website name (_check_cycle env current_time m).1 = Some s' ∧
    Stat.status s' = "error" ∧
    Stat.last_check s' = Some current_time ∧
    Stat.total_checks s' = None ∧
    (Stat.fail_count s'
     = Stat.fail_count (default Stat.bare (stat_of Website name m)) + 1 ∨
     Stat.fail_count s' = 0 ∧
     restart_succeeded Website name (_check_cycle env current_time m).2).
Proof.
  intros Hwf Hkeys Hmon Hnone.
  destruct (_check_cycle env current_time m) as [m' ev] eqn:Hcyc. cbn [fst snd].
  destruct (check_cycle_focus _ _ _ _ _ _ _ Hwf Hkeys Hmon Hcyc)
    as (ma & mb & ev1 & evt & ev2 & Hwfa & Hca & Hsa & (cfg & _ & Hchk) & Hsb & -> & H1 & H2).
  rewrite <- Hsa in Hnone.
  destruct (check_website_incomplete _ _ _ _ _ _ _ Hwfa Hnone Hchk)
    as (s' & Hs' & Hst & Hlc & Htc & Hfc).
  exists s'. rewrite Hsb, <- Hsa. split_and!; try done.
  destruct Hfc as [?|[? Hok]]; [by left|right]. split; [done|].
  unfold restart_succeeded in *. rewrite !elem_of_app. right. by left.
Qed.

(** The site answers with the expected status, and yet its check fails. *)
Lemma site_entry_without_total_checks_always_fails_witness :
  tables_wf mid_site_update ∧
  keys_unique (config_manager mid_site_update) ∧
  monitored Website "blog" (config_manager mid_site_update) = true ∧
  Stat.total_checks (default Stat.bare (stat_of Website "blog" mid_site_update)) = None ∧
  ∃ s', stat_of Website "blog" (_check_cycle world_up "12:00:30" mid_site_update).1
        = Some s' ∧
    Stat.status s' = "error" ∧
    Stat.last_check s' = Some "12:00:30" ∧
    Stat.total_checks s' = None ∧
    (Stat.fail_count s'
     = Stat.fail_count (default Stat.bare (stat_of Website "blog" mid_site_update)) + 1 ∨
     Stat.fail_count s' = 0 ∧
     restart_succeeded Website "blog" (_check_cycle world_up "12:00:30" mid_site_update).2).
Proof.
  assert (Hwf : tables_wf mid_site_update) by exact (started_tables_wf 3).
  assert (Hk : keys_unique (config_manager mid_site_update)).
  { split; apply (bool_decide_unpack _); vm_compute; exact I. }
  split; [exact Hwf|]. split; [exact Hk|]. split; [reflexivity|]. split; [reflexivity|].
  exact (site_entry_without_total_checks_always_fails world_up "12:00:30" mid_site_update
           "blog" Hwf Hk eq_refl eq_refl).
Defined.

(** ** Entries over the life of the engine *)

(** X10.  In every state the engine can reach, each configured site and
    pool, enabled or not, has an entry in the status table of its kind, and
    every entry of the tables has its [total_checks] key; the keys of the
    two configuration maps are distinct and no two names share a status
    object. *)
Theorem reachable_entries_complete m : reachable m → steady m.
Proof. intros Hr. by apply reachable_steady. Qed.

Lemma reachable_entries_complete_witness :
  reachable after_reload_and_start ∧ steady after_reload_and_start.
Proof.
  assert (Hr : reachable after_reload_and_start).
  { apply reach_start, reach_save_web, reach_cycle, reach_new.
    split; apply (bool_decide_unpack _); vm_compute; exact I. }
  split; [exact Hr|]. exact (reachable_entries_complete after_reload_and_start Hr).
Defined.

(** X11.  [start()] on a stopped engine begins a new run: the engine-wide
    counters are back at zero and the start time is the time of the call,
    while every entry of the status tables, with the failures counted and
    the checks made in earlier runs, is what it was. *)
Theorem start_resets_counters_keeps_entries now m :
  tables_wf m →
  running m = false →
  running (start now m).1.1 = true ∧
  status (start now m).1.1 = MonitorStatus.mk "running" (Some now) None 0 0 0 0 ∧
  config_manager (start now m).1.1 = config_manager m ∧
  ∀ k n s, stat_of k n m = Some s → stat_of k n (start now m).1.1 = Some s.
Proof.
  intros Hwf Hr. unfold start. rewrite Hr. cbn [fst].
  set (m1 := set_status _ (set_running true m)).
  destruct (init_status_flags m1) as [-> ->].
  destruct (init_status_spec m1 Hwf) as (_ & -> & _ & Hkeep & _).
  by split_and!.
Qed.

(** The engine that has counted one failure per site is started. *)
Lemma start_resets_counters_keeps_entries_witness :
  tables_wf after_one_failure ∧
  running after_one_failure = false ∧
  running (start "2026-01-01 12:01:00" after_one_failure).1.1 = true ∧
  status (start "2026-01-01 12:01:00" after_one_failure).1.1
  = MonitorStatus.mk "running" (Some "2026-01-01 12:01:00") None 0 0 0 0 ∧
  config_manager (start "2026-01-01 12:01:00" after_one_failure).1.1
  = config_manager after_one_failure ∧
  ∀ k n s, stat_of k n after_one_failure = Some s →
           stat_of k n (start "2026-01-01 12:01:00" after_one_failure).1.1 = Some s.
Proof.
  assert (Hwf : tables_wf after_one_failure).
  { apply reachable_steady, reach_cycle, reach_new.
    split; apply (bool_decide_unpack _); vm_compute; exact I. }
  assert (Hr : running after_one_failure = false) by reflexivity.
  split; [exact Hwf|]. split; [exact Hr|].
  exact (start_resets_counters_keeps_entries "2026-01-01 12:01:00" after_one_failure Hwf Hr).
Defined.

(** ** Bulk updates: the map as a whole *)

Lemma dict_set_fresh {V} (d : Dict V) k v :
  k ∉ dict_keys d → dict_set d k v = d ++ [(k, v)].
Proof.
  induction d as [|[k0 v0] d IH]; simpl; [done|].
  rewrite not_elem_of_cons. intros [Hne Hk].
  destruct (String.eqb_spec k0 k) as [->|_]; [done|]. by rewrite IH.
Qed.

Lemma ingest_entry_keys {V} str_blank (convert : JSON → option V) acc name value n :
  n ∈ dict_keys (accepted (ingest_entry str_blank convert acc (name, value))) →
  n ∈ dict_keys (accepted acc) ∨ n = name.
Proof.
  unfold ingest_entry. destruct (str_blank name); [by left|].
  destruct (convert value); cbn [accepted]; [|by left].
  rewrite dict_keys_set. destruct (dict_mem _ _); [by left|].
  rewrite elem_of_app, list_elem_of_singleton. tauto.
Qed.

Lemma ingest_accepted {V} str_blank (convert : JSON → option V) items acc :
  NoDup (dict_keys items) →
  (∀ n, n ∈ dict_keys (accepted acc) → n ∉ dict_keys items) →
  accepted (foldl (ingest_entry str_blank convert) acc items)
  = accepted acc ++ applied_entries str_blank convert items.
Proof.
  revert acc. induction items as [|[name value] items IH]; intros acc Hnd Hdisj.
  - simpl. by rewrite app_nil_r.
  - change (dict_keys ((name, value) :: items)) with (name :: dict_keys items) in *.
    apply NoDup_cons in Hnd as [Hname Hnd].
    cbn [foldl]. rewrite IH; [|done|].
    + unfold applied_entries, ingest_entry. cbn [omap list_omap fst snd].
      destruct (str_blank name); [done|].
      destruct (convert value) as [cfg|]; cbn [accepted fmap option_fmap option_map]; [|done].
      rewrite dict_set_fresh, <- app_assoc; [done|].
      intros Hin. apply (Hdisj _ Hin). by left.
    + intros n [Hn| ->]%ingest_entry_keys; [|done].
      intros Hin. apply (Hdisj n Hn). by right.
Qed.

(** X12.  A bulk update of the sites rebuilds the site map as the list of
    the entries it applies, in the order of the document, and touches
    neither the pool map nor the global settings; a bulk update of the pools
    does the same with the roles exchanged. *)
Theorem bulk_update_keeps_document_order str_blank int_of_str items m :
  NoDup (dict_keys items) →
  config_manager (save_web_config_json str_blank int_of_str (Some (JDict items)) m).1.1
  = ConfigManager.set_websites
      (applied_entries str_blank (website_config_of int_of_str) items) (config_manager m) ∧
  config_manager (save_pool_config_json str_blank int_of_str (Some (JDict items)) m).1.1
  = ConfigManager.set_app_pools
      (applied_entries str_blank (app_pool_config_of int_of_str) items) (config_manager m).
Proof.
  intros Hnd. split.
  - unfold save_web_config_json; cbn [fst]. rewrite init_status_config. cbn.
    unfold ingest. rewrite ingest_accepted; [done|done|].
    intros n Hn. by apply elem_of_nil in Hn.
  - unfold save_pool_config_json; cbn [fst]. rewrite init_status_config. cbn.
    unfold ingest. rewrite ingest_accepted; [done|done|].
    intros n Hn. by apply elem_of_nil in Hn.
Qed.

Lemma bulk_update_keeps_document_order_witness :
  NoDup (dict_keys mixed_pool_update) ∧
  config_manager
    (save_web_config_json ascii_blank ascii_int_of_str (Some (JDict mixed_pool_update))
       (new_monitor (sample_config 3))).1.1
  = ConfigManager.set_websites
      (applied_entries ascii_blank (website_config_of ascii_int_of_str) mixed_pool_update)
      (config_manager (new_monitor (sample_config 3))) ∧
  config_manager
    (save_pool_config_json ascii_blank ascii_int_of_str (Some (JDict mixed_pool_update))
       (new_monitor (sample_config 3))).1.1
  = ConfigManager.set_app_pools
      (applied_entries ascii_blank (app_pool_config_of ascii_int_of_str) mixed_pool_update)
      (config_manager (new_monitor (sample_config 3))).
Proof.
  assert (Hnodup : NoDup (dict_keys mixed_pool_update)).
  { apply (bool_decide_unpack _). vm_compute. exact I. }
  split; [exact Hnodup|].
  exact (bulk_update_keeps_document_order ascii_blank ascii_int_of_str mixed_pool_update
           (new_monitor (sample_config 3)) Hnodup).
Defined.

Lemma ingest_roundtrip {V} str_blank (convert : JSON → option V) (f : V → JSON) d acc :
  (∀ v, convert (f v) = Some v) →
  NoDup (dict_keys d) →
  (∀ n, n ∈ dict_keys d → str_blank n = false) →
  (∀ n, n ∈ dict_keys (accepted acc) → n ∉ dict_keys d) →
  foldl (ingest_entry str_blank convert) acc (map (λ e, (e.1, f e.2)) d)
  = mkIngest (accepted acc ++ d) (success_count acc + Z.of_nat (length d))
             (error_count acc) (errors acc).
Proof.
  intros Hf. revert acc.
  induction d as [|[name cfg] d IH]; intros acc Hnd Hnb Hdisj.
  - simpl. rewrite app_nil_r, Z.add_0_r. by destruct acc.
  - simpl in Hnd. apply NoDup_cons in Hnd as [Hname Hnd].
    cbn [map foldl ingest_entry fst snd].
    rewrite (Hnb name) by (by left). rewrite Hf.
    rewrite IH; cbn [accepted success_count error_count errors].
    + rewrite dict_set_fresh by (intros Hin; apply (Hdisj _ Hin); by left).
      rewrite <- app_assoc. f_equal. cbn [length]. lia.
    + done.
    + intros n Hn. apply Hnb. by right.
    + intros n. rewrite dict_set_fresh by (intros Hin; apply (Hdisj _ Hin); by left).
      unfold dict_keys. rewrite map_app.
      intros [Hn|Hn]%elem_of_app.
      * intros Hin. apply (Hdisj n Hn). by right.
      * apply list_elem_of_singleton in Hn as ->. done.
Qed.

Lemma website_config_of_asdict int_of_str cfg :
  website_config_of int_of_str (asdict_website cfg) = Some cfg.
Proof. by destruct cfg as [url [] ct es]. Qed.

Lemma app_pool_config_of_asdict int_of_str cfg :
  app_pool_config_of int_of_str (asdict_app_pool cfg) = Some cfg.
Proof. by destruct cfg as [[] [] rd]. Qed.

Lemma foldl_seed_covered k names m :
  (∀ n, n ∈ names → is_Some (stat_of k n m)) → foldl (seed k) m names = m.
Proof.
  induction names as [|n names IH]; intros Hcov; simpl; [done|].
  assert (seed k m n = m) as ->.
  { destruct (Hcov n) as [s Hs]; [by left|].
    apply stat_of_Some in Hs as (l & Hl & _).
    unfold seed, entry_or_new. by rewrite Hl. }
  apply IH. intros n' Hn'. apply Hcov. by right.
Qed.

(** [_init_status] changes nothing when every configured name has an
    entry. *)
Lemma init_status_covered m :
  (∀ k n, n ∈ config_keys k (config_manager m) → is_Some (stat_of k n m)) →
  _init_status m = m.
Proof.
  intros Hcov. unfold _init_status.
  rewrite (foldl_seed_covered Website) by apply (Hcov Website).
  apply foldl_seed_covered, (Hcov AppPool).
Qed.

(** X13.  Saving the configuration the page shows changes nothing: when
    the document is the object the page builds from the current site map
    (or pool map), taken as [json.loads] returns it, and no configured name
    is blank, the update reports every entry as applied and no error, writes
    the configuration file, and leaves the engine, configuration and status
    tables alike, exactly as it was. *)
Theorem saving_shown_config_changes_nothing str_blank int_of_str m :
  reachable m →
  (∀ k n, n ∈ config_keys k (config_manager m) → str_blank n = false) →
  save_web_config_json str_blank int_of_str (Some (JDict (web_final (config_manager m)))) m
  = (m, Saved (Z.of_nat (length (ConfigManager.websites (config_manager m)))) 0 [],
     [EvSaveConfig]) ∧
  save_pool_config_json str_blank int_of_str (Some (JDict (pool_final (config_manager m)))) m
  = (m, Saved (Z.of_nat (length (ConfigManager.app_pools (config_manager m)))) 0 [],
     [EvSaveConfig]).
Proof.
  intros [(Hwf & [Hkw Hkp] & _ & Hcov) _]%reachable_steady Hnb. split.
  - unfold save_web_config_json, ingest, web_final.
    rewrite (ingest_roundtrip str_blank (website_config_of int_of_str) asdict_website);
      [|apply website_config_of_asdict|done|apply (Hnb Website)
       |intros n Hn; by apply elem_of_nil in Hn].
    cbn [accepted success_count error_count errors app].
    assert (set_config_manager
              (ConfigManager.set_websites (ConfigManager.websites (config_manager m))
                 (config_manager
                    (set_config_manager
                       (ConfigManager.set_websites [] (config_manager m)) m)))
              (set_config_manager (ConfigManager.set_websites [] (config_manager m)) m)
            = m) as ->.
    { destruct m as [[] ? ? ? ? ?]. done. }
    by rewrite init_status_covered.
  - unfold save_pool_config_json, ingest, pool_final.
    rewrite (ingest_roundtrip str_blank (app_pool_config_of int_of_str) asdict_app_pool);
      [|apply app_pool_config_of_asdict|done|apply (Hnb AppPool)
       |intros n Hn; by apply elem_of_nil in Hn].
    cbn [accepted success_count error_count errors app].
    assert (set_config_manager
              (ConfigManager.set_app_pools (ConfigManager.app_pools (config_manager m))
                 (config_manager
                    (set_config_manager
                       (ConfigManager.set_app_pools [] (config_manager m)) m)))
              (set_config_manager (ConfigManager.set_app_pools [] (config_manager m)) m)
            = m) as ->.
    { destruct m as [[] ? ? ? ? ?]. done. }
    by rewrite init_status_covered.
Qed.

Lemma sample_names_not_blank k n :
  n ∈ config_keys k (config_manager (started 3)) → ascii_blank n = false.
Proof.
  assert (config_manager (started 3) = sample_config 3) as ->.
  { vm_compute. reflexivity. }
  destruct k; cbn; by intros ->%list_elem_of_singleton.
Qed.

Lemma saving_shown_config_changes_nothing_witness :
  reachable (started 3) ∧
  (∀ k n, n ∈ config_keys k (config_manager (started 3)) → ascii_blank n = false) ∧
  save_web_config_json ascii_blank ascii_int_of_str
    (Some (JDict (web_final (config_manager (started 3))))) (started 3)
  = (started 3,
     Saved (Z.of_nat (length (ConfigManager.websites (config_manager (started 3))))) 0 [],
     [EvSaveConfig]) ∧
  save_pool_config_json ascii_blank ascii_int_of_str
    (Some (JDict (pool_final (config_manager (started 3))))) (started 3)
  = (started 3,
     Saved (Z.of_nat (length (ConfigManager.app_pools (config_manager (started 3))))) 0 [],
     [EvSaveConfig]).
Proof.
  assert (Hr : reachable (started 3)).
  { apply reach_start, reach_new, sample_keys_unique. }
  split; [exact Hr|]. split; [exact sample_names_not_blank|].
  exact (saving_shown_config_changes_nothing ascii_blank ascii_int_of_str (started 3)
           Hr sample_names_not_blank).
Defined.

Lemma monitored_no_sites name c :
  ConfigManager.websites c = [] → monitored Website name c = false.
Proof. unfold monitored. by intros ->. Qed.

Lemma monitored_no_pools name c :
  ConfigManager.app_pools c = [] → monitored AppPool name c = false.
Proof. unfold monitored. by intros ->. Qed.

(** X14.  A document that is valid JSON but not an object fails the
    update after the map has been emptied: the result is the save failure,
    nothing is written to the configuration file, the map of the kind is
    empty in memory, and the following cycle checks no target of that kind,
    so every entry of its status table stays as it was. *)
Theorem non_object_document_empties_the_map str_blank int_of_str data m :
  tables_wf m →
  keys_unique (config_manager m) →
  is_object data = false →
  (let r := save_web_config_json str_blank int_of_str (Some data) m in
   r.1.2 = SaveFailed ∧ r.2 = [] ∧
   config_manager r.1.1 = ConfigManager.set_websites [] (config_manager m) ∧
   ∀ env current_time name,
     stat_of Website name (_check_cycle env current_time r.1.1).1
     = stat_of Website name m) ∧
  (let r := save_pool_config_json str_blank int_of_str (Some data) m in
   r.1.2 = SaveFailed ∧ r.2 = [] ∧
   config_manager r.1.1 = ConfigManager.set_app_pools [] (config_manager m) ∧
   ∀ env current_time name,
     stat_of AppPool name (_check_cycle env current_time r.1.1).1
     = stat_of AppPool name m).
Proof.
  intros Hwf [Hkw Hkp] Hobj. split; cbn zeta.
  - set (m1 := set_config_manager (ConfigManager.set_websites [] (config_manager m)) m).
    assert (save_web_config_json str_blank int_of_str (Some data) m = (m1, SaveFailed, []))
      as -> by (by destruct data).
    cbn [fst snd]. split_and!; try done.
    intros env current_time name.
    destruct (_check_cycle env current_time m1) as [m' ev] eqn:Hcyc. cbn [fst].
    apply (check_cycle_untouched _ _ _ _ _ Website name) in Hcyc; try done.
    split; [apply NoDup_nil_2|done].
  - set (m1 := set_config_manager (ConfigManager.set_app_pools [] (config_manager m)) m).
    assert (save_pool_config_json str_blank int_of_str (Some data) m = (m1, SaveFailed, []))
      as -> by (by destruct data).
    cbn [fst snd]. split_and!; try done.
    intros env current_time name.
    destruct (_check_cycle env current_time m1) as [m' ev] eqn:Hcyc. cbn [fst].
    apply (check_cycle_untouched _ _ _ _ _ AppPool name) in Hcyc; try done.
    split; [done|apply NoDup_nil_2].
Qed.

(** The document is a list. *)
Lemma non_object_document_empties_the_map_witness :
  tables_wf (started 3) ∧
  keys_unique (config_manager (started 3)) ∧
  is_object (JList [JStr "shop"]) = false ∧
  (let r := save_web_config_json ascii_blank ascii_int_of_str
              (Some (JList [JStr "shop"])) (started 3) in
   r.1.2 = SaveFailed ∧ r.2 = [] ∧
   config_manager r.1.1 = ConfigManager.set_websites [] (config_manager (started 3)) ∧
   ∀ env current_time name,
     stat_of Website name (_check_cycle env current_time r.1.1).1
     = stat_of Website name (started 3)) ∧
  (let r := save_pool_config_json ascii_blank ascii_int_of_str
              (Some (JList [JStr "shop"])) (started 3) in
   r.1.2 = SaveFailed ∧ r.2 = [] ∧
   config_manager r.1.1 = ConfigManager.set_app_pools [] (config_manager (started 3)) ∧
   ∀ env current_time name,
     stat_of AppPool name (_check_cycle env current_time r.1.1).1
     = stat_of AppPool name (started 3)).
Proof.
  assert (Hk : keys_unique (config_manager (started 3))).
  { apply reachable_steady, reach_start, reach_new, sample_keys_unique. }
  split; [exact (started_tables_wf 3)|]. split; [exact Hk|]. split; [reflexivity|].
  exact (non_object_document_empties_the_map ascii_blank ascii_int_of_str
           (JList [JStr "shop"]) (started 3) (started_tables_wf 3) Hk eq_refl).
Defined.

(** ** The state of a pool *)

Lemma prefix_nil s : String.prefix "" s = true.
Proof. by destruct s. Qed.
Lemma prefix_cons a sub b s :
  String.prefix (String a sub) (String b s) = (if Ascii.ascii_dec a b then String.prefix sub s else false).
Proof. reflexivity. Qed.
Lemma append_cons a s t : (String a s ++ t)%string = String a (s ++ t)%string.
Proof. reflexivity. Qed.
Lemma append_nil t : ("" ++ t)%string = t.
Proof. reflexivity. Qed.

Lemma prefix_spec sub s :
  String.prefix sub s = true ↔ ∃ post, s = (sub ++ post)%string.
Proof.
  revert s. induction sub as [|a sub IH]; intros s.
  - rewrite prefix_nil. split; [by exists s|done].
  - destruct s as [|b s]; [split; [done|by intros [? ?]]|].
    rewrite prefix_cons. destruct (Ascii.ascii_dec a b) as [->|Hne].
    + rewrite IH. split; intros [post Hp]; exists post; rewrite append_cons in *; congruence.
    + split; [done|]. intros [post Hp]. rewrite append_cons in Hp. congruence.
Qed.

Lemma contains_nil sub : contains sub "" = String.prefix sub "" || false.
Proof. reflexivity. Qed.
Lemma contains_cons sub c s : contains sub (String c s) = String.prefix sub (String c s) || contains sub s.
Proof. reflexivity. Qed.

Lemma contains_spec sub s :
  contains sub s = true ↔ ∃ pre post, s = (pre ++ sub ++ post)%string.
Proof.
  induction s as [|c s IH].
  - rewrite contains_nil, orb_false_r, prefix_spec. split.
    + intros [post ->]. by exists "", post.
    + intros (pre & post & Hs). destruct pre; [by exists post|done].
  - rewrite contains_cons, orb_true_iff, prefix_spec, IH. split.
    + intros [[post ->]|(pre & post & ->)]; [by exists "", post|].
      by exists (String c pre), post.
    + intros (pre & post & Hs). destruct pre as [|c' pre].
      * left. by exists post.
      * right. rewrite append_cons in Hs. injection Hs as _ ->. by exists pre, post.
Qed.

(** X15.  [get_app_pool_state] reports ["Started"] exactly when the list
    command succeeds and its output has the text [Started] somewhere, be it
    in the state field or in the name of the pool, and whatever else the
    output says; a monitored pool passes its check exactly then. *)
Theorem pool_is_started_iff_output_mentions_started env name c :
  ((get_app_pool_state env name).1 = "Started" ↔
   (appcmd env ["list"; "apppool"; name]).1 = true ∧
   ∃ pre post,
     (appcmd env ["list"; "apppool"; name]).2 = (pre ++ "Started" ++ post)%string) ∧
  probe_failed env AppPool name c
  = negb ((appcmd env ["list"; "apppool"; name]).1 &&
          contains "Started" (appcmd env ["list"; "apppool"; name]).2).
Proof.
  unfold probe_failed, get_app_pool_state.
  destruct (appcmd env ["list"; "apppool"; name]) as [success output]. cbn [fst snd].
  rewrite <- contains_spec.
  destruct success, (contains "Started" output) eqn:Hc; cbn [andb];
    try (destruct (contains "Stopped" output)); simpl; split; try done;
    split; try done; intros [? ?]; done.
Qed.

(** A stopped pool whose name has [Started] in it passes the check. *)
Lemma pool_is_started_iff_output_mentions_started_witness :
  (get_app_pool_state world_misleading "StartedPool").1 = "Started" ∧
  probe_failed world_misleading AppPool "StartedPool" (sample_config 3) = false.
Proof.
  destruct (pool_is_started_iff_output_mentions_started world_misleading "StartedPool"
              (sample_config 3)) as [Hiff Hpf].
  split.
  - apply Hiff. split; [reflexivity|]. by exists "APPPOOL ", "Pool (state:Stopped)".
  - rewrite Hpf. reflexivity.
Defined.

(** ** The log buffer *)

Lemma last_n_snoc {A} n (l : list A) x :
  last_n (S n) (l ++ [x]) = last_n n l ++ [x].
Proof.
  unfold last_n. rewrite length_app. cbn [length].
  replace (length l + 1 - S n)%nat with (length l - n)%nat by lia.
  rewrite drop_app_le by lia. done.
Qed.

Lemma last_n_short {A} n (l : list A) : (length l ≤ n)%nat → last_n n l = l.
Proof. intros Hle. unfold last_n. by replace (length l - n)%nat with 0%nat by lia. Qed.

Lemma last_n_length {A} n (l : list A) : length (last_n n l) = Nat.min n (length l).
Proof. unfold last_n. rewrite length_drop. lia. Qed.

Lemma last_n_last_n {A} n k (l : list A) :
  (n ≤ k)%nat → last_n n (last_n k l) = last_n n l.
Proof.
  intros Hle. unfold last_n. rewrite length_drop, drop_drop. f_equal. lia.
Qed.

Lemma last_n_app_last_n {A} n (l r : list A) :
  last_n n (last_n n l ++ r) = last_n n (l ++ r).
Proof.
  unfold last_n at 2.
  rewrite <- (drop_app_le l r) by lia.
  unfold last_n. rewrite length_drop, drop_drop, length_app. f_equal. lia.
Qed.

Lemma log_step_buffer timestamp message level lm :
  (length (LogManager.memory_logs lm) ≤ MAX_LOG_LINES)%nat →
  LogManager.memory_logs (LogManager.log timestamp message level lm).1
  = last_n MAX_LOG_LINES
      (LogManager.memory_logs lm ++ [LogManager.log_entry timestamp level message]).
Proof.
  intros Hle. unfold LogManager.log. cbn [fst LogManager.memory_logs].
  set (l := LogManager.memory_logs lm ++ [_]).
  assert (length l = S (length (LogManager.memory_logs lm))) as Hlen
    by (unfold l; rewrite length_app; simpl; lia).
  destruct (Nat.ltb_spec MAX_LOG_LINES (length l)) as [Hlt|Hge].
  - unfold last_n. replace (length l - MAX_LOG_LINES)%nat with 1%nat by lia.
    by destruct l.
  - by rewrite last_n_short.
Qed.

Lemma log_all_buffer items lm :
  (length (LogManager.memory_logs lm) ≤ MAX_LOG_LINES)%nat →
  LogManager.memory_logs (log_all items lm)
  = last_n MAX_LOG_LINES (LogManager.memory_logs lm ++ map entry_of items).
Proof.
  revert lm. induction items as [|[[timestamp message] level] items IH]; intros lm Hle.
  - simpl. rewrite app_nil_r. by rewrite last_n_short.
  - cbn [log_all foldl]. fold (log_all items (LogManager.log timestamp message level lm).1).
    pose proof (log_step_buffer timestamp message level lm Hle) as Hb.
    rewrite IH.
    + rewrite Hb. cbn [map entry_of].
      set (e := LogManager.log_entry timestamp level message).
      set (l := LogManager.memory_logs lm).
      replace (l ++ e :: map entry_of items) with ((l ++ [e]) ++ map entry_of items)
        by (by rewrite <- app_assoc).
      apply last_n_app_last_n.
    + rewrite Hb, last_n_length. lia.
Qed.

(** X16.  The memory buffer of the logger holds the last [MAX_LOG_LINES]
    lines logged, oldest first, and all of them while there are fewer; so it
    never holds more than [MAX_LOG_LINES] lines. *)
Theorem log_buffer_keeps_last_lines log_file items :
  LogManager.memory_logs (log_all items (LogManager.new log_file))
  = last_n MAX_LOG_LINES (map entry_of items) ∧
  (length (LogManager.memory_logs (log_all items (LogManager.new log_file)))
   ≤ MAX_LOG_LINES)%nat.
Proof.
  assert (LogManager.memory_logs (log_all items (LogManager.new log_file))
          = last_n MAX_LOG_LINES (map entry_of items)) as Heq.
  { rewrite log_all_buffer; [done|]. simpl. unfold MAX_LOG_LINES. lia. }
  split; [done|]. rewrite Heq, last_n_length. lia.
Qed.

(** X17.  [get_recent_logs(count)] returns the last [count] lines of the
    buffer, all of them when there are fewer, for a positive [count]; for
    [count = 0] it returns the whole buffer, not an empty list, and for a
    negative [count] the buffer without its first [-count] lines. *)
Theorem get_recent_logs_by_sign count lm :
  LogManager.get_recent_logs count lm
  = if 0 <? count then last_n (Z.to_nat count) (LogManager.memory_logs lm)
    else drop (Z.to_nat (- count)) (LogManager.memory_logs lm).
Proof.
  unfold LogManager.get_recent_logs, LogManager.slice_from, last_n.
  set (l := LogManager.memory_logs lm).
  destruct (Z.ltb_spec 0 count) as [Hpos|Hnp];
    destruct (Z.ltb_spec count (Z.of_nat (length l))) as [Hlt|Hge].
  - destruct (Z.ltb_spec (- count) 0); [|lia]. f_equal. lia.
  - by replace (length l - Z.to_nat count)%nat with 0%nat by lia.
  - destruct (Z.ltb_spec (- count) 0); [lia|done].
  - assert (length l = 0%nat) as Hl by lia. destruct l; [|done].
    by rewrite drop_nil.
Qed.

(** X18.  What the page reads with a positive [count] from a logger that
    has logged [items]: the last [count] of all lines logged, capped at
    [MAX_LOG_LINES]. *)
Theorem recent_logs_of_everything_logged log_file items count :
  0 < count →
  LogManager.get_recent_logs count (log_all items (LogManager.new log_file))
  = last_n (Nat.min (Z.to_nat count) MAX_LOG_LINES) (map entry_of items).
Proof.
  intros Hpos.
  unfold LogManager.get_recent_logs, LogManager.slice_from.
  assert (LogManager.memory_logs (log_all items (LogManager.new log_file))
          = last_n MAX_LOG_LINES (map entry_of items)) as ->.
  { rewrite log_all_buffer; [done|]. simpl. unfold MAX_LOG_LINES. lia. }
  set (l := map entry_of items).
  rewrite last_n_length.
  destruct (Z.ltb_spec count (Z.of_nat (Nat.min MAX_LOG_LINES (length l)))) as [Hlt|Hge].
  - destruct (Z.ltb_spec (- count) 0); [|lia].
    replace (Nat.min (Z.to_nat count) MAX_LOG_LINES) with (Z.to_nat count) by lia.
    rewrite <- (last_n_last_n (Z.to_nat count) MAX_LOG_LINES l) by lia.
    generalize (last_n_length MAX_LOG_LINES l).
    generalize (last_n MAX_LOG_LINES l). intros l1 Hl1.
    unfold last_n. f_equal. lia.
  - unfold last_n. f_equal. lia.
Qed.

Lemma recent_logs_of_everything_logged_witness :
  0 < 2 ∧
  LogManager.get_recent_logs 2 (log_all three_lines (LogManager.new "iis_monitor.log"))
  = last_n (Nat.min (Z.to_nat 2) MAX_LOG_LINES) (map entry_of three_lines).
Proof.
  split; [reflexivity|].
  exact (recent_logs_of_everything_logged "iis_monitor.log" three_lines 2 eq_refl).
Defined.

(** ** What the engine can ever show *)

Lemma reseeded_entries (P : TypeName → Stat.t → Prop) m m' :
  reseeded m m' →
  (∀ k, P k Stat.seeded) →
  (∀ k n s, stat_of k n m = Some s → P k s) →
  ∀ k n s, stat_of k n m' = Some s → P k s.
Proof.
  intros [Hkeep Hnew] Hseed HP k n s Hs.
  destruct (stat_of k n m) as [s0|] eqn:Hs0.
  - rewrite (Hkeep _ _ _ Hs0) in Hs. injection Hs as <-. by eapply HP.
  - rewrite (Hnew _ _ Hs0) in Hs. case_decide; [|done]. by injection Hs as <-.
Qed.

(** A property of the entries that holds of a seeded entry and is kept by
    the check of a tracked target holds of every entry in every state the
    engine can reach. *)
Lemma entries_invariant (P : TypeName → Stat.t → Prop) :
  (∀ k, P k Stat.seeded) →
  (∀ env current_time k name m s s',
     tracked k name m s → P k s →
     stat_of k name (_check_cycle env current_time m).1 = Some s' → P k s') →
  ∀ m, reachable m → ∀ k n s, stat_of k n m = Some s → P k s.
Proof.
  intros Hseed Hstep.
  induction 1 as [c Hkeys|now m Hreach IH|m _ IH|env t m Hreach IH
                 |sb ios data m Hreach IH|sb ios data m Hreach IH
                 |interval fail restart m _ IH].
  - unfold new_monitor. set (m := mkIISMonitor _ _ _ _ _ _).
    destruct (init_status_spec m (tables_wf_empty _ _ _ _)) as (_ & _ & _ & Hre).
    apply (reseeded_entries P _ _ Hre Hseed).
    intros k n s. unfold stat_of. destruct k; simpl; by rewrite lookup_empty.
  - unfold start. destruct (running m); [done|]. cbn [fst].
    apply reachable_steady in Hreach as [(Hwf & _) _].
    set (m1 := set_status _ _).
    destruct (init_status_spec m1 Hwf) as (_ & _ & _ & Hre).
    by apply (reseeded_entries P _ _ Hre Hseed).
  - unfold stop. by destruct (running m).
  - intros k n s' Hs'.
    apply reachable_steady in Hreach as [(Hwf & Hkeys & Hcomplete & Hcovered) _].
    destruct (monitored k n (config_manager m)) eqn:Hmon.
    + destruct (Hcovered k n (elem_of_config_keys _ _ _ Hmon)) as [s Hs].
      apply (Hstep env t k n m s s'); [|by eapply IH|done].
      unfold tracked. split_and!; try done. by eapply Hcomplete.
    + apply (IH k n). rewrite <- Hs'. symmetry.
      by apply (check_cycle_untouched env t m _ _ k n Hwf Hkeys Hmon (surjective_pairing _)).
  - unfold save_web_config_json. destruct data as [data|]; [|done].
    destruct data as [| | | | | |items]; cbn [fst]; try done.
    apply reachable_steady in Hreach as [(Hwf & _) _].
    set (m1 := set_config_manager _ _).
    destruct (init_status_spec m1 Hwf) as (_ & _ & _ & Hre).
    by apply (reseeded_entries P _ _ Hre Hseed).
  - unfold save_pool_config_json. destruct data as [data|]; [|done].
    destruct data as [| | | | | |items]; cbn [fst]; try done.
    apply reachable_steady in Hreach as [(Hwf & _) _].
    set (m1 := set_config_manager _ _).
    destruct (init_status_spec m1 Hwf) as (_ & _ & _ & Hre).
    by apply (reseeded_entries P _ _ Hre Hseed).
  - done.
Qed.

(** X19.  In every state the engine can reach, every entry of a status
    table has a failure count that is not negative, and shows one of three
    things: ["unknown"] with no failure counted, the word
    of a passed check (["ok"], ["running"]) with no failure counted, or the
    word of a failed check (["error"], ["stopped"]). *)
Theorem reachable_entries_consistent m k n s :
  reachable m → stat_of k n m = Some s → entry_consistent k s.
Proof.
  intros Hreach. revert k n s.
  apply (entries_invariant entry_consistent); [..|done].
  - intros k. split; [done|]. by left.
  - intros env t k name m0 s s' Htr [Hfc _] Hs'.
    destruct (tracked_cycle_writes env t m0 _ _ k name s Htr (surjective_pairing _))
      as (s1 & Hs1 & Hst & _ & _ & _ & Hout).
    rewrite Hs1 in Hs'. injection Hs' as <-.
    unfold entry_consistent. rewrite Hst. unfold check_outcome in Hout.
    destruct (probe_failed env k name (config_manager m0)).
    + split; [|by right; right].
      destruct (threshold_reached _ _).
      * destruct Hout as [_ Hout]. destruct (start_succeeds env k name); lia.
      * lia.
    + destruct Hout as [_ ->]. split; [done|]. right. by left.
Qed.

(** After one failed check, the entry of ["shop"] shows ["error"] and
    one failure. *)
Lemma reachable_entries_consistent_witness :
  reachable after_one_failure ∧
  stat_of Website "shop" after_one_failure
  = Some (Stat.mk "error" 1 (Some "12:00:00") (Some 0)) ∧
  entry_consistent Website (Stat.mk "error" 1 (Some "12:00:00") (Some 0)).
Proof.
  assert (Hr : reachable after_one_failure).
  { apply reach_cycle, reach_new.
    split; apply (bool_decide_unpack _); vm_compute; exact I. }
  assert (Hs : stat_of Website "shop" after_one_failure
               = Some (Stat.mk "error" 1 (Some "12:00:00") (Some 0))).
  { vm_compute. reflexivity. }
  split; [exact Hr|]. split; [exact Hs|].
  exact (reachable_entries_consistent after_one_failure Website "shop" _ Hr Hs).
Defined.

(** X20.  In every state the engine can reach, the engine-wide counters
    are not negative and the restarts counted are at most the failures
    counted. *)
Theorem reachable_restarts_at_most_failures m :
  reachable m →
  0 ≤ MonitorStatus.total_restarts (status m) ≤ MonitorStatus.total_failures (status m).
Proof.
  induction 1 as [c Hkeys|now m _ IH|m _ IH|env t m _ IH
                 |sb ios data m _ IH|sb ios data m _ IH
                 |interval fail restart m _ IH].
  - unfold new_monitor. by rewrite (proj2 (init_status_flags _)).
  - unfold start. destruct (running m); [done|]. cbn [fst].
    by rewrite (proj2 (init_status_flags _)).
  - unfold stop. by destruct (running m).
  - pose proof (check_cycle_accounted env t m _ _ (surjective_pairing _))
      as (_ & _ & (_ & _ & _ & _ & _ & Hd) & _). lia.
  - unfold save_web_config_json. destruct data as [data|]; [|done].
    destruct data; cbn [fst]; try done. by rewrite (proj2 (init_status_flags _)).
  - unfold save_pool_config_json. destruct data as [data|]; [|done].
    destruct data; cbn [fst]; try done. by rewrite (proj2 (init_status_flags _)).
  - done.
Qed.

Lemma reachable_restarts_at_most_failures_witness :
  reachable after_one_failure ∧
  0 ≤ MonitorStatus.total_restarts (status after_one_failure)
    ≤ MonitorStatus.total_failures (status after_one_failure).
Proof.
  assert (Hr : reachable after_one_failure).
  { apply reach_cycle, reach_new.
    split; apply (bool_decide_unpack _); vm_compute; exact I. }
  split; [exact Hr|]. exact (reachable_restarts_at_most_failures after_one_failure Hr).
Defined.
